(** * Aurora load-generation harness: response framing, worker loop,
      statistics and reports

    A shallow embedding of the Python clients under [examples/] and
    [tests/realworld/]: the hand-written HTTP response framer
    ([parse_response]), the persistent-connection worker loop, the
    statistics recorders, the percentile computations and the final
    reports with their exit codes. *)

From Stdlib.Strings Require Import Ascii String Byte.
From Stdlib Require Import DecimalString.
From Stdlib Require Import ZArith QArith Qround Lia Bool Arith PeanoNat List.
Import ListNotations.
Close Scope Q_scope.

Set Implicit Arguments.
Set Warnings "-abstract-large-number".

(* ================================================================== *)
(** * Python values and primitives *)
(* ================================================================== *)

Module Py.

(** [bytes] objects and (decoded) [str] objects. *)
Definition bytes := list byte.
Definition str := list ascii.

(** The exceptions the scripts can meet.  [Exception msg] is the bare
    [raise Exception("...")] of the workers. *)
Inductive exn : Type :=
| ValueError
| IndexError
| ZeroDivisionError
| SocketTimeout
| OSError
| Exception.

(** Outcome of an expression that may raise. *)
Inductive result (A : Type) : Type :=
| Ok (a : A)
| Raise (e : exn).
Arguments Ok {A} a.
Arguments Raise {A} e.

Definition rbind {A B} (r : result A) (k : A -> result B) : result B :=
  match r with
  | Ok a => k a
  | Raise e => Raise e
  end.

Definition is_ok {A} (r : result A) : bool :=
  match r with Ok _ => true | Raise _ => false end.

(** ** Sequences *)

Fixpoint starts_with {A} (eqb : A -> A -> bool) (p s : list A) : bool :=
  match p, s with
  | [], _ => true
  | a :: p', b :: s' => eqb a b && starts_with eqb p' s'
  | _ :: _, [] => false
  end.

(** [s.find(sub)]: index of the first occurrence, [None] for Python's -1. *)
Fixpoint find {A} (eqb : A -> A -> bool) (sub s : list A) : option nat :=
  if starts_with eqb sub s then Some 0
  else match s with
       | [] => None
       | _ :: s' => option_map S (find eqb sub s')
       end.

(** [sub in s] *)
Definition contains {A} (eqb : A -> A -> bool) (sub s : list A) : bool :=
  match find eqb sub s with Some _ => true | None => false end.

(** [xs[i]] for a non-negative index: [IndexError] out of range. *)
Definition index {A} (xs : list A) (i : nat) : result A :=
  match nth_error xs i with
  | Some x => Ok x
  | None => Raise IndexError
  end.

(** ** Text *)

Definition CR : ascii := ascii_of_nat 13.
Definition LF : ascii := ascii_of_nat 10.
Definition CRLF : str := [CR; LF].

(** [str.isspace] restricted to ASCII: TAB LF VT FF CR, FS GS RS US, SPACE. *)
Definition isspace (c : ascii) : bool :=
  let n := nat_of_ascii c in
  ((9 <=? n) && (n <=? 13)) || ((28 <=? n) && (n <=? 31)) || (n =? 32).

Definition isdigit (c : ascii) : bool :=
  let n := nat_of_ascii c in (48 <=? n) && (n <=? 57).

Definition digit_value (c : ascii) : Z := Z.of_nat (nat_of_ascii c) - 48.

Definition lower_char (c : ascii) : ascii :=
  let n := nat_of_ascii c in
  if (65 <=? n) && (n <=? 90) then ascii_of_nat (n + 32) else c.

(** [s.lower()] *)
Definition lower (s : str) : str := map lower_char s.

Fixpoint lstrip (s : str) : str :=
  match s with
  | c :: s' => if isspace c then lstrip s' else s
  | [] => []
  end.

(** [s.strip()] *)
Definition strip (s : str) : str := rev (lstrip (rev (lstrip s))).

(** [s.split(sep)] for a non-empty separator: [skip] counts the
    characters of a matched separator still to be passed over, [cur] is
    the current piece, reversed. *)
Fixpoint split_go (sep s : str) (skip : nat) (cur : str) : list str :=
  match s with
  | [] => [rev cur]
  | c :: s' =>
      match skip with
      | S k => split_go sep s' k cur
      | O =>
          if starts_with Ascii.eqb sep s
          then rev cur :: split_go sep s' (length sep - 1) []
          else split_go sep s' 0 (c :: cur)
      end
  end.

Definition split (sep s : str) : list str := split_go sep s 0 [].

(** [s.split(c, 1)] for a one-character separator known to occur:
    the text before the first [c] and the text after it. *)
Fixpoint split1 (c : ascii) (s : str) : str * str :=
  match s with
  | [] => ([], [])
  | d :: s' =>
      if Ascii.eqb c d then ([], s')
      else let (k, v) := split1 c s' in (d :: k, v)
  end.

(** [s.split()]: maximal runs of non-whitespace. *)
Fixpoint split_ws_go (s : str) (cur : str) : list str :=
  match s with
  | [] => match cur with [] => [] | _ => [rev cur] end
  | c :: s' =>
      if isspace c
      then match cur with
           | [] => split_ws_go s' []
           | _ => rev cur :: split_ws_go s' []
           end
      else split_ws_go s' (c :: cur)
  end.

Definition split_ws (s : str) : list str := split_ws_go s [].

(** Digits of [int(s)], base 10: single underscores are allowed between
    digits; [seen] tells whether the previous character was a digit. *)
Fixpoint int_digits (s : str) (acc : Z) (seen : bool) : option Z :=
  match s with
  | [] => if seen then Some acc else None
  | c :: s' =>
      if isdigit c then int_digits s' (10 * acc + digit_value c) true
      else if Ascii.eqb c "_"%char
           then (if seen then int_digits s' acc false else None)
           else None
  end.

(** [int(s)] for a [str]: surrounding whitespace, an optional sign, then
    the digits; [ValueError] otherwise.  (Exact for ASCII text; the
    interpreter's limit on the number of digits is not modelled.) *)
Definition int (s : str) : result Z :=
  let body := strip s in
  let parsed :=
    match body with
    | c :: rest =>
        if Ascii.eqb c "-"%char then option_map Z.opp (int_digits rest 0 false)
        else if Ascii.eqb c "+"%char then int_digits rest 0 false
        else int_digits body 0 false
    | [] => None
    end in
  match parsed with
  | Some z => Ok z
  | None => Raise ValueError
  end.

(** [b.decode("utf-8", errors="ignore")].  Bytes below 0x80 decode to
    themselves and stray bytes from 0x80 up are dropped; this is exact
    for every header block without a well-formed multi-byte sequence. *)
Definition is_ascii7 (b : byte) : bool := (Byte.to_nat b <? 128)%nat.

Definition decode (b : bytes) : str :=
  map ascii_of_byte (filter is_ascii7 b).

(** [s.encode()] for ASCII text. *)
Definition encode (s : str) : bytes := map byte_of_ascii s.

Definition of_string (s : string) : str := list_ascii_of_string s.

End Py.

(* ================================================================== *)
(** * Sockets *)
(* ================================================================== *)

Module Net.
Import Py.

(** What a read meets once every byte in flight has been delivered:
    the peer's orderly shutdown (a zero-length read) or an error such
    as [socket.timeout]. *)
Inductive sock_end : Type :=
| PeerClosed
| RecvRaises (e : exn).

(** The receiving side of a connected socket: the segments still to
    arrive, in order, and what follows them.  One [recv] never returns
    bytes of two segments, so a list of segments fixes how the stream is
    split over reads. *)
Record socket : Type := {
  pending : list bytes;
  at_end : sock_end
}.

Definition sock_size (s : socket) : nat := length (concat (pending s)).

(** Segments in flight are non-empty: a zero-length read only happens
    at the end of the stream. *)
Definition well_formed (s : socket) : Prop :=
  Forall (fun seg => seg <> []) (pending s).

(** [sock.recv(bufsize)]: at most [bufsize] bytes of the first segment. *)
Definition recv (bufsize : Z) (s : socket) : result bytes * socket :=
  match pending s with
  | [] =>
      match at_end s with
      | PeerClosed => (Ok [], s)
      | RecvRaises e => (Raise e, s)
      end
  | seg :: rest =>
      (Ok (firstn (Z.to_nat bufsize) seg),
       {| pending := match skipn (Z.to_nat bufsize) seg with
                     | [] => rest
                     | more => more :: rest
                     end;
          at_end := at_end s |})
  end.

End Net.

(* ================================================================== *)
(** * ResponseFramer: [parse_response] *)
(* ================================================================== *)

Module Framer.
Import Py Net.

Definition CRLF2 : bytes := encode (CRLF ++ CRLF).

Definition str_eqb (a b : str) : bool :=
  (length a =? length b) && starts_with Ascii.eqb a b.

(** A [dict] with [str] keys: assignment replaces the value of a key
    already present and keeps its place. *)
Definition dict := list (str * str).

Fixpoint dict_set (k v : str) (d : dict) : dict :=
  match d with
  | [] => [(k, v)]
  | (k', v') :: d' =>
      if str_eqb k k' then (k, v) :: d' else (k', v') :: dict_set k v d'
  end.

Fixpoint dict_get (k : str) (d : dict) : option str :=
  match d with
  | [] => None
  | (k', v') :: d' => if str_eqb k k' then Some v' else dict_get k d'
  end.

(** [response[:header_end]] with Python's reading of a negative bound. *)
Definition slice_to (b : bytes) (stop : Z) : bytes :=
  if (stop <? 0)%Z then firstn (length b - Z.to_nat (- stop)) b
  else firstn (Z.to_nat stop) b.

(** [response.find(b"\r\n\r\n")] as the integer Python returns. *)
Definition find_blank_line (response : bytes) : Z :=
  match find Byte.eqb CRLF2 response with
  | Some i => Z.of_nat i
  | None => (-1)%Z
  end.

Definition len (b : bytes) : Z := Z.of_nat (length b).

(** [int(first_line.split()[1])] *)
Definition parse_status (first_line : str) : result Z :=
  rbind (index (split_ws first_line) 1) int.

(** [while body_received < content_length], reading at most [bufsize]
    bytes at a time: the result is [body_received] when the loop is
    left, by its test or by the [break] on a zero-length read. *)
Fixpoint read_body (bufsize : Z) (fuel : nat) (content_length body_received : Z)
    (s : socket) : option (result Z * socket) :=
  match fuel with
  | O => None
  | S fuel' =>
      if (body_received <? content_length)%Z then
        let remaining := (content_length - body_received)%Z in
        match recv (Z.min remaining bufsize) s with
        | (Raise e, s') => Some (Raise e, s')
        | (Ok [], s') => Some (Ok body_received, s')
        | (Ok chunk, s') =>
            read_body bufsize fuel' content_length
              (body_received + len chunk)%Z s'
        end
      else Some (Ok body_received, s)
  end.

(** ** examples/stress_test.py *)

Module StressTest.

(** The value of the locals at the [return] of [parse_response]; the
    function returns [(status_code, content_length, headers)]. *)
Record locals : Type := {
  status_code : option Z;
  content_length : Z;
  headers : dict;
  body_received : Z
}.

(** [while not headers_done]: [Ok None] is the early
    [return None, 0, {}], [Ok (Some response)] leaves the loop. *)
Fixpoint read_headers (fuel : nat) (response : bytes) (s : socket)
  : option (result (option bytes) * socket) :=
  match fuel with
  | O => None
  | S fuel' =>
      match recv 4096%Z s with
      | (Raise e, s') => Some (Raise e, s')
      | (Ok [], s') => Some (Ok None, s')
      | (Ok chunk, s') =>
          let response := response ++ chunk in
          if contains Byte.eqb CRLF2 response
          then Some (Ok (Some response), s')
          else read_headers fuel' response s'
      end
  end.

(** The loop over [header_data.split("\r\n")[1:]]. *)
Definition parse_header_lines (lines : list str) : dict :=
  fold_left
    (fun headers line =>
       if contains Ascii.eqb [":"%char] line
       then let (key, value) := split1 ":"%char line in
            dict_set (lower (strip key)) (strip value) headers
       else headers)
    lines [].

(** The key under which the loop files a header line, if it files it:
    [key.strip().lower()]. *)
Definition header_key (line : str) : option str :=
  if contains Ascii.eqb [":"%char] line
  then Some (lower (strip (fst (split1 ":"%char line))))
  else None.

(** [int(headers.get("content-length", 0))] *)
Definition get_content_length (headers : dict) : result Z :=
  match dict_get (of_string "content-length") headers with
  | Some v => int v
  | None => Ok 0%Z
  end.

(** The statements between the two loops, on the decoded header block:
    status line, header dictionary, content length. *)
Definition parse_header_block (header_data : str) : result (Z * dict * Z) :=
  let lines := split CRLF header_data in
  rbind (index lines 0) (fun first_line =>
  rbind (parse_status first_line) (fun status =>
  let headers := parse_header_lines (tl lines) in
  rbind (get_content_length headers) (fun content_length =>
  Ok (status, headers, content_length)))).

Definition closed_early : locals :=
  {| status_code := None; content_length := 0; headers := [];
     body_received := 0 |}.

Definition parse_response_fuel (fuel : nat) (s : socket)
  : option (result locals * socket) :=
  match read_headers fuel [] s with
  | None => None
  | Some (Raise e, s1) => Some (Raise e, s1)
  | Some (Ok None, s1) => Some (Ok closed_early, s1)
  | Some (Ok (Some response), s1) =>
      let header_end := find_blank_line response in
      let header_data := decode (slice_to response header_end) in
      let body_start := (header_end + 4)%Z in
      match parse_header_block header_data with
      | Raise e => Some (Raise e, s1)
      | Ok (status, headers, content_length) =>
          match read_body 65536 fuel content_length
                  (len response - body_start) s1 with
          | None => None
          | Some (Raise e, s2) => Some (Raise e, s2)
          | Some (Ok body_received, s2) =>
              Some (Ok {| status_code := Some status;
                          content_length := content_length;
                          headers := headers;
                          body_received := body_received |}, s2)
          end
      end
  end.

(** Every turn of either loop takes at least one byte off the socket,
    so one more unit of fuel than bytes in flight is enough
    ([parse_response_fuel_enough] below); the last branch is never
    taken. *)
Definition parse_response_locals (s : socket) : result locals * socket :=
  match parse_response_fuel (S (sock_size s)) s with
  | Some r => r
  | None => (Raise Exception, s)
  end.

(** [parse_response(sock)] *)
Definition parse_response (s : socket)
  : result (option Z * Z * dict) * socket :=
  let (r, s') := parse_response_locals s in
  (rbind r (fun l => Ok (status_code l, content_length l, headers l)), s').

End StressTest.

(** ** examples/extreme_stress.py and examples/ultra_stress.py

    The two differ in the size of the first reads only: 65536 bytes in
    extreme_stress.py, 1024*1024 in ultra_stress.py. *)

Module Extreme.

(** The locals at the [return status, content_length]; every other
    [return] gives [(None, 0)]. *)
Record locals : Type := {
  status : option Z;
  content_length : Z;
  body_received : Z
}.

Definition no_response : locals :=
  {| status := None; content_length := 0; body_received := 0 |}.

(** The [for line in header_data.split("\r\n")] loop with its [break];
    [content_length] starts at 0. *)
Fixpoint scan_content_length (lines : list str) : result Z :=
  match lines with
  | [] => Ok 0%Z
  | line :: rest =>
      if starts_with Ascii.eqb (of_string "content-length:") (lower line)
      then rbind (index (split [":"%char] line) 1) (fun v => int (strip v))
      else scan_content_length rest
  end.

(** [int(header_data.split("\r\n")[0].split()[1])] *)
Definition status_of (header_data : str) : result Z :=
  rbind (index (split CRLF header_data) 0) parse_status.

(** One pass of [while True]; the [try] turns every exception into
    [return None, 0]. *)
Fixpoint read_response (bufsize : Z) (fuel : nat) (response : bytes)
    (s : socket) : option (locals * socket) :=
  match fuel with
  | O => None
  | S fuel' =>
      match recv bufsize s with
      | (Raise _, s') => Some (no_response, s')
      | (Ok [], s') => Some (no_response, s')
      | (Ok chunk, s') =>
          let response := response ++ chunk in
          if contains Byte.eqb CRLF2 response then
            let header_end := find_blank_line response in
            let header_data := decode (slice_to response header_end) in
            match scan_content_length (split CRLF header_data) with
            | Raise _ => Some (no_response, s')
            | Ok content_length =>
                let body_start := (header_end + 4)%Z in
                match read_body bufsize fuel content_length
                        (len response - body_start) s' with
                | None => None
                | Some (Raise _, s2) => Some (no_response, s2)
                | Some (Ok body_received, s2) =>
                    match status_of header_data with
                    | Raise _ => Some (no_response, s2)
                    | Ok st =>
                        Some ({| status := Some st;
                                 content_length := content_length;
                                 body_received := body_received |}, s2)
                    end
                end
            end
          else read_response bufsize fuel' response s'
      end
  end.


Definition parse_response_fuel (bufsize : Z) (fuel : nat) (s : socket)
  : option (locals * socket) :=
  read_response bufsize fuel [] s.

(** As in stress_test.py, fuel beyond the bytes in flight is never
    used up ([parse_response_fuel_enough]). *)
Definition parse_response_locals (bufsize : Z) (s : socket)
  : locals * socket :=
  match parse_response_fuel bufsize (S (sock_size s)) s with
  | Some r => r
  | None => (no_response, s)
  end.

(** [parse_response(sock)] *)
Definition parse_response (bufsize : Z) (s : socket)
  : (option Z * Z) * socket :=
  let (l, s') := parse_response_locals bufsize s in
  ((status l, content_length l), s').

End Extreme.

End Framer.




(* ================================================================== *)
(** * StatsAggregator of the queue-driven stress clients *)
(* ================================================================== *)

Module Stats.
Import Py Framer.

(** A latency sample, in ticks of the performance counter. *)
Definition latency := Z.

(** A value of the [per_endpoint] [defaultdict]. *)
Record endpoint_stats : Type := {
  ep_count : nat;
  ep_bytes : Z;
  ep_latencies : list latency
}.

Definition ep_zero : endpoint_stats :=
  {| ep_count := 0; ep_bytes := 0; ep_latencies := [] |}.

(** The module-level [stats] dictionary.  [per_endpoint] is a
    [defaultdict]: a total map whose absent keys read as [ep_zero]. *)
Record stats : Type := {
  requests_sent : nat;
  requests_completed : nat;
  requests_failed : nat;
  bytes_sent : nat;
  bytes_received : Z;
  connection_errors : nat;
  latencies : list latency;
  per_endpoint : str -> endpoint_stats
}.

Definition initial : stats :=
  {| requests_sent := 0; requests_completed := 0; requests_failed := 0;
     bytes_sent := 0; bytes_received := 0; connection_errors := 0;
     latencies := []; per_endpoint := fun _ => ep_zero |}.

(** What differs between the scripts in how they record. *)
Record shape : Type := {
  latency_capacity : option nat;  (* [if len(stats["latencies"]) < N] *)
  endpoint_latencies : bool;      (* stress_test.py keeps them per endpoint *)
  counts_bytes_sent : bool        (* stress_test.py has no ["bytes_sent"] *)
}.

(** The [with stats_lock:] blocks of the workers. *)
Inductive update : Type :=
| ConnectionError
| Sent (request_len : nat)
| Completed (endpoint : str) (elapsed : latency) (body_len : Z)
| Failed.

Definition append_latency (capacity : option nat) (elapsed : latency)
    (l : list latency) : list latency :=
  match capacity with
  | Some n => if length l <? n then l ++ [elapsed] else l
  | None => l ++ [elapsed]
  end.

Definition set_endpoint (k : str) (v : endpoint_stats)
    (m : str -> endpoint_stats) : str -> endpoint_stats :=
  fun k' => if str_eqb k k' then v else m k'.

Definition apply (sh : shape) (u : update) (s : stats) : stats :=
  match u with
  | ConnectionError =>
      {| requests_sent := requests_sent s;
         requests_completed := requests_completed s;
         requests_failed := requests_failed s;
         bytes_sent := bytes_sent s;
         bytes_received := bytes_received s;
         connection_errors := connection_errors s + 1;
         latencies := latencies s;
         per_endpoint := per_endpoint s |}
  | Sent n =>
      {| requests_sent := requests_sent s + 1;
         requests_completed := requests_completed s;
         requests_failed := requests_failed s;
         bytes_sent := if counts_bytes_sent sh then bytes_sent s + n
                       else bytes_sent s;
         bytes_received := bytes_received s;
         connection_errors := connection_errors s;
         latencies := latencies s;
         per_endpoint := per_endpoint s |}
  | Completed endpoint elapsed body_len =>
      let e := per_endpoint s endpoint in
      {| requests_sent := requests_sent s;
         requests_completed := requests_completed s + 1;
         requests_failed := requests_failed s;
         bytes_sent := bytes_sent s;
         bytes_received := bytes_received s + body_len;
         connection_errors := connection_errors s;
         latencies := append_latency (latency_capacity sh) elapsed (latencies s);
         per_endpoint :=
           set_endpoint endpoint
             {| ep_count := ep_count e + 1;
                ep_bytes := ep_bytes e + body_len;
                ep_latencies := if endpoint_latencies sh
                                then ep_latencies e ++ [elapsed]
                                else ep_latencies e |}
             (per_endpoint s) |}
  | Failed =>
      {| requests_sent := requests_sent s;
         requests_completed := requests_completed s;
         requests_failed := requests_failed s + 1;
         bytes_sent := bytes_sent s;
         bytes_received := bytes_received s;
         connection_errors := connection_errors s;
         latencies := latencies s;
         per_endpoint := per_endpoint s |}
  end.

(** The latencies of the completed requests among [us], in order. *)
Definition completed_latencies (us : list update) : list latency :=
  flat_map (fun u => match u with
                     | Completed _ elapsed _ => [elapsed]
                     | _ => []
                     end) us.

(** The sums the per-endpoint table of the final report adds up to,
    over the keys [eps]. *)
Definition total_count (m : str -> endpoint_stats) (eps : list str) : nat :=
  fold_right (fun ep acc => ep_count (m ep) + acc) 0 eps.

Definition total_bytes (m : str -> endpoint_stats) (eps : list str) : Z :=
  fold_right (fun ep acc => ep_bytes (m ep) + acc)%Z 0%Z eps.

(** The endpoint of a completed request. *)
Definition completed_endpoint (u : update) : option str :=
  match u with
  | Completed endpoint _ _ => Some endpoint
  | _ => None
  end.

Definition is_completed (u : update) : bool :=
  match u with Completed _ _ _ => true | _ => false end.

Definition is_failed (u : update) : bool :=
  match u with Failed => true | _ => false end.

(** [stats] after the critical sections [us], from the initial one. *)
Definition after (sh : shape) (us : list update) : stats :=
  fold_left (fun s u => apply sh u s) us initial.

End Stats.

(* ================================================================== *)
(** * Worker / ConnectionManager: the [worker] loop *)
(* ================================================================== *)

Module Worker.
Import Py Net Framer.

(** An entry of the request queue; stress_test.py queues the endpoint
    alone, which is a task without body. *)
Record task : Type := {
  endpoint : str;
  body : option bytes
}.

(** [request_queue.get(timeout=...)]: [queue.Empty], or an item, which
    is a task or the [None] that tells a worker to stop. *)
Inductive get_result : Type :=
| Empty
| Item (x : option task).

(** The socket object held in [sock].  [cid] names the connection (the
    n-th socket this worker created), [rx] is its receiving side, and
    [is_open] is false once [close()] was called on it. *)
Record conn : Type := {
  cid : nat;
  rx : socket;
  is_open : bool
}.

(** The locals of [worker]. *)
Record local : Type := {
  sock : option conn;
  requests_on_conn : nat;
  next_cid : nat
}.

Definition start : local :=
  {| sock := None; requests_on_conn := 0; next_cid := 0 |}.

(** What one turn of the loop meets outside the worker. *)
Record env : Type := {
  running : bool;             (* the global flag at the loop head *)
  dequeued : get_result;
  socket_created : bool;      (* [socket.socket()] and the option calls return *)
  connected : option socket;  (* [sock.connect]: [None] when it raises *)
  sent : bool;                (* [sock.sendall] returns *)
  elapsed : Stats.latency     (* the difference of the two [perf_counter()] *)
}.

(** What the worker does to the world, in program order. *)
Inductive event : Type :=
| EvClose (c : nat)
| EvConnect (c : nat)
| EvConnectFailed
| EvSend (c : nat) (served : nat) (t : task)
| EvStats (u : Stats.update)
| EvPut (t : task)
| EvSleep (ms : nat).

(** The constants and helpers in which the three scripts differ. *)
Record profile : Type := {
  REQUESTS_PER_CONNECTION : nat;
  connect_backoff : nat;          (* [time.sleep] after a failed connect, ms *)
  failure_pause : option nat;     (* [time.sleep(0.01)] of stress_test.py *)
  create_request : task -> bytes;
  receive : socket -> result (Z * Z) * socket;
  recording : Stats.shape
}.

Inductive control : Type :=
| Continue
| Break.

Definition set_sock (w : local) (c : option conn) (n : nat) : local :=
  {| sock := c; requests_on_conn := n; next_cid := next_cid w |}.

Definition closed (c : conn) : conn :=
  {| cid := cid c; rx := rx c; is_open := false |}.

(** The inner [except Exception] of the send block. *)
Definition on_failure (p : profile) (w : local) (c : conn)
  : list event * local * control :=
  ([EvStats Stats.Failed; EvClose (cid c)]
     ++ match failure_pause p with Some ms => [EvSleep ms] | None => [] end,
   set_sock w None 0, Continue).

(** From [start = time.perf_counter()] to the end of the inner [try]:
    [c] is the socket in [sock]. *)
Definition exchange (p : profile) (e : env) (w : local) (t : task) (c : conn)
  : list event * local * control :=
  if is_open c && sent e then
    let req_data := create_request p t in
    let pre := [EvSend (cid c) (requests_on_conn w) t;
                EvStats (Stats.Sent (length req_data))] in
    match receive p (rx c) with
    | (Ok (status, body_len), rx') =>
        (pre ++ [EvStats (Stats.Completed (endpoint t) (elapsed e) body_len)],
         set_sock w (Some {| cid := cid c; rx := rx'; is_open := true |})
           (requests_on_conn w + 1),
         Continue)
    | (Raise _, rx') =>
        let '(evs, w', k) := on_failure p w c in (pre ++ evs, w', k)
    end
  else if is_open c then
    let '(evs, w', k) := on_failure p w c in
    (EvSend (cid c) (requests_on_conn w) t :: evs, w', k)
  else on_failure p w c.

(** The block under [if sock is None or requests_on_connection >= ...]:
    the socket to send on, or [None] when the turn ends here (the
    [continue] after a failed connect, or the outer [except] when no
    socket could be created, which leaves [sock] as it was, closed). *)
Definition ensure_connection (p : profile) (e : env) (w : local) (t : task)
  : list event * local * option conn :=
  let reconnect (old : list event) :=
    if negb (socket_created e)
    then (old ++ [EvStats Stats.Failed],
          set_sock w (option_map closed (sock w)) (requests_on_conn w),
          None)
    else
      match connected e with
      | None =>
          (old ++ [EvConnectFailed; EvStats Stats.ConnectionError; EvPut t;
                   EvSleep (connect_backoff p)],
           {| sock := None; requests_on_conn := requests_on_conn w;
              next_cid := S (next_cid w) |},
           None)
      | Some rx0 =>
          let c' := {| cid := next_cid w; rx := rx0; is_open := true |} in
          (old ++ [EvConnect (cid c')],
           {| sock := Some c'; requests_on_conn := 0;
              next_cid := S (next_cid w) |},
           Some c')
      end in
  match sock w with
  | Some c =>
      if requests_on_conn w <? REQUESTS_PER_CONNECTION p
      then ([], w, Some c)
      else reconnect [EvClose (cid c)]
  | None => reconnect []
  end.

(** One turn of [while running:]. *)
Definition step (p : profile) (e : env) (w : local)
  : list event * local * control :=
  if negb (running e) then ([], w, Break)
  else
    match dequeued e with
    | Empty => ([], w, Continue)
    | Item None => ([], w, Break)
    | Item (Some t) =>
        match ensure_connection p e w t with
        | (evs, w1, None) => (evs, w1, Continue)
        | (evs, w1, Some c) =>
            let '(evs', w2, k) := exchange p e w1 t c in
            (evs ++ evs', w2, k)
        end
    end.

(** The cleanup after the loop. *)
Definition cleanup (w : local) : list event :=
  match sock w with
  | Some c => [EvClose (cid c)]
  | None => []
  end.

(** The worker over the turns [envs]; when they run out the worker is
    observed in the middle of its loop. *)
Fixpoint run (p : profile) (envs : list env) (w : local)
  : list event * local :=
  match envs with
  | [] => ([], w)
  | e :: envs' =>
      let '(evs, w', k) := step p e w in
      match k with
      | Continue =>
          let (evs', w'') := run p envs' w' in (evs ++ evs', w'')
      | Break => (evs ++ cleanup w', w')
      end
  end.

(** Classes of events. *)
Definition is_put (ev : event) : bool :=
  match ev with EvPut _ => true | _ => false end.

Definition is_failed (ev : event) : bool :=
  match ev with EvStats Stats.Failed => true | _ => false end.

Definition is_completed (ev : event) : bool :=
  match ev with EvStats (Stats.Completed _ _ _) => true | _ => false end.

Definition is_sent (ev : event) : bool :=
  match ev with EvStats (Stats.Sent _) => true | _ => false end.

Definition is_connection_error (ev : event) : bool :=
  match ev with EvStats Stats.ConnectionError => true | _ => false end.

Definition is_send_on (c : nat) (ev : event) : bool :=
  match ev with EvSend c' _ _ => c =? c' | _ => false end.

Definition is_close_of (c : nat) (ev : event) : bool :=
  match ev with EvClose c' => c =? c' | _ => false end.

Definition is_connect_of (c : nat) (ev : event) : bool :=
  match ev with EvConnect c' => c =? c' | _ => false end.

Definition count (f : event -> bool) (evs : list event) : nat :=
  length (filter f evs).

(** What holds of a send [ev] that follows the events [pre]: its
    counter is the number of requests already sent on the same
    connection and is below the limit, and the connection was opened
    once and has not been closed. *)
Definition send_ok (limit : nat) (pre : list event) (ev : event) : Prop :=
  match ev with
  | EvSend c served _ =>
      served = count (is_send_on c) pre
      /\ served < Nat.max 1 limit
      /\ count (is_connect_of c) pre = 1
      /\ count (is_close_of c) pre = 0
  | _ => True
  end.

Fixpoint trace_ok (limit : nat) (pre tr : list event) : Prop :=
  match tr with
  | [] => True
  | ev :: tr' => send_ok limit pre ev /\ trace_ok limit (pre ++ [ev]) tr'
  end.

(** The loop invariant, [tr] being the events so far: connections yet
    to be named have no events; an open socket in [sock] has carried
    [requests_on_conn] sends and was opened once and never closed; a
    closed one is only kept while the counter is at the limit. *)
Definition invariant (p : profile) (tr : list event) (w : local) : Prop :=
  (forall c, next_cid w <= c ->
             count (is_send_on c) tr = 0
             /\ count (is_connect_of c) tr = 0
             /\ count (is_close_of c) tr = 0)
  /\ match sock w with
     | Some c =>
         cid c < next_cid w
         /\ if is_open c
            then count (is_send_on (cid c)) tr = requests_on_conn w
                 /\ count (is_connect_of (cid c)) tr = 1
                 /\ count (is_close_of (cid c)) tr = 0
            else REQUESTS_PER_CONNECTION p <= requests_on_conn w
     | None => True
     end
  /\ trace_ok (REQUESTS_PER_CONNECTION p) [] tr.

(** The turn takes a task off the queue. *)
Definition takes_task (e : env) : bool :=
  running e && match dequeued e with Item (Some _) => true | _ => false end.

(** The turn leaves the loop. *)
Definition leaves (e : env) : bool :=
  negb (running e) || match dequeued e with Item None => true | _ => false end.

(** The turns a run gets to: those up to the first that leaves. *)
Fixpoint turns_taken (envs : list env) : list env :=
  match envs with
  | [] => []
  | e :: envs' => if leaves e then [e] else e :: turns_taken envs'
  end.

(** The state the workers share: the statistics and the queue. *)
Record shared : Type := {
  the_stats : Stats.stats;
  request_queue : list (option task)
}.

Definition effect (p : profile) (ev : event) (sh : shared) : shared :=
  match ev with
  | EvStats u =>
      {| the_stats := Stats.apply (recording p) u (the_stats sh);
         request_queue := request_queue sh |}
  | EvPut t =>
      {| the_stats := the_stats sh;
         request_queue := request_queue sh ++ [Some t] |}
  | _ => sh
  end.

Definition effects (p : profile) (evs : list event) (sh : shared) : shared :=
  fold_left (fun sh ev => effect p ev sh) evs sh.

End Worker.

(* ================================================================== *)
(** * The three queue-driven scripts *)
(* ================================================================== *)

Module Scripts.
Import Py Net Framer Worker.

Definition PORT : str := of_string "8080".

Definition decimal (n : nat) : str :=
  of_string (NilEmpty.string_of_uint (Nat.to_uint n)).

(** [if status is None: raise Exception(...)] after [parse_response]. *)
Definition require_status {A} (r : option Z * A) : result (Z * A) :=
  match r with
  | (Some st, a) => Ok (st, a)
  | (None, _) => Raise Exception
  end.

(** ** examples/stress_test.py *)

Definition stress_test_request (t : task) : bytes :=
  encode (of_string "GET " ++ endpoint t ++ of_string " HTTP/1.1" ++ CRLF
          ++ of_string "Host: localhost:" ++ PORT ++ CRLF
          ++ of_string "Connection: keep-alive" ++ CRLF
          ++ of_string "User-Agent: StressClient/1.0" ++ CRLF
          ++ CRLF).

Definition stress_test_receive (s : socket) : result (Z * Z) * socket :=
  let (r, s') := StressTest.parse_response s in
  (rbind r (fun '(status, body_len, _) => require_status (status, body_len)),
   s').

Definition stress_test : profile :=
  {| REQUESTS_PER_CONNECTION := 200;
     connect_backoff := 100;
     failure_pause := Some 10;
     create_request := stress_test_request;
     receive := stress_test_receive;
     recording := {| Stats.latency_capacity := None;
                     Stats.endpoint_latencies := true;
                     Stats.counts_bytes_sent := false |} |}.

(** ** examples/extreme_stress.py and examples/ultra_stress.py *)

(** [create_request(endpoint, keep_alive=True, body=body)]; an empty
    body is falsy and gives a GET. *)
Definition post_request (t : task) : bytes :=
  let head (method : string) :=
    of_string method ++ of_string " " ++ endpoint t
      ++ of_string " HTTP/1.1" ++ CRLF
      ++ of_string "Host: localhost:" ++ PORT ++ CRLF
      ++ of_string "Connection: keep-alive" ++ CRLF in
  match body t with
  | Some ((_ :: _) as b) =>
      encode (head "POST"%string
              ++ of_string "Content-Length: " ++ decimal (length b) ++ CRLF
              ++ of_string "Content-Type: application/octet-stream" ++ CRLF
              ++ CRLF) ++ b
  | _ => encode (head "GET"%string ++ CRLF)
  end.

Definition extreme_receive (bufsize : Z) (s : socket)
  : result (Z * Z) * socket :=
  let (r, s') := Extreme.parse_response bufsize s in
  (require_status r, s').

Definition capped : Stats.shape :=
  {| Stats.latency_capacity := Some 100000;
     Stats.endpoint_latencies := false;
     Stats.counts_bytes_sent := true |}.

Definition extreme_stress : profile :=
  {| REQUESTS_PER_CONNECTION := 500;
     connect_backoff := 50;
     failure_pause := None;
     create_request := post_request;
     receive := extreme_receive 65536;
     recording := capped |}.

Definition ultra_stress : profile :=
  {| REQUESTS_PER_CONNECTION := 2000;
     connect_backoff := 10;
     failure_pause := None;
     create_request := post_request;
     receive := extreme_receive (1024 * 1024);
     recording := capped |}.

End Scripts.

(* ================================================================== *)
(** * The worker threads and their queue *)
(* ================================================================== *)

(** [main] of the three queue-driven scripts fills [request_queue] with
    the tasks, then with one [None] for each worker, and only then
    starts the worker threads.  The threads meet at the queue alone:
    [request_queue.get] and [request_queue.put] are atomic, and the
    counters are updated under [stats_lock].  A turn of a worker is
    therefore cut in two atomic actions, the test of [running] with the
    [get], and the rest of the turn with its updates and its [put]. *)

Module Pool.
Import Py Net Framer Worker.

(** Where a thread stands. *)
Inductive thread : Type :=
| Waiting (w : local)             (* at the head of [while running:] *)
| Holding (w : local) (t : task)  (* [get] has returned the task [t] *)
| Returned.                       (* out of the loop *)

Record pool : Type := {
  threads : list thread;
  common : shared
}.

(** The actions of thread [i]: the loop head with the value of
    [running] it reads, and the rest of a turn with what the network
    does to it. *)
Inductive action : Type :=
| Get (i : nat) (running_now : bool)
| Finish (i : nat) (e : env).

Fixpoint replace (i : nat) (th : thread) (ths : list thread) : list thread :=
  match ths, i with
  | [], _ => []
  | _ :: ths', O => th :: ths'
  | th0 :: ths', S i' => th0 :: replace i' th ths'
  end.

(** The turn of a thread that holds the task [t]. *)
Definition holding (e : env) (t : task) : env :=
  {| running := true;
     dequeued := Item (Some t);
     socket_created := socket_created e;
     connected := connected e;
     sent := sent e;
     elapsed := elapsed e |}.

Definition take (q : list (option task)) (sh : shared) : shared :=
  {| the_stats := the_stats sh; request_queue := q |}.

(** An action of a thread that is not at that point of its loop does
    not happen. *)
Definition act (p : profile) (a : action) (st : pool) : pool :=
  match a with
  | Get i running_now =>
      match nth_error (threads st) i with
      | Some (Waiting w) =>
          if negb running_now
          then {| threads := replace i Returned (threads st);
                  common := common st |}
          else
            match request_queue (common st) with
            | [] => st                       (* [queue.Empty]: [continue] *)
            | None :: q =>
                {| threads := replace i Returned (threads st);
                   common := take q (common st) |}
            | Some t :: q =>
                {| threads := replace i (Holding w t) (threads st);
                   common := take q (common st) |}
            end
      | _ => st
      end
  | Finish i e =>
      match nth_error (threads st) i with
      | Some (Holding w t) =>
          let '(evs, w', _) := step p (holding e t) w in
          {| threads := replace i (Waiting w') (threads st);
             common := effects p evs (common st) |}
      | _ => st
      end
  end.

(** The state [main] sets up: [tasks] queued, then [n] stop markers,
    for [n] threads. *)
Definition launch (n : nat) (tasks : list task) : pool :=
  {| threads := repeat (Waiting start) n;
     common := {| the_stats := Stats.initial;
                  request_queue := map Some tasks ++ repeat None n |} |}.

Definition play (p : profile) (acts : list action) (st : pool) : pool :=
  fold_left (fun st a => act p a st) acts st.

Definition in_loop (th : thread) : bool :=
  match th with Returned => false | _ => true end.

Definition has_task (th : thread) : bool :=
  match th with Holding _ _ => true | _ => false end.

(** [completed + failed], the number [main] waits on. *)
Definition done (st : pool) : nat :=
  Stats.requests_completed (the_stats (common st))
  + Stats.requests_failed (the_stats (common st)).

End Pool.

(* ================================================================== *)
(** * Recorders of the other scripts *)
(* ================================================================== *)

(** What the network part of one attempt comes to in the scripts that
    do not frame the response: an exception somewhere in the [try], or
    the bytes held in [response] when the reads are over. *)
Inductive io : Type :=
| Raised
| Received (response : Py.bytes).

(** An attempt: what its network part came to, and the latency measured
    for it. *)
Definition attempt : Type := io * Stats.latency.

(** The attempt got a response, possibly empty. *)
Definition returned (a : attempt) : bool :=
  match a with
  | (Received _, _) => true
  | (Raised, _) => false
  end.

(** The attempt got at least one byte. *)
Definition answered (a : attempt) : bool :=
  match a with
  | (Received (_ :: _), _) => true
  | _ => false
  end.

(** The latencies measured for the attempts selected by [f], in order. *)
Definition measured (f : attempt -> bool) (attempts : list attempt)
  : list Stats.latency :=
  map snd (filter f attempts).

(** ** examples/final_benchmark.py: the [stats] dictionary of
    [benchmark_endpoint] *)

Module FinalBenchmark.
Import Py.

Record stats : Type := {
  completed : nat;
  failed : nat;
  latencies : list Stats.latency;
  bytes : nat
}.

Definition initial : stats :=
  {| completed := 0; failed := 0; latencies := []; bytes := 0 |}.

Definition CAPACITY : nat := 10000.

(** The [with lock:] block after a response was read. *)
Definition record_completed (elapsed : Stats.latency) (response : Py.bytes)
    (s : stats) : stats :=
  {| completed := completed s + 1;
     failed := failed s;
     latencies := if length (latencies s) <? CAPACITY
                  then latencies s ++ [elapsed] else latencies s;
     bytes := bytes s + length response |}.

(** The [with lock:] block of the [except]. *)
Definition record_failed (s : stats) : stats :=
  {| completed := completed s; failed := failed s + 1;
     latencies := latencies s; bytes := bytes s |}.

(** One turn of the worker's [for] loop, seen from [stats]. *)
Definition record (a : io * Stats.latency) (s : stats) : stats :=
  match a with
  | (Received response, elapsed) => record_completed elapsed response s
  | (Raised, _) => record_failed s
  end.

End FinalBenchmark.

(** ** tests/realworld/sustained_load.py *)

Module SustainedLoad.
Import Py.

(** [class IntervalStats] *)
Record IntervalStats : Type := {
  completed : nat;
  failed : nat;
  latencies : list Stats.latency;
  bytes_received : nat
}.

Definition init : IntervalStats :=
  {| completed := 0; failed := 0; latencies := []; bytes_received := 0 |}.

Definition record (success : bool) (latency : Stats.latency)
    (bytes_recv : nat) (s : IntervalStats) : IntervalStats :=
  if success then
    {| completed := completed s + 1; failed := failed s;
       latencies := latencies s ++ [latency];
       bytes_received := bytes_received s + bytes_recv |}
  else
    {| completed := completed s; failed := failed s + 1;
       latencies := latencies s; bytes_received := bytes_received s |}.

(** [reset]: the snapshot returned, and the cleared object. *)
Definition reset (s : IntervalStats) : IntervalStats * IntervalStats :=
  (s, init).

(** The arguments the worker passes to [stats.record]; [response] is
    the result of the single [sock.recv(4096)]. *)
Definition worker_record (a : io * Stats.latency)
  : bool * Stats.latency * nat :=
  match a with
  | (Received ((_ :: _) as response), elapsed) =>
      (true, elapsed, length response)
  | (Received [], _) => (false, 0%Z, 0)
  | (Raised, _) => (false, 0%Z, 0)
  end.

Definition worker_turn (a : io * Stats.latency) (s : IntervalStats)
  : IntervalStats :=
  let '(success, latency, bytes_recv) := worker_record a in
  record success latency bytes_recv s.

End SustainedLoad.

(** ** tests/realworld/endpoint_mix.py *)

Module EndpointMix.
Import Py Framer.

Record entry : Type := {
  count : nat;
  latencies : list Stats.latency;
  bytes : nat;
  errors : nat
}.

Definition zero : entry :=
  {| count := 0; latencies := []; bytes := 0; errors := 0 |}.

(** [class EndpointStats]: a [defaultdict] of entries. *)
Definition EndpointStats := str -> entry.

Definition init : EndpointStats := fun _ => zero.

Definition record (endpoint : str) (latency : Stats.latency)
    (bytes_recv : nat) (success : bool) (m : EndpointStats) : EndpointStats :=
  let s := m endpoint in
  let s' :=
    if success then
      {| count := count s + 1; latencies := latencies s ++ [latency];
         bytes := bytes s + bytes_recv; errors := errors s |}
    else
      {| count := count s; latencies := latencies s; bytes := bytes s;
         errors := errors s + 1 |} in
  fun k => if str_eqb endpoint k then s' else m k.

Definition worker_turn (endpoint : str) (a : io * Stats.latency)
    (m : EndpointStats) : EndpointStats :=
  match a with
  | (Received ((_ :: _) as response), latency) =>
      record endpoint latency (length response) true m
  | (Received [], _) => record endpoint 0%Z 0 false m
  | (Raised, _) => record endpoint 0%Z 0 false m
  end.

(** The statistics after the turns [turns], each with its endpoint. *)
Definition after (turns : list (str * attempt)) : EndpointStats :=
  fold_left (fun m x => worker_turn (fst x) (snd x) m) turns init.

End EndpointMix.

(** ** tests/realworld/gradual_stress.py *)

Module GradualStress.
Import Py.

(** [class StressResult], without the two time stamps. *)
Record StressResult : Type := {
  completed : nat;
  failed : nat;
  latencies : list Stats.latency;
  bytes_received : nat
}.

Definition init : StressResult :=
  {| completed := 0; failed := 0; latencies := []; bytes_received := 0 |}.

(** [make_request]: [(success, latency_ms, bytes)]. *)
Definition make_request (a : io * Stats.latency)
  : bool * Stats.latency * nat :=
  match a with
  | (Received response, elapsed) => (true, elapsed, length response)
  | (Raised, _) => (false, 0%Z, 0)
  end.

(** The [with lock:] block of the worker in [stress_test]. *)
Definition worker_turn (a : io * Stats.latency) (r : StressResult)
  : StressResult :=
  let '(success, latency, bytes_recv) := make_request a in
  if success then
    {| completed := completed r + 1; failed := failed r;
       latencies := latencies r ++ [latency];
       bytes_received := bytes_received r + bytes_recv |}
  else
    {| completed := completed r; failed := failed r + 1;
       latencies := latencies r; bytes_received := bytes_received r |}.

End GradualStress.

(** ** tests/realworld/spike_test.py *)

Module SpikeTest.
Import Py.

(** [class Stats]: [self.data], a list of
    [(timestamp, latency, success)]. *)
Definition Stats := list (Z * Stats.latency * bool).

Definition record (now : Z) (latency : Stats.latency) (success : bool)
    (data : Stats) : Stats :=
  data ++ [(now, latency, success)].

Definition get_window (start stop : Z) (data : Stats) : Stats :=
  filter (fun '(t, _, _) => (start <=? t)%Z && (t <=? stop)%Z) data.

(** One turn of [make_request]; [now] is the [time.time()] of the
    [record] call. *)
Definition make_request (now : Z) (a : io * Stats.latency) (data : Stats)
  : Stats :=
  match a with
  | (Received response, latency) =>
      record now latency (0 <? length response) data
  | (Raised, _) => record now 0%Z false data
  end.

(** [self.data] after the turns [turns], each with the time of its
    [record] call. *)
Definition after (turns : list (Z * attempt)) : Stats :=
  fold_left (fun data x => make_request (fst x) (snd x) data) turns [].

(** [latencies = [l for _, l, s in window if s]] of [print_phase_stats]. *)
Definition phase_latencies (window : Stats) : list Stats.latency :=
  map (fun '(_, l, _) => l) (filter (fun '(_, _, s) => s) window).

End SpikeTest.

(* ================================================================== *)
(** * Latency statistics of the reports *)
(* ================================================================== *)

Module Percentile.
Import Py.

(** [sorted(latencies)]: a stable sort. *)
Fixpoint insert (x : Z) (l : list Z) : list Z :=
  match l with
  | [] => [x]
  | y :: l' => if (x <=? y)%Z then x :: l else y :: insert x l'
  end.

Definition sorted (l : list Z) : list Z := fold_right insert [] l.

(** Ascending order, as a property of positions. *)
Definition ascending (l : list Z) : Prop :=
  forall i j x y,
    i <= j -> nth_error l i = Some x -> nth_error l j = Some y -> (x <= y)%Z.

(** [max(l)] and [min(l)]: [ValueError] on an empty sequence. *)
Definition py_max (l : list Z) : result Z :=
  match l with
  | [] => Raise ValueError
  | x :: l' => Ok (fold_left Z.max l' x)
  end.

Definition py_min (l : list Z) : result Z :=
  match l with
  | [] => Raise ValueError
  | x :: l' => Ok (fold_left Z.min l' x)
  end.

(** [l[-1]] *)
Definition last_item (l : list Z) : result Z :=
  match l with
  | [] => Raise IndexError
  | _ => index l (length l - 1)
  end.

(** [int(n * 0.99)], [int(n * 0.95)], [int(n * 0.9)]: the truncated
    product with [hundredths / 100].  The scripts form the product in
    binary64; its rounding error is far below the distance of
    [n * hundredths / 100] from the next integer unless that quotient
    is itself an integer, which the product then rounds to, so for the
    list lengths a run can reach the truncation is the exact one. *)
Definition int_times (n hundredths : nat) : nat := n * hundredths / 100.

(** [statistics.median(data)]; [StatisticsError] is a [ValueError]. *)
Definition median (data : list Z) : result Q :=
  let d := sorted data in
  let n := length d in
  if n =? 0 then Raise ValueError
  else if Nat.odd n then rbind (index d (n / 2)) (fun x => Ok (inject_Z x))
  else rbind (index d (n / 2 - 1)) (fun a =>
       rbind (index d (n / 2)) (fun b =>
       Ok ((inject_Z a + inject_Z b) / 2)%Q)).

(** [statistics.mean(data)] *)
Definition mean (data : list Z) : result Q :=
  match data with
  | [] => Raise ValueError
  | _ => Ok (inject_Z (fold_left Z.add data 0%Z)
             / inject_Z (Z.of_nat (length data)))%Q
  end.

(** examples/final_benchmark.py, [benchmark_endpoint]: [p50] and [p99];
    both are 0 when no latency was stored. *)
Definition final_benchmark_p50 (latencies : list Z) : result Z :=
  match latencies with
  | [] => Ok 0%Z
  | _ => let sorted_lat := sorted latencies in
         index sorted_lat (length sorted_lat / 2)
  end.

Definition final_benchmark_p99 (latencies : list Z) : result Z :=
  match latencies with
  | [] => Ok 0%Z
  | _ => let sorted_lat := sorted latencies in
         if 100 <=? length sorted_lat
         then index sorted_lat (int_times (length sorted_lat) 99)
         else py_max sorted_lat
  end.

(** tests/realworld/sustained_load.py, spike_test.py and
    endpoint_mix.py, under [if latencies:]. *)
Definition interval_p50 (latencies : list Z) : result Q :=
  median (sorted latencies).

Definition interval_p99 (latencies : list Z) : result Z :=
  let sorted_lats := sorted latencies in
  if 100 <? length sorted_lats
  then index sorted_lats (int_times (length sorted_lats) 99)
  else last_item sorted_lats.

(** The [P95] and [P99] lines of the final report of sustained_load.py,
    under [if all_latencies:]. *)
Definition final_percentile (hundredths : nat) (all_latencies : list Z)
  : result Z :=
  let sorted_lats := sorted all_latencies in
  index sorted_lats (int_times (length sorted_lats) hundredths).

(** tests/realworld/gradual_stress.py, [StressResult.latency_stats]:
    the entry [sorted_lats[int(n * q)] if n > bound else sorted_lats[-1]]. *)
Definition guarded_percentile (hundredths bound : nat) (latencies : list Z)
  : result Z :=
  let sorted_lats := sorted latencies in
  let n := length sorted_lats in
  if bound <? n then index sorted_lats (int_times n hundredths)
  else last_item sorted_lats.

Definition gradual_p90 := guarded_percentile 90 10.
Definition gradual_p95 := guarded_percentile 95 20.
Definition gradual_p99 := guarded_percentile 99 100.

(** The percentile as the design document words it: sort ascending,
    index [floor(p * n)] clamped to [[0, n-1]]. *)
Definition nearest_rank_index (p : Q) (n : nat) : nat :=
  Z.to_nat (Z.max 0 (Z.min (Z.of_nat n - 1)
                       (Qfloor (p * inject_Z (Z.of_nat n))))).

Definition nearest_rank (p : Q) (samples : list Z) : result Z :=
  index (sorted samples) (nearest_rank_index p (length samples)).

End Percentile.

(* ================================================================== *)
(** * Final reports and exit codes *)
(* ================================================================== *)

Module Report.
Import Py.

(** How the interpreter leaves [main]. *)
Inductive termination : Type :=
| Returned
| SysExit (code : Z)
| Uncaught (e : exn).


(** A [print] statement: fixed text, or text around one computed value.
    The value is computed before anything is written, so a statement
    whose value raises prints nothing. *)
Inductive statement : Type :=
| Text (s : string)
| Value (label : string) (v : result Q).

Inductive line : Type :=
| Printed (s : string)
| PrintedValue (label : string) (v : Q).

(** Run the statements in order up to the first that raises. *)
Fixpoint emit (stmts : list statement) : list line * result unit :=
  match stmts with
  | [] => ([], Ok tt)
  | Text s :: rest =>
      let (out, r) := emit rest in (Printed s :: out, r)
  | Value label (Ok v) :: rest =>
      let (out, r) := emit rest in (PrintedValue label v :: out, r)
  | Value _ (Raise e) :: _ => ([], Raise e)
  end.

(** The statement prints, rather than raises. *)
Definition prints (st : statement) : bool :=
  match st with
  | Value _ (Raise _) => false
  | _ => true
  end.

(** [a / b] *)
Definition div (a b : Q) : result Q :=
  if Qeq_bool b 0 then Raise ZeroDivisionError else Ok (a / b)%Q.

Definition nat_q (n : nat) : Q := inject_Z (Z.of_nat n).

Definition after (r : result unit) : termination :=
  match r with
  | Ok _ => Returned
  | Raise e => Uncaught e
  end.

Definition lift (r : result Z) : result Q := rbind r (fun z => Ok (inject_Z z)).

(** ** tests/realworld/sustained_load.py *)

(** The final report of [run_sustained_test]. *)
Definition sustained_final_report (total_completed total_failed total_bytes : nat)
    (elapsed : Q) (all_latencies : list Z) : list line * result unit :=
  emit
    ([Text "FINAL REPORT";
      Value "Duration" (Ok elapsed);
      Value "Total Requests" (Ok (nat_q total_completed));
      Value "Failed" (Ok (nat_q total_failed));
      Value "Success Rate"
        (div (100 * nat_q total_completed)
             (nat_q (total_completed + total_failed)));
      Value "Avg Throughput" (div (nat_q total_completed) elapsed);
      Value "Data Received" (Ok (nat_q total_bytes))]
     ++ match all_latencies with
        | [] => []
        | _ =>
            let sorted_lats := Percentile.sorted all_latencies in
            [Text "Latency Distribution:";
             Value "Min" (lift (Percentile.py_min sorted_lats));
             Value "Mean" (Percentile.mean sorted_lats);
             Value "Median" (Percentile.median sorted_lats);
             Value "P95" (lift (Percentile.final_percentile 95 all_latencies));
             Value "P99" (lift (Percentile.final_percentile 99 all_latencies));
             Value "Max" (lift (Percentile.py_max sorted_lats))]
        end
     ++ [Text "======"]).


(** ** tests/realworld/spike_test.py *)

(** The lines after the three phases in [run_spike_test]; [all_data]
    is [stats.get_window(test_start, time.time())]. *)
Definition spike_overall (all_data : SpikeTest.Stats) : list line * result unit :=
  let total_success := length (filter (fun '(_, _, s) => s) all_data) in
  let total_fail := length all_data - total_success in
  emit [Value "Total Requests" (Ok (nat_q (length all_data)));
        Value "Success" (Ok (nat_q total_success));
        Value "Failed" (Ok (nat_q total_fail));
        Value "Overall Success Rate"
          (div (100 * nat_q total_success) (nat_q (length all_data)));
        Text "======"].

(** ** examples/bomb_test.py *)

(** The result lines of [main]. *)
Definition bomb_results (completed failed bytes : nat) (elapsed : Q)
  : list line * result unit :=
  emit [Text "BOMB TEST RESULTS";
        Value "Duration" (Ok elapsed);
        Value "Completed" (Ok (nat_q completed));
        Value "Failed" (Ok (nat_q failed));
        Value "Success Rate"
          (rbind (div (nat_q completed) (nat_q (completed + failed)))
                 (fun r => Ok (r * 100)%Q));
        Value "Throughput" (div (nat_q completed) elapsed);
        Value "Data" (Ok (nat_q bytes / 1024 / 1024)%Q);
        Text "======"].


(** ** examples/stress_test.py *)




End Report.

(* ================================================================== *)
(** * The workload plan *)
(* ================================================================== *)

Module Workload.
Import Py Framer.

(** [WEIGHTED_ENDPOINTS], built by
    [for endpoint, weight in ENDPOINTS: WEIGHTED_ENDPOINTS.extend([endpoint] * weight)]. *)
Definition weighted (ENDPOINTS : list (str * nat)) : list str :=
  fold_left (fun acc entry => acc ++ repeat (fst entry) (snd entry))
            ENDPOINTS [].

(** The [ENDPOINTS] tables. *)
Definition stress_test_ENDPOINTS : list (str * nat) :=
  [(of_string "/", 30); (of_string "/small", 25); (of_string "/medium", 20);
   (of_string "/large", 15); (of_string "/huge", 5); (of_string "/json", 3);
   (of_string "/compute", 1); (of_string "/headers", 1)].

Definition extreme_stress_ENDPOINTS : list (str * nat) :=
  [(of_string "/", 10); (of_string "/small", 15); (of_string "/medium", 25);
   (of_string "/large", 30); (of_string "/huge", 15); (of_string "/json", 5)].

Definition ultra_stress_ENDPOINTS : list (str * nat) :=
  [(of_string "/huge", 40); (of_string "/large", 30);
   (of_string "/medium", 20); (of_string "/small", 10)].

Definition endpoint_mix_ENDPOINTS : list (str * nat) :=
  [(of_string "/", 40); (of_string "/json", 25); (of_string "/small", 15);
   (of_string "/echo/test123", 10); (of_string "/medium", 5);
   (of_string "/compute", 3); (of_string "/large", 2)].

(** The weight a table gives to an endpoint, all its entries taken
    together. *)
Definition weight_of (e : str) (ENDPOINTS : list (str * nat)) : nat :=
  fold_right (fun entry acc =>
                if str_eqb e (fst entry) then snd entry + acc else acc)
             0 ENDPOINTS.

Definition total_weight (ENDPOINTS : list (str * nat)) : nat :=
  fold_right (fun entry acc => snd entry + acc) 0 ENDPOINTS.

(** How often an endpoint occurs in a list of endpoints. *)
Definition occurrences (e : str) (l : list str) : nat :=
  length (filter (str_eqb e) l).

End Workload.

(* ================================================================== *)
(** * The reporting loop of sustained_load.py *)
(* ================================================================== *)

Module SustainedLoop.
Import Py SustainedLoad.

(** The accumulators of [run_sustained_test]. *)
Record totals : Type := {
  total_completed : nat;
  total_failed : nat;
  total_bytes : nat;
  all_latencies : list Stats.latency
}.

Definition zero : totals :=
  {| total_completed := 0; total_failed := 0; total_bytes := 0;
     all_latencies := [] |}.

(** What happens to the [IntervalStats] object, in the order its lock
    admits it: the [stats.record] of a worker's turn, or the
    [stats.reset()] of the reporting loop, with the additions to the
    accumulators that follow it. *)
Inductive op : Type :=
| Recorded (a : attempt)
| Interval.

Definition observe (o : op) (st : IntervalStats * totals)
  : IntervalStats * totals :=
  match o with
  | Recorded a => (worker_turn a (fst st), snd st)
  | Interval =>
      let (interval_stats, cleared) := reset (fst st) in
      (cleared,
       {| total_completed :=
            total_completed (snd st) + completed interval_stats;
          total_failed := total_failed (snd st) + failed interval_stats;
          total_bytes := total_bytes (snd st) + bytes_received interval_stats;
          all_latencies :=
            all_latencies (snd st) ++ latencies interval_stats |})
  end.

Definition after (ops : list op) : IntervalStats * totals :=
  fold_left (fun st o => observe o st) ops (init, zero).

(** The attempts recorded among [ops], in order. *)
Definition attempts_of (ops : list op) : list attempt :=
  flat_map (fun o => match o with Recorded a => [a] | Interval => [] end) ops.

(** The bytes of the responses of [attempts]. *)
Definition bytes_of (attempts : list attempt) : nat :=
  fold_right (fun a n => match a with
                         | (Received response, _) => length response + n
                         | (Raised, _) => n
                         end) 0 attempts.

End SustainedLoop.

(* ================================================================== *)
(** * The read loops of the scripts without [parse_response] *)
(* ================================================================== *)

Module Reads.
Import Py Net Framer.

(** ** gradual_stress.py and spike_test.py: read until the peer closes *)

(** [while True: chunk = sock.recv(bufsize); if not chunk: break;
    response += chunk] *)
Fixpoint read_to_close (bufsize : Z) (fuel : nat) (response : bytes)
    (s : socket) : option (result bytes * socket) :=
  match fuel with
  | O => None
  | S fuel' =>
      match recv bufsize s with
      | (Raise e, s') => Some (Raise e, s')
      | (Ok [], s') => Some (Ok response, s')
      | (Ok chunk, s') => read_to_close bufsize fuel' (response ++ chunk) s'
      end
  end.

(** A turn that goes on has taken a byte off the socket, so the fuel
    given here is never used up ([read_to_close_enough]). *)
Definition read_until_close (bufsize : Z) (s : socket)
  : result bytes * socket :=
  match read_to_close bufsize (S (sock_size s)) [] s with
  | Some r => r
  | None => (Raise Exception, s)
  end.

(** The [try] of [make_request]: [connected] is the receiving side once
    [sock.connect] has returned, [None] when the socket cannot be made
    or connected; [sent] tells whether [sock.sendall] returns. *)
Definition request_io (bufsize : Z) (connected : option socket) (sent : bool)
  : io :=
  match connected with
  | Some s =>
      if sent then
        match fst (read_until_close bufsize s) with
        | Ok response => Received response
        | Raise _ => Raised
        end
      else Raised
  | None => Raised
  end.

Definition gradual_stress_io : option socket -> bool -> io := request_io 8192.
Definition spike_test_io : option socket -> bool -> io := request_io 4096.

(** ** final_benchmark.py and memory_stress.py: the inline loop *)

(** [for line in header.split("\r\n"): if
    line.lower().startswith("content-length:"): content_length =
    int(line.split(":")[1]); break], from [content_length = None]. *)
Fixpoint find_content_length (lines : list str) : result (option Z) :=
  match lines with
  | [] => Ok None
  | line :: rest =>
      if starts_with Ascii.eqb (of_string "content-length:") (lower line)
      then rbind (index (split [":"%char] line) 1)
                 (fun v => rbind (int v) (fun n => Ok (Some n)))
      else find_content_length rest
  end.

(** The [while True] loop after [sock.sendall(request)]; the result is
    [response] when the loop is left by one of its two [break]s. *)
Fixpoint read_framed (fuel : nat) (response : bytes)
    (content_length : option Z) (s : socket)
  : option (result bytes * socket) :=
  match fuel with
  | O => None
  | S fuel' =>
      match recv (1024 * 1024) s with
      | (Raise e, s') => Some (Raise e, s')
      | (Ok [], s') => Some (Ok response, s')
      | (Ok chunk, s') =>
          let response := response ++ chunk in
          let scanned :=
            match content_length with
            | None =>
                if contains Byte.eqb CRLF2 response then
                  let header_end := find_blank_line response in
                  let header := decode (slice_to response header_end) in
                  find_content_length (split CRLF header)
                else Ok None
            | Some n => Ok (Some n)
            end in
          match scanned with
          | Raise e => Some (Raise e, s')
          | Ok (Some n) =>
              let body_start := (find_blank_line response + 4)%Z in
              if (n <=? len response - body_start)%Z
              then Some (Ok response, s')
              else read_framed fuel' response (Some n) s'
          | Ok None => read_framed fuel' response None s'
          end
      end
  end.

Definition read_inline (s : socket) : result bytes * socket :=
  match read_framed (S (sock_size s)) [] None s with
  | Some r => r
  | None => (Raise Exception, s)
  end.

(** ** bomb_test.py *)

(** [header.decode()]: strict.  Bytes below 0x80 decode to themselves
    and any other byte is taken to raise [UnicodeDecodeError], a
    [ValueError]; this is exact for every header block without a
    well-formed multi-byte sequence. *)
Definition decode_strict (b : bytes) : result str :=
  if forallb is_ascii7 b then Ok (map ascii_of_byte b) else Raise ValueError.

(** [while len(response) - body_start < cl], inside the [try] whose
    [except: pass] swallows what a read raises. *)
Fixpoint read_rest (fuel : nat) (response : bytes) (body_start cl : Z)
    (s : socket) : option (bytes * socket) :=
  match fuel with
  | O => None
  | S fuel' =>
      if (len response - body_start <? cl)%Z then
        match recv 65536 s with
        | (Raise _, s') => Some (response, s')
        | (Ok [], s') => Some (response, s')
        | (Ok more, s') =>
            read_rest fuel' (response ++ more) body_start cl s'
        end
      else Some (response, s)
  end.

(** The loop under [# Read response]: a read of the outer loop that
    raises leaves the [try] of the worker; everything after the blank
    line has been seen ends in the [break]. *)
Fixpoint read_bomb (fuel : nat) (response : bytes) (s : socket)
  : option (result bytes * socket) :=
  match fuel with
  | O => None
  | S fuel' =>
      match recv 65536 s with
      | (Raise e, s') => Some (Raise e, s')
      | (Ok [], s') => Some (Ok response, s')
      | (Ok chunk, s') =>
          let response := response ++ chunk in
          match find Byte.eqb CRLF2 response with
          | Some header_end =>
              match decode_strict (firstn header_end response) with
              | Raise _ => Some (Ok response, s')
              | Ok header =>
                  match find_content_length (split CRLF header) with
                  | Raise _ => Some (Ok response, s')
                  | Ok None => Some (Ok response, s')
                  | Ok (Some cl) =>
                      let body_start := (Z.of_nat header_end + 4)%Z in
                      match read_rest fuel response body_start cl s' with
                      | None => None
                      | Some (response', s2) => Some (Ok response', s2)
                      end
                  end
              end
          | None => read_bomb fuel' response s'
          end
      end
  end.

Definition read_bomb_response (s : socket) : result bytes * socket :=
  match read_bomb (S (sock_size s)) [] s with
  | Some r => r
  | None => (Raise Exception, s)
  end.

(** What an outcome of a read loop is to the recorders. *)
Definition io_of (r : result bytes) : io :=
  match r with
  | Ok response => Received response
  | Raise _ => Raised
  end.

End Reads.

(* ================================================================== *)
(** * The requests of extreme_stress.py and ultra_stress.py *)
(* ================================================================== *)

Module Request.
Import Py Net Framer Worker Scripts.

(** The string [req] of [create_request(endpoint, keep_alive=True,
    body=body)] at its [return]. *)
Definition request_text (t : task) : str :=
  let head (method : string) :=
    of_string method ++ of_string " " ++ endpoint t
      ++ of_string " HTTP/1.1" ++ CRLF
      ++ of_string "Host: localhost:" ++ PORT ++ CRLF
      ++ of_string "Connection: keep-alive" ++ CRLF in
  match body t with
  | Some ((_ :: _) as b) =>
      head "POST"%string
        ++ of_string "Content-Length: " ++ decimal (length b) ++ CRLF
        ++ of_string "Content-Type: application/octet-stream" ++ CRLF
        ++ CRLF
  | _ => head "GET"%string ++ CRLF
  end.

(** The bytes that follow the encoded [req]: the body, if there is one. *)
Definition sent_body (t : task) : bytes :=
  match body t with
  | Some b => b
  | None => []
  end.

End Request.

(* ================================================================== *)
(** * A run of endpoint_mix.py *)
(* ================================================================== *)

Module EndpointMixRun.
Import Py Framer EndpointMix Report.






(** The lines under [# Summary] of [run_endpoint_test]. *)
Definition summary (total_reqs total_errs total_bytes : nat) (elapsed : Q)
  : list line * result unit :=
  emit [Value "Throughput" (div (nat_q total_reqs) elapsed);
        Value "Bandwidth"
          (rbind (div (nat_q total_bytes) elapsed)
                 (fun x => Ok (x / 1024 / 1024)%Q));
        Value "Error Rate"
          (div (100 * nat_q total_errs) (nat_q (total_reqs + total_errs)));
        Text "======"].

End EndpointMixRun.

(* ================================================================== *)
(** * The summary of final_benchmark.py *)
(* ================================================================== *)

Module FinalBenchmarkReport.
Import Py Report.

(** The dictionary [benchmark_endpoint] returns, without the name. *)
Record outcome : Type := {
  completed : nat;
  failed : nat;
  rps : Q;
  bytes : nat;
  avg_lat : Q;
  p50 : Z;
  p99 : Z
}.

(** [benchmark_endpoint], from the joining of the threads on:
    [attempts] are the attempts of its workers in the order the lock
    admits their records, [elapsed] the duration measured. *)
Definition benchmark_endpoint (attempts : list attempt) (elapsed : Q)
  : result outcome :=
  let stats := fold_left (fun s a => FinalBenchmark.record a s) attempts
                 FinalBenchmark.initial in
  let rps := if Qle_bool elapsed 0 then 0%Q
             else (nat_q (FinalBenchmark.completed stats) / elapsed)%Q in
  let latencies := FinalBenchmark.latencies stats in
  rbind (match latencies with
         | [] => Ok 0%Q
         | _ => Percentile.mean latencies
         end) (fun avg_lat =>
  rbind (Percentile.final_benchmark_p50 latencies) (fun p50 =>
  rbind (Percentile.final_benchmark_p99 latencies) (fun p99 =>
  Ok {| completed := FinalBenchmark.completed stats;
        failed := FinalBenchmark.failed stats;
        rps := rps;
        bytes := FinalBenchmark.bytes stats;
        avg_lat := avg_lat;
        p50 := p50;
        p99 := p99 |}))).

(** [max] and [min] of a sequence of numbers: [ValueError] for an empty
    one; of equal items the first is kept. *)
Definition max_of (l : list Q) : result Q :=
  match l with
  | [] => Raise ValueError
  | x :: l' => Ok (fold_left (fun m y => if Qle_bool y m then m else y) l' x)
  end.

Definition min_of (l : list Q) : result Q :=
  match l with
  | [] => Raise ValueError
  | x :: l' => Ok (fold_left (fun m y => if Qle_bool m y then m else y) l' x)
  end.

(** The summary of [main]: the four values are computed after the
    heading is printed and before any of them is. *)
Definition summary (results : list outcome) : list line * result unit :=
  let total_requests := fold_right (fun r n => completed r + n) 0 results in
  let total_bytes := fold_right (fun r n => bytes r + n) 0 results in
  match max_of (map rps results) with
  | Raise e => ([Printed "SUMMARY"], Raise e)
  | Ok max_rps =>
      match min_of (filter (fun x => negb (Qle_bool x 0))
                      (map avg_lat results)) with
      | Raise e => ([Printed "SUMMARY"], Raise e)
      | Ok min_avg_lat =>
          let (out, r) :=
            emit [Value "Total Requests Processed"
                    (Ok (nat_q total_requests));
                  Value "Total Data Transferred"
                    (Ok (nat_q total_bytes / 1024 / 1024 / 1024)%Q);
                  Value "Peak Throughput" (Ok max_rps);
                  Value "Best Average Latency" (Ok min_avg_lat);
                  Text "Server Memory:"] in
          (Printed "SUMMARY" :: out, r)
      end
  end.

End FinalBenchmarkReport.

(* ================================================================== *)
(** * Sample streams *)
(* ================================================================== *)

Module Samples.
Import Py Net Framer.

Definition b (s : string) : bytes := encode (of_string s).
Definition crlf : bytes := encode CRLF.

(** A response head with a five-byte body declared. *)
Definition head_5 : bytes :=
  b "HTTP/1.1 200 OK" ++ crlf ++ b "Content-Length: 5" ++ crlf
    ++ b "X-Server: aurora".

(** The same without a [Content-Length] line. *)
Definition head_none : bytes :=
  b "HTTP/1.1 404 Not Found" ++ crlf ++ b "X-Server: aurora".


Definition response_5 : bytes := head_5 ++ CRLF2 ++ b "hello".

(** A stream that delivers [segs] and then times out. *)
Definition stream (segs : list bytes) : socket :=
  {| pending := segs; at_end := RecvRaises SocketTimeout |}.

(** A peer that delivers [segs] and closes. *)
Definition closing (segs : list bytes) : socket :=
  {| pending := segs; at_end := PeerClosed |}.


(** [response_5] with the last three bytes of the body never sent. *)
Definition truncated_5 : list bytes :=
  [firstn (length response_5 - 3) response_5].

(** A GET for [/small], and a turn of the worker loop that takes it
    off the queue, connects to a peer delivering [rx] and sends. *)
Definition get_small : Worker.task :=
  {| Worker.endpoint := of_string "/small"; Worker.body := None |}.

Definition turn (rx : option socket) (sent : bool) : Worker.env :=
  {| Worker.running := true;
     Worker.dequeued := Worker.Item (Some get_small);
     Worker.socket_created := true;
     Worker.connected := rx;
     Worker.sent := sent;
     Worker.elapsed := 7%Z |}.

End Samples.

(* ================================================================== *)
(** * Properties of the primitives *)
(* ================================================================== *)

Module PyFacts.
Import Py.

Section Search.
Variable A : Type.
Variable eqb : A -> A -> bool.

Lemma starts_with_length (p s : list A) :
  starts_with eqb p s = true -> length p <= length s.
Proof.
  revert s; induction p as [|a p IH]; intros [|b s]; simpl; intros H;
    try lia; try discriminate.
  apply andb_true_iff in H as [_ H]. apply IH in H. lia.
Qed.

Lemma starts_with_app (p s t : list A) :
  length p <= length s -> starts_with eqb p (s ++ t) = starts_with eqb p s.
Proof.
  revert s; induction p as [|a p IH]; intros [|b s]; simpl; intros H;
    try reflexivity; try lia.
  rewrite IH by lia. reflexivity.
Qed.

Lemma find_bound (sub s : list A) (i : nat) :
  find eqb sub s = Some i -> i + length sub <= length s.
Proof.
  revert i; induction s as [|b s IH]; intros i; simpl.
  - destruct (starts_with eqb sub []) eqn:E; [|discriminate].
    intros [= <-]. apply starts_with_length in E. simpl in *. lia.
  - destruct (starts_with eqb sub (b :: s)) eqn:E.
    + intros [= <-]. apply starts_with_length in E. simpl in *. lia.
    + destruct (find eqb sub s) as [j|]; simpl; [|discriminate].
      intros [= <-]. specialize (IH j eq_refl). lia.
Qed.

Lemma find_app (sub s t : list A) (i : nat) :
  find eqb sub s = Some i -> find eqb sub (s ++ t) = Some i.
Proof.
  revert i; induction s as [|b s IH]; intros i H.
  - simpl in H. destruct (starts_with eqb sub []) eqn:E; [|discriminate].
    injection H as <-.
    destruct sub; [|discriminate E]. destruct t; reflexivity.
  - pose proof (find_bound _ _ H) as Hb.
    simpl in H. change ((b :: s) ++ t) with (b :: (s ++ t)).
    simpl. destruct (starts_with eqb sub (b :: s)) eqn:E.
    + injection H as <-.
      change (b :: s ++ t) with ((b :: s) ++ t).
      rewrite starts_with_app, E; [reflexivity|].
      apply starts_with_length in E. exact E.
    + destruct (find eqb sub s) as [j|] eqn:F; simpl in H; [|discriminate].
      injection H as <-.
      change (b :: s ++ t) with ((b :: s) ++ t).
      rewrite starts_with_app, E by (simpl in *; lia).
      rewrite (IH j eq_refl). reflexivity.
Qed.


End Search.

End PyFacts.

Module NetFacts.
Import Py Net.

Lemma recv_ok (n : Z) (s s' : socket) (chunk : bytes) :
  recv n s = (Ok chunk, s') ->
  concat (pending s) = chunk ++ concat (pending s') /\ at_end s' = at_end s.
Proof.
  unfold recv. destruct (pending s) as [|seg rest] eqn:P.
  - destruct (at_end s) eqn:E; [|discriminate].
    intros [= <- <-]. rewrite P, E. split; reflexivity.
  - intros [= <- <-]. simpl. split; [|reflexivity].
    rewrite <- (firstn_skipn (Z.to_nat n) seg) at 1.
    destruct (skipn (Z.to_nat n) seg); simpl.
    + rewrite app_nil_r. reflexivity.
    + rewrite <- app_assoc. reflexivity.
Qed.

Lemma recv_raise (n : Z) (s s' : socket) (e : exn) :
  recv n s = (Raise e, s') ->
  s' = s /\ pending s = [] /\ at_end s = RecvRaises e.
Proof.
  unfold recv. destruct (pending s) as [|seg rest]; [|discriminate].
  destruct (at_end s) eqn:E; [discriminate|]. intros [= <- <-]. auto.
Qed.

Lemma recv_size (n : Z) (s s' : socket) (chunk : bytes) :
  recv n s = (Ok chunk, s') -> sock_size s = length chunk + sock_size s'.
Proof.
  intros H. apply recv_ok in H as [H _]. unfold sock_size.
  rewrite H, length_app. reflexivity.
Qed.

Lemma recv_well_formed (n : Z) (s s' : socket) (r : result bytes) :
  well_formed s -> recv n s = (r, s') -> well_formed s'.
Proof.
  unfold well_formed, recv. intros W.
  destruct (pending s) as [|seg rest] eqn:P.
  - destruct (at_end s); intros [= <- <-]; rewrite P; constructor.
  - intros [= <- <-]. simpl. inversion W; subst.
    destruct (skipn (Z.to_nat n) seg) eqn:K; [assumption|].
    constructor; [discriminate|assumption].
Qed.

(** A read of at least one byte on a stream with bytes in flight
    returns at least one byte. *)
Lemma recv_some (n : Z) (s s' : socket) (chunk : bytes) :
  well_formed s -> (0 < n)%Z -> pending s <> [] ->
  recv n s = (Ok chunk, s') -> chunk <> [].
Proof.
  unfold well_formed, recv. intros W Hn P.
  destruct (pending s) as [|seg rest]; [congruence|].
  intros [= <- <-]. inversion W; subst.
  destruct seg; [congruence|].
  destruct (Z.to_nat n) eqn:E; [lia|]. simpl. discriminate.
Qed.

(** With nothing in flight a read meets the end of the stream. *)
Lemma recv_at_end (n : Z) (s : socket) :
  pending s = [] ->
  recv n s = match at_end s with
             | PeerClosed => (Ok [], s)
             | RecvRaises e => (Raise e, s)
             end.
Proof. unfold recv. intros ->. reflexivity. Qed.

End NetFacts.

(* ================================================================== *)
(** * The framer *)
(* ================================================================== *)

Module FramerFacts.
Import Py Net Framer PyFacts NetFacts.


Lemma socket_eta (s : socket) (fin : sock_end) :
  pending s = [] -> at_end s = fin -> s = {| pending := []; at_end := fin |}.
Proof. destruct s; simpl; intros -> ->; reflexivity. Qed.

Lemma CRLF2_length : length CRLF2 = 4.
Proof. reflexivity. Qed.

(** Where the blank line is, once the bytes read so far hold one: at
    the end of the header block, whatever was read beyond it. *)
Lemma header_located (response rest hdr body : bytes) :
  response ++ rest = hdr ++ CRLF2 ++ body ->
  find Byte.eqb CRLF2 (hdr ++ CRLF2) = Some (length hdr) ->
  contains Byte.eqb CRLF2 response = true ->
  find_blank_line response = Z.of_nat (length hdr)
  /\ slice_to response (Z.of_nat (length hdr)) = hdr
  /\ (len response - (Z.of_nat (length hdr) + 4) + len rest = len body)%Z
  /\ (0 <= len response - (Z.of_nat (length hdr) + 4))%Z.
Proof.
  intros Hfull Hfirst Hin.
  unfold contains in Hin.
  destruct (find Byte.eqb CRLF2 response) as [j|] eqn:F; [|discriminate].
  pose proof (find_app Byte.eqb CRLF2 response rest F) as F1.
  pose proof (find_app Byte.eqb CRLF2 (hdr ++ CRLF2) body Hfirst) as F2.
  rewrite <- app_assoc, <- Hfull, F1 in F2. injection F2 as ->.
  pose proof (find_bound _ _ _ F) as Hb. rewrite CRLF2_length in Hb.
  assert (Hlen : length response + length rest
                 = length hdr + 4 + length body).
  { apply (f_equal (@length byte)) in Hfull.
    rewrite !length_app, CRLF2_length in Hfull. lia. }
  repeat split.
  - unfold find_blank_line. rewrite F. reflexivity.
  - unfold slice_to.
    destruct (Z.of_nat (length hdr) <? 0)%Z eqn:E;
      [apply Z.ltb_lt in E; lia|].
    rewrite Nat2Z.id.
    assert (firstn (length hdr) (response ++ rest) = hdr) as Hf.
    { rewrite Hfull. rewrite firstn_app, Nat.sub_diag, firstn_all.
      simpl. apply app_nil_r. }
    rewrite firstn_app in Hf.
    replace (length hdr - length response) with 0 in Hf by lia.
    simpl in Hf. rewrite app_nil_r in Hf. exact Hf.
  - unfold len. lia.
  - unfold len. lia.
Qed.

(** ** The body loop *)

(** The loop always comes to an end: a turn that goes on has taken at
    least one byte off the socket. *)
Lemma read_body_enough (bufsize : Z) (fuel : nat) :
  forall (cl br : Z) (s : socket),
    sock_size s < fuel ->
    exists r, read_body bufsize fuel cl br s = Some r.
Proof.
  induction fuel as [|fuel IH]; intros cl br s Hf; [lia|].
  cbn [read_body]. destruct (br <? cl)%Z; [|eauto].
  destruct (recv (Z.min (cl - br) bufsize) s) as [[chunk|e] s'] eqn:R;
    [|eauto].
  destruct chunk as [|b chunk]; [eauto|].
  apply IH. apply recv_size in R. simpl in R. lia.
Qed.

(** What the loop returns is what it started from plus the bytes it
    took off the socket, and it never reads past [content_length]. *)
Lemma read_body_counts (bufsize : Z) (fuel : nat) :
  forall (cl br br' : Z) (s s' : socket),
    read_body bufsize fuel cl br s = Some (Ok br', s') ->
    (br' = br + Z.of_nat (sock_size s) - Z.of_nat (sock_size s'))%Z
    /\ (br <= cl -> br' <= cl)%Z
    /\ at_end s' = at_end s.
Proof.
  induction fuel as [|fuel IH]; intros cl br br' s s'; [discriminate|].
  cbn [read_body]. destruct (br <? cl)%Z eqn:E.
  - destruct (recv (Z.min (cl - br) bufsize) s) as [[chunk|e] s1] eqn:R;
      [|discriminate].
    pose proof (recv_size _ _ R) as Hs.
    pose proof (recv_ok _ _ R) as [_ He].
    destruct chunk as [|b chunk].
    + intros [= <- <-]. simpl in Hs. split; [lia|split; [lia|exact He]].
    + intros H. apply IH in H as (H1 & H2 & H3).
      apply Z.ltb_lt in E.
      assert (len (b :: chunk) <= Z.min (cl - br) bufsize)%Z as Hc.
      { unfold recv in R. destruct (pending s) as [|seg rest].
        - destruct (at_end s); discriminate.
        - injection R as R _. apply (f_equal (@length byte)) in R.
          rewrite length_firstn in R. unfold len. simpl length in *. lia. }
      unfold len in *. simpl length in *. split; [lia|split; [lia|congruence]].
  - intros [= <- <-]. apply Z.ltb_ge in E. split; [lia|split; [lia|reflexivity]].
Qed.




(** ** stress_test.py *)

Lemma read_headers_enough (fuel : nat) :
  forall (response : bytes) (s : socket),
    sock_size s < fuel ->
    exists r, StressTest.read_headers fuel response s = Some r.
Proof.
  induction fuel as [|fuel IH]; intros response s Hf; [lia|].
  cbn [StressTest.read_headers].
  destruct (recv 4096 s) as [[chunk|e] s'] eqn:R; [|eauto].
  destruct chunk as [|b chunk]; [eauto|].
  destruct (contains Byte.eqb CRLF2 (response ++ b :: chunk)); [eauto|].
  apply IH. apply recv_size in R. simpl in R. lia.
Qed.

(** The header loop only hands on bytes it has read, and leaves the
    rest in flight. *)
Lemma read_headers_sound (fuel : nat) :
  forall (response response' : bytes) (s s' : socket),
    StressTest.read_headers fuel response s = Some (Ok (Some response'), s') ->
    response ++ concat (pending s) = response' ++ concat (pending s')
    /\ contains Byte.eqb CRLF2 response' = true
    /\ at_end s' = at_end s
    /\ sock_size s' <= sock_size s
    /\ (well_formed s -> well_formed s').
Proof.
  induction fuel as [|fuel IH]; intros response response' s s'; [discriminate|].
  cbn [StressTest.read_headers].
  destruct (recv 4096 s) as [[chunk|e] s1] eqn:R; [|discriminate].
  destruct chunk as [|b chunk]; [discriminate|].
  pose proof (recv_ok _ _ R) as [Hc He].
  pose proof (recv_size _ _ R) as Hs.
  destruct (contains Byte.eqb CRLF2 (response ++ b :: chunk)) eqn:C.
  - intros [= <- <-]. rewrite Hc, app_assoc.
    split; [reflexivity|]. split; [exact C|]. split; [exact He|].
    split; [lia|]. intros W. exact (recv_well_formed _ W R).
  - intros H. apply IH in H as (H1 & H2 & H3 & H4 & H5).
    rewrite Hc, app_assoc, H1.
    split; [reflexivity|]. split; [exact H2|]. split; [congruence|].
    split; [lia|]. intros W. apply H5. exact (recv_well_formed _ W R).
Qed.


Lemma parse_response_fuel_enough (s : socket) (fuel : nat) :
  sock_size s < fuel ->
  exists r, StressTest.parse_response_fuel fuel s = Some r.
Proof.
  intros Hf. unfold StressTest.parse_response_fuel.
  destruct (read_headers_enough [] s Hf) as [[[[response|]|e] s1] H];
    rewrite H; [|eauto|eauto].
  destruct (StressTest.parse_header_block _) as [[[st hs] cl]|e]; [|eauto].
  apply read_headers_sound in H as (_ & _ & _ & Hs & _).
  assert (sock_size s1 < fuel) as Hf1 by lia.
  destruct (read_body_enough 65536 cl
              (len response - (find_blank_line response + 4)) s1 Hf1)
    as [[[br|e] s2] Hb];
    rewrite Hb; eauto.
Qed.



(** ** extreme_stress.py, ultra_stress.py *)

Lemma extreme_fuel_enough (bufsize : Z) (fuel : nat) :
  forall (response : bytes) (s : socket),
    sock_size s < fuel ->
    exists r, Extreme.read_response bufsize fuel response s = Some r.
Proof.
  induction fuel as [|fuel IH]; intros response s Hf; [lia|].
  cbn [Extreme.read_response].
  destruct (recv bufsize s) as [[chunk|e] s'] eqn:R; [|eauto].
  destruct chunk as [|b chunk]; [eauto|].
  pose proof (recv_size _ _ R) as Hs. simpl in Hs.
  destruct (contains Byte.eqb CRLF2 (response ++ b :: chunk));
    [|apply IH; lia].
  destruct (Extreme.scan_content_length _) as [cl|e]; [|eauto].
  assert (sock_size s' < S fuel) as Hf1 by lia.
  destruct (@read_body_enough bufsize (S fuel) cl
              (len (response ++ b :: chunk)
               - (find_blank_line (response ++ b :: chunk) + 4)) s' Hf1)
    as [[[br|e] s2] Hb]; rewrite Hb; [|eauto].
  destruct (Extreme.status_of _); eauto.
Qed.




(** ** The header dictionary *)

Lemma starts_with_eq (a b : str) :
  length a = length b -> starts_with Ascii.eqb a b = true -> a = b.
Proof.
  revert b; induction a as [|x a IH]; intros [|y b]; simpl;
    try discriminate; [reflexivity|].
  intros [= L] H. apply andb_true_iff in H as [H1 H2].
  apply Ascii.eqb_eq in H1. subst y. f_equal. apply IH; assumption.
Qed.

Lemma starts_with_refl (a : str) : starts_with Ascii.eqb a a = true.
Proof.
  induction a as [|x a IH]; simpl; [reflexivity|].
  rewrite Ascii.eqb_refl. exact IH.
Qed.

Lemma str_eqb_eq (a b : str) : str_eqb a b = true <-> a = b.
Proof.
  unfold str_eqb. split.
  - intros H. apply andb_true_iff in H as [H1 H2].
    apply Nat.eqb_eq in H1. apply starts_with_eq; assumption.
  - intros ->. rewrite Nat.eqb_refl, starts_with_refl. reflexivity.
Qed.

Lemma str_eqb_neq (a b : str) : str_eqb a b = false <-> a <> b.
Proof.
  split.
  - intros H E. apply str_eqb_eq in E. congruence.
  - intros H. destruct (str_eqb a b) eqn:E; [|reflexivity].
    apply str_eqb_eq in E. contradiction.
Qed.

(** Reading a dictionary after an assignment. *)
Lemma dict_get_set (k k' v : str) (d : dict) :
  dict_get k (dict_set k' v d)
  = if str_eqb k k' then Some v else dict_get k d.
Proof.
  induction d as [|[k2 v2] d IH]; simpl; [reflexivity|].
  destruct (str_eqb k' k2) eqn:E1; simpl.
  - apply str_eqb_eq in E1. subst k2.
    destruct (str_eqb k k'); reflexivity.
  - rewrite IH. destruct (str_eqb k k2) eqn:E2; [|reflexivity].
    apply str_eqb_eq in E2. subst k2.
    destruct (str_eqb k k') eqn:E3; [|reflexivity].
    apply str_eqb_eq in E3. subst k'.
    rewrite (proj2 (str_eqb_eq k k) eq_refl) in E1. discriminate.
Qed.

Lemma fold_header_lines_absent (k : str) (lines : list str) :
  forall d : dict,
    Forall (fun line => StressTest.header_key line <> Some k) lines ->
    dict_get k
      (fold_left
         (fun headers line =>
            if contains Ascii.eqb [":"%char] line
            then let (key, value) := split1 ":"%char line in
                 dict_set (lower (strip key)) (strip value) headers
            else headers) lines d)
    = dict_get k d.
Proof.
  induction lines as [|line lines IH]; intros d H; [reflexivity|].
  inversion H as [|? ? H1 H2]; subst. simpl.
  rewrite IH by exact H2.
  unfold StressTest.header_key in H1.
  destruct (contains Ascii.eqb [":"%char] line); [|reflexivity].
  destruct (split1 ":"%char line) as [key value]. simpl in H1.
  rewrite dict_get_set.
  destruct (str_eqb k (lower (strip key))) eqn:E; [|reflexivity].
  apply str_eqb_eq in E. subst k. congruence.
Qed.


(** The last line filed under a key decides its value. *)
Lemma fold_header_lines_last (k : str) (lines : list str) (line : str) :
  StressTest.header_key line = Some k ->
  dict_get k (StressTest.parse_header_lines (lines ++ [line]))
  = Some (strip (snd (split1 ":"%char line))).
Proof.
  intros H. unfold StressTest.parse_header_lines.
  rewrite fold_left_app. simpl.
  unfold StressTest.header_key in H.
  destruct (contains Ascii.eqb [":"%char] line); [|discriminate].
  destruct (split1 ":"%char line) as [key value]. simpl in *.
  injection H as <-. rewrite dict_get_set.
  rewrite (proj2 (str_eqb_eq _ _) eq_refl). reflexivity.
Qed.


End FramerFacts.

(* ================================================================== *)
(** * ResponseFramer: complete responses *)
(* ================================================================== *)

Module FramerClaims.
Import Py Net Framer PyFacts NetFacts FramerFacts Samples.




End FramerClaims.

(* ================================================================== *)
(** * ResponseOutcome: the recorded body length *)
(* ================================================================== *)

Module BodyLength.
Import Py Net Framer PyFacts NetFacts FramerFacts Samples.




End BodyLength.

(* ================================================================== *)
(** * The worker loop: one turn *)
(* ================================================================== *)

Unset Implicit Arguments.

Module WorkerTurn.
Import Py Net Framer Worker Samples.

(** The effect of a list of events is the effect of its parts. *)
Lemma effects_app (p : profile) (evs evs' : list event) (sh : shared) :
  effects p (evs ++ evs') sh = effects p evs' (effects p evs sh).
Proof. unfold effects. apply fold_left_app. Qed.







End WorkerTurn.

(* ================================================================== *)
(** * The worker loop: whole runs *)
(* ================================================================== *)

Module WorkerRun.
Import Py Net Framer Worker Samples WorkerTurn.

Lemma count_app (f : event -> bool) (a b : list event) :
  count f (a ++ b) = count f a + count f b.
Proof. unfold count. rewrite filter_app, length_app. reflexivity. Qed.

Lemma trace_ok_app (limit : nat) (a : list event) :
  forall pre b,
    trace_ok limit pre (a ++ b)
    <-> trace_ok limit pre a /\ trace_ok limit (pre ++ a) b.
Proof.
  induction a as [|ev a IH]; intros pre b; simpl.
  - rewrite app_nil_r. tauto.
  - rewrite IH, <- app_assoc. simpl. tauto.
Qed.

(** [trace_ok], read at one event of the trace. *)
Lemma trace_ok_at (limit : nat) (tr : list event) :
  forall pre0 pre ev post,
    trace_ok limit pre0 tr -> tr = pre ++ ev :: post ->
    send_ok limit (pre0 ++ pre) ev.
Proof.
  intros pre0 pre ev post H ->.
  apply trace_ok_app in H as [_ H]. simpl in H. tauto.
Qed.

Ltac counts :=
  rewrite ?count_app;
  cbn [count filter is_send_on is_close_of is_connect_of is_put is_failed
       length app];
  repeat match goal with
         | |- context [Nat.eqb ?a ?b] =>
             destruct (Nat.eqb_spec a b); cbn [length]
         end;
  try lia.


Ltac split_all := repeat match goal with |- _ /\ _ => split end.

(** The send block keeps the invariant. *)
Lemma exchange_invariant (p : profile) (e : env) (tr : list event)
    (w1 : local) (t : task) (c : conn) :
  sock w1 = Some c -> is_open c = true ->
  (forall c', next_cid w1 <= c' ->
              count (is_send_on c') tr = 0
              /\ count (is_connect_of c') tr = 0
              /\ count (is_close_of c') tr = 0) ->
  cid c < next_cid w1 ->
  count (is_send_on (cid c)) tr = requests_on_conn w1 ->
  count (is_connect_of (cid c)) tr = 1 ->
  count (is_close_of (cid c)) tr = 0 ->
  requests_on_conn w1 < Nat.max 1 (REQUESTS_PER_CONNECTION p) ->
  trace_ok (REQUESTS_PER_CONNECTION p) [] tr ->
  forall evs w2 k,
    exchange p e w1 t c = (evs, w2, k) -> invariant p (tr ++ evs) w2.
Proof.
  intros Hs Ho Hfresh Hlt Hsend Hconn Hclose Hlim Htr evs w2 k.
  unfold exchange, on_failure, set_sock. rewrite Ho. cbn [andb].
  assert (Hfresh' : forall c', next_cid w1 <= c' ->
             count (is_send_on c') tr = 0
             /\ count (is_connect_of c') tr = 0
             /\ count (is_close_of c') tr = 0 /\ c' <> cid c).
  { intros c' Hc'. destruct (Hfresh c' Hc') as (A & B & C).
    split_all; try assumption. lia. }
  destruct (sent e).
  - destruct (receive p (rx c)) as [[[st bl]|ex] rx'].
    + intros [= <- <- <-]. unfold invariant. cbn [sock next_cid is_open cid
        requests_on_conn]. split_all.
      * intros c' Hc'. destruct (Hfresh' c' Hc') as (A & B & C & D).
        split_all; counts.
      * exact Hlt.
      * counts.
      * counts.
      * counts.
      * apply trace_ok_app. split; [exact Htr|]. cbn [trace_ok send_ok app].
        split_all; auto.
    + intros [= <- <- <-]. unfold invariant. cbn [sock next_cid]. split_all.
      * intros c' Hc'. destruct (Hfresh' c' Hc') as (A & B & C & D).
        destruct (failure_pause p); split_all; counts.
      * exact I.
      * apply trace_ok_app. split; [exact Htr|].
        destruct (failure_pause p); cbn [trace_ok send_ok app];
          split_all; auto.
  - intros [= <- <- <-]. unfold invariant. cbn [sock next_cid]. split_all.
    + intros c' Hc'. destruct (Hfresh' c' Hc') as (A & B & C & D).
      destruct (failure_pause p); split_all; counts.
    + exact I.
    + apply trace_ok_app. split; [exact Htr|].
      destruct (failure_pause p); cbn [trace_ok send_ok app];
        split_all; auto.
Qed.


(** One turn keeps the invariant. *)
Lemma step_invariant (p : profile) (e : env) (tr : list event) (w : local) :
  invariant p tr w ->
  forall evs w' k, step p e w = (evs, w', k) -> invariant p (tr ++ evs) w'.
Proof.
  intros (Hfresh & Hsock & Htr) evs w' k. unfold step.
  destruct (negb (running e));
    [intros [= <- <- <-]; rewrite app_nil_r;
     exact (conj Hfresh (conj Hsock Htr))|].
  destruct (dequeued e) as [|[t|]];
    try (intros [= <- <- <-]; rewrite app_nil_r;
         exact (conj Hfresh (conj Hsock Htr))).
  unfold ensure_connection.
  destruct (sock w) as [c0|] eqn:S0.
  - destruct Hsock as (Hlt & Hopen).
    destruct (requests_on_conn w <? REQUESTS_PER_CONNECTION p) eqn:E.
    + apply Nat.ltb_lt in E.
      destruct (is_open c0) eqn:O; [|lia].
      destruct Hopen as (A & B & C).
      destruct (exchange p e w t c0) as [[evs' w2] k'] eqn:X.
      intros [= <- <- <-]. cbn [app].
      assert (requests_on_conn w < Nat.max 1 (REQUESTS_PER_CONNECTION p))
        as Hlim by lia.
      exact (exchange_invariant p e tr w t c0 S0 O Hfresh Hlt A B C Hlim Htr
               _ _ _ X).
    + apply Nat.ltb_ge in E.
      assert (Hfresh' : forall c', next_cid w <= c' ->
                 count (is_send_on c') tr = 0
                 /\ count (is_connect_of c') tr = 0
                 /\ count (is_close_of c') tr = 0 /\ c' <> cid c0).
      { intros c' Hc'. destruct (Hfresh c' Hc') as (A & B & C).
        split_all; try assumption. lia. }
      destruct (negb (socket_created e)).
      * intros [= <- <- <-]. unfold invariant, set_sock, closed.
        cbn [sock next_cid option_map is_open cid requests_on_conn].
        split_all.
        -- intros c' Hc'. destruct (Hfresh' c' Hc') as (A & B & C & D).
           split_all; counts.
        -- exact Hlt.
        -- exact E.
        -- apply trace_ok_app. split; [exact Htr|].
           cbn [trace_ok send_ok app]. split_all; exact I.
      * destruct (connected e) as [rx0|].
        -- destruct (exchange p e _ t _) as [[evs' w2] k'] eqn:X.
           intros [= <- <- <-].
           change (tr ++ EvClose (cid c0) :: EvConnect (next_cid w) :: evs')
             with (tr ++ [EvClose (cid c0); EvConnect (next_cid w)] ++ evs').
           rewrite app_assoc.
           destruct (Hfresh (next_cid w) (le_n _)) as (A & B & C).
           eapply exchange_invariant; try exact X;
             cbn [sock next_cid is_open cid requests_on_conn];
             try reflexivity; try lia.
           ++ intros c' Hc'.
              destruct (Hfresh' c' ltac:(lia)) as (A' & B' & C' & D').
              split_all; counts.
           ++ counts.
           ++ counts.
           ++ counts.
           ++ apply trace_ok_app. split; [exact Htr|].
              cbn [trace_ok send_ok app]. split_all; exact I.
        -- intros [= <- <- <-]. unfold invariant. cbn [sock next_cid].
           split_all.
           ++ intros c' Hc'.
              destruct (Hfresh' c' ltac:(lia)) as (A' & B' & C' & D').
              split_all; counts.
           ++ exact I.
           ++ apply trace_ok_app. split; [exact Htr|].
              cbn [trace_ok send_ok app]. split_all; exact I.
  - destruct (negb (socket_created e)).
    + intros [= <- <- <-]. unfold invariant, set_sock.
      cbn [sock next_cid option_map]. split_all.
      * intros c' Hc'. destruct (Hfresh c' Hc') as (A & B & C).
        split_all; counts.
      * exact I.
      * apply trace_ok_app. split; [exact Htr|].
        cbn [trace_ok send_ok app]. split_all; exact I.
    + destruct (connected e) as [rx0|].
      * destruct (exchange p e _ t _) as [[evs' w2] k'] eqn:X.
        intros [= <- <- <-].
        change (tr ++ EvConnect (next_cid w) :: evs')
          with (tr ++ [EvConnect (next_cid w)] ++ evs').
        rewrite app_assoc.
        destruct (Hfresh (next_cid w) (le_n _)) as (A & B & C).
        eapply exchange_invariant; try exact X;
          cbn [sock next_cid is_open cid requests_on_conn];
          try reflexivity; try lia.
        -- intros c' Hc'.
           destruct (Hfresh c' ltac:(lia)) as (A' & B' & C').
           split_all; counts.
        -- counts.
        -- counts.
        -- counts.
        -- apply trace_ok_app. split; [exact Htr|].
           cbn [trace_ok send_ok app]. split_all; exact I.
      * intros [= <- <- <-]. unfold invariant. cbn [sock next_cid].
        split_all.
        -- intros c' Hc'.
           destruct (Hfresh c' ltac:(lia)) as (A' & B' & C').
           split_all; counts.
        -- exact I.
        -- apply trace_ok_app. split; [exact Htr|].
           cbn [trace_ok send_ok app]. split_all; exact I.
Qed.

Lemma cleanup_trace_ok (limit : nat) (pre : list event) (w : local) :
  trace_ok limit pre (cleanup w).
Proof. unfold cleanup. destruct (sock w); simpl; auto. Qed.

(** Every run keeps the sends in order. *)
Lemma run_trace_ok (p : profile) (envs : list env) :
  forall (tr : list event) (w : local),
    invariant p tr w ->
    trace_ok (REQUESTS_PER_CONNECTION p) [] (tr ++ fst (run p envs w)).
Proof.
  induction envs as [|e envs IH]; intros tr w Hinv.
  - simpl. rewrite app_nil_r. apply Hinv.
  - cbn [run]. destruct (step p e w) as [[evs w'] k] eqn:S.
    pose proof (step_invariant p e tr w Hinv _ _ _ S) as Hinv'.
    destruct k.
    + specialize (IH _ _ Hinv').
      destruct (run p envs w') as [evs' w'']. cbn [fst] in *.
      rewrite app_assoc. exact IH.
    + cbn [fst]. rewrite app_assoc. apply trace_ok_app.
      split; [apply Hinv'|apply cleanup_trace_ok].
Qed.

Lemma invariant_start (p : profile) : invariant p [] start.
Proof. unfold invariant, start. simpl. auto. Qed.


(** The sends of the send block go out on the socket it was given,
    with the counter it was given. *)
Lemma exchange_sends (p : profile) (e : env) (w1 : local) (t : task)
    (c : conn) (ev : event) :
  In ev (fst (fst (exchange p e w1 t c))) ->
  forall c' k t', ev = EvSend c' k t' ->
                  c' = cid c /\ k = requests_on_conn w1 /\ t' = t.
Proof.
  unfold exchange, on_failure.
  destruct (is_open c && sent e).
  - destruct (receive p (rx c)) as [[[st bl]|ex] rx'];
      destruct (failure_pause p); cbn;
      intros H c' k t' ->;
      repeat (destruct H as [H|H]; try discriminate; try contradiction);
      injection H as <- <- <-; auto.
  - destruct (is_open c); destruct (failure_pause p); cbn;
      intros H c' k t' ->;
      repeat (destruct H as [H|H]; try discriminate; try contradiction);
      injection H as <- <- <-; auto.
Qed.

(** C7.  In every run of the worker, a request goes out on a
    connection that was opened once and not closed, with
    [requests_on_conn] equal to the number of requests already sent on
    that same connection -- zero on a fresh connection, never set back
    while the connection stays in use -- and below the limit.  A turn
    that finds the counter at the limit closes the socket first, and
    whatever it then sends goes out on a new connection with the
    counter at zero. *)
Theorem C7_connection_replaced_at_limit (p : profile) :
  (forall (envs : list env) (pre post : list event) (c k : nat) (t : task),
      fst (run p envs start) = pre ++ EvSend c k t :: post ->
      k = count (is_send_on c) pre
      /\ k < Nat.max 1 (REQUESTS_PER_CONNECTION p)
      /\ count (is_connect_of c) pre = 1
      /\ count (is_close_of c) pre = 0)
  /\ (forall (e : env) (w : local) (t : task) (c0 : conn),
      running e = true ->
      dequeued e = Item (Some t) ->
      sock w = Some c0 ->
      REQUESTS_PER_CONNECTION p <= requests_on_conn w ->
      exists evs,
        fst (fst (step p e w)) = EvClose (cid c0) :: evs
        /\ forall c k t',
             In (EvSend c k t') evs -> c = next_cid w /\ k = 0).
Proof.
  split.
  - intros envs pre post c k t H.
    pose proof (run_trace_ok p envs [] start (invariant_start p)) as Htr.
    cbn [app] in Htr.
    exact (trace_ok_at _ _ [] pre _ post Htr H).
  - intros e w t c0 Hr Hd Hs Hlim.
    unfold step, ensure_connection. rewrite Hr, Hd, Hs. cbn [negb].
    destruct (requests_on_conn w <? REQUESTS_PER_CONNECTION p) eqn:E;
      [apply Nat.ltb_lt in E; lia|].
    destruct (negb (socket_created e)).
    + eexists. split; [reflexivity|]. cbn.
      intros c k t' [H|[]]. discriminate.
    + destruct (connected e) as [rx0|].
      * destruct (exchange p e _ t _) as [[evs' w2] k'] eqn:X.
        eexists. split; [reflexivity|]. cbn.
        intros c k t' [H|H]; [discriminate|].
        assert (In (EvSend c k t') (fst (fst (exchange p e
                  {| sock := Some {| cid := next_cid w; rx := rx0;
                                     is_open := true |};
                     requests_on_conn := 0;
                     next_cid := S (next_cid w) |} t
                  {| cid := next_cid w; rx := rx0; is_open := true |}))))
          as Hin by (rewrite X; exact H).
        destruct (exchange_sends _ _ _ _ _ _ Hin c k t' eq_refl)
          as (A & B & _).
        split; assumption.
      * eexists. split; [reflexivity|]. cbn.
        intros c k t' H.
        repeat (destruct H as [H|H]; try discriminate; try contradiction).
Qed.

(** Two requests on one connection: the second goes out with the
    counter at 1. *)
Lemma C7_connection_replaced_at_limit_witness :
  1 = count (is_send_on 0)
        [EvConnect 0; EvSend 0 0 get_small; EvStats (Stats.Sent 99);
         EvStats (Stats.Completed (of_string "/small") 7%Z 5%Z)]
  /\ 1 < Nat.max 1 (REQUESTS_PER_CONNECTION Scripts.stress_test).
Proof.
  destruct (proj1 (C7_connection_replaced_at_limit Scripts.stress_test)
              [turn (Some (stream [response_5; response_5])) true;
               turn None true]
              [EvConnect 0; EvSend 0 0 get_small; EvStats (Stats.Sent 99);
               EvStats (Stats.Completed (of_string "/small") 7%Z 5%Z)]
              [EvStats (Stats.Sent 99);
               EvStats (Stats.Completed (of_string "/small") 7%Z 5%Z)]
              0 1 get_small ltac:(vm_compute; reflexivity))
    as (H1 & H2 & _).
  split; [exact H1|exact H2].
Defined.

End WorkerRun.

(* ================================================================== *)
(** * Sorting and ranks *)
(* ================================================================== *)

Module RankFacts.
Import Py Percentile.

Lemma insert_length (x : Z) (l : list Z) :
  length (insert x l) = S (length l).
Proof.
  induction l as [|y l IH]; simpl; [reflexivity|].
  destruct (x <=? y)%Z; simpl; [reflexivity|]. rewrite IH. reflexivity.
Qed.

Lemma sorted_length (l : list Z) : length (sorted l) = length l.
Proof.
  induction l as [|x l IH]; simpl; [reflexivity|].
  rewrite insert_length, IH. reflexivity.
Qed.

Lemma insert_In (x y : Z) (l : list Z) :
  In y (insert x l) <-> y = x \/ In y l.
Proof.
  induction l as [|z l IH]; simpl; [intuition|].
  destruct (x <=? z)%Z; simpl; [intuition|]. rewrite IH. intuition.
Qed.

Lemma sorted_In (y : Z) (l : list Z) : In y (sorted l) <-> In y l.
Proof.
  induction l as [|x l IH]; simpl; [tauto|].
  rewrite insert_In, IH. intuition.
Qed.

Lemma ascending_cons (x : Z) (l : list Z) :
  (forall y, In y l -> (x <= y)%Z) -> ascending l -> ascending (x :: l).
Proof.
  intros Hx Hl i j a b Hij Hi Hj.
  destruct i as [|i]; destruct j as [|j]; simpl in *; try lia.
  - injection Hi as <-. injection Hj as <-. lia.
  - injection Hi as <-. apply Hx. eapply nth_error_In; eauto.
  - eapply Hl; [|eassumption|eassumption]. lia.
Qed.

Lemma ascending_tail (x : Z) (l : list Z) :
  ascending (x :: l) -> ascending l /\ forall y, In y l -> (x <= y)%Z.
Proof.
  intros H. split.
  - intros i j a b Hij Hi Hj. apply (H (S i) (S j) a b); simpl; auto. lia.
  - intros y Hy. apply In_nth_error in Hy as [n Hn].
    apply (H 0 (S n) x y); simpl; auto. lia.
Qed.

Lemma insert_ascending (x : Z) (l : list Z) :
  ascending l -> ascending (insert x l).
Proof.
  induction l as [|y l IH]; intros H; simpl.
  - apply ascending_cons; [intros ? []|exact H].
  - destruct (x <=? y)%Z eqn:E.
    + apply Z.leb_le in E. apply ascending_cons; [|exact H].
      apply ascending_tail in H as [_ H].
      intros z [<-|Hz]; [exact E|]. specialize (H z Hz). lia.
    + apply Z.leb_gt in E. apply ascending_tail in H as [H1 H2].
      apply ascending_cons; [|apply IH; exact H1].
      intros z Hz. apply insert_In in Hz as [->|Hz]; [lia|auto].
Qed.

Lemma sorted_ascending (l : list Z) : ascending (sorted l).
Proof.
  induction l as [|x l IH]; simpl.
  - intros i j a b _ Hi. destruct i; discriminate.
  - apply insert_ascending. exact IH.
Qed.

(** Indexing inside the list never raises. *)
Lemma index_lt {A : Type} (l : list A) (i : nat) :
  i < length l -> exists x, index l i = Ok x /\ nth_error l i = Some x.
Proof.
  intros H. unfold index. destruct (nth_error l i) as [x|] eqn:E.
  - exists x. auto.
  - apply nth_error_None in E. lia.
Qed.

Lemma index_Ok {A : Type} (l : list A) (i : nat) (x : A) :
  index l i = Ok x <-> nth_error l i = Some x.
Proof.
  unfold index. destruct (nth_error l i); split; intros H;
    try discriminate; congruence.
Qed.

(** [max] and [min] are the two ends of the sorted list. *)
Lemma fold_max_spec (l : list Z) (x : Z) :
  let m := fold_left Z.max l x in
  (x <= m)%Z /\ (forall y, In y l -> (y <= m)%Z) /\ (m = x \/ In m l).
Proof.
  revert x; induction l as [|z l IH]; intros x; simpl.
  - split; [lia|]. split; [intros ? []|auto].
  - destruct (IH (Z.max x z)) as (A & B & C). split; [lia|].
    split.
    + intros y [<-|Hy]; [lia|auto].
    + destruct C as [C|C]; [|auto]. rewrite C.
      destruct (Z.max_spec x z) as [[_ ->]|[_ ->]]; auto.
Qed.

Lemma fold_min_spec (l : list Z) (x : Z) :
  let m := fold_left Z.min l x in
  (m <= x)%Z /\ (forall y, In y l -> (m <= y)%Z) /\ (m = x \/ In m l).
Proof.
  revert x; induction l as [|z l IH]; intros x; simpl.
  - split; [lia|]. split; [intros ? []|auto].
  - destruct (IH (Z.min x z)) as (A & B & C). split; [lia|].
    split.
    + intros y [<-|Hy]; [lia|auto].
    + destruct C as [C|C]; [|auto]. rewrite C.
      destruct (Z.min_spec x z) as [[_ ->]|[_ ->]]; auto.
Qed.

Lemma py_max_spec (l : list Z) (m : Z) :
  py_max l = Ok m <-> In m l /\ forall y, In y l -> (y <= m)%Z.
Proof.
  destruct l as [|x l]; simpl.
  - split; [discriminate|intros [[] _]].
  - pose proof (fold_max_spec l x) as (A & B & C). cbv zeta in *.
    split.
    + intros [= <-]. split; [destruct C as [->|C]; auto|].
      intros y [<-|Hy]; auto.
    + intros [Hin Hall]. f_equal.
      assert (fold_left Z.max l x <= m)%Z
        by (apply Hall; destruct C as [->|C]; auto).
      assert (m <= fold_left Z.max l x)%Z
        by (destruct Hin as [<-|Hin]; auto).
      lia.
Qed.

Lemma py_min_spec (l : list Z) (m : Z) :
  py_min l = Ok m <-> In m l /\ forall y, In y l -> (m <= y)%Z.
Proof.
  destruct l as [|x l]; simpl.
  - split; [discriminate|intros [[] _]].
  - pose proof (fold_min_spec l x) as (A & B & C). cbv zeta in *.
    split.
    + intros [= <-]. split; [destruct C as [->|C]; auto|].
      intros y [<-|Hy]; auto.
    + intros [Hin Hall]. f_equal.
      assert (m <= fold_left Z.min l x)%Z
        by (apply Hall; destruct C as [->|C]; auto).
      assert (fold_left Z.min l x <= m)%Z
        by (destruct Hin as [<-|Hin]; auto).
      lia.
Qed.

(** The last position of the sorted samples holds their maximum, the
    first their minimum. *)
Lemma sorted_last_is_max (l : list Z) :
  l <> [] -> index (sorted l) (length l - 1) = py_max l.
Proof.
  intros Hne.
  assert (0 < length l) as Hlen by (destruct l; [congruence|simpl; lia]).
  destruct (index_lt (sorted l) (length l - 1)) as (x & Hx & Hn);
    [rewrite sorted_length; lia|].
  rewrite Hx. symmetry. apply py_max_spec. split.
  - apply sorted_In. eapply nth_error_In; eauto.
  - intros y Hy. apply sorted_In in Hy. apply In_nth_error in Hy as [j Hj].
    apply (sorted_ascending l j (length l - 1) y x); auto.
    assert (j < length (sorted l))
      by (apply nth_error_Some; congruence).
    rewrite sorted_length in *. lia.
Qed.

Lemma sorted_first_is_min (l : list Z) :
  l <> [] -> index (sorted l) 0 = py_min l.
Proof.
  intros Hne.
  assert (0 < length l) as Hlen by (destruct l; [congruence|simpl; lia]).
  destruct (index_lt (sorted l) 0) as (x & Hx & Hn);
    [rewrite sorted_length; lia|].
  rewrite Hx. symmetry. apply py_min_spec. split.
  - apply sorted_In. eapply nth_error_In; eauto.
  - intros y Hy. apply sorted_In in Hy. apply In_nth_error in Hy as [j Hj].
    apply (sorted_ascending l 0 j x y); auto. lia.
Qed.


Lemma ascending_sorted_id (l : list Z) : ascending l -> sorted l = l.
Proof.
  induction l as [|x l IH]; intros H; [reflexivity|].
  apply ascending_tail in H as [H1 H2]. simpl. rewrite IH by exact H1.
  destruct l as [|y l]; [reflexivity|]. simpl.
  destruct (x <=? y)%Z eqn:E; [reflexivity|].
  apply Z.leb_gt in E. specialize (H2 y (or_introl eq_refl)). lia.
Qed.

Lemma sorted_idempotent (l : list Z) : sorted (sorted l) = sorted l.
Proof. apply ascending_sorted_id, sorted_ascending. Qed.

(** ** The nearest-rank index *)

Lemma Qfloor_scale (a : Z) (b : positive) (n : nat) :
  Qfloor ((a # b)%Q * inject_Z (Z.of_nat n)) = (a * Z.of_nat n / Zpos b)%Z.
Proof.
  unfold Qmult, inject_Z, Qfloor. simpl Qnum. simpl Qden.
  rewrite Pos.mul_1_r. reflexivity.
Qed.

Lemma clamp_spec (n : nat) (z : Z) :
  0 < n ->
  let k := Z.to_nat (Z.max 0 (Z.min (Z.of_nat n - 1) z)) in
  ((z <= 0)%Z /\ k = 0)
  \/ ((0 <= z <= Z.of_nat n - 1)%Z /\ Z.of_nat k = z)
  \/ ((Z.of_nat n - 1 <= z)%Z /\ k = n - 1).
Proof.
  intros Hn k. subst k.
  destruct (Z.max_spec 0 (Z.min (Z.of_nat n - 1) z)) as [[? ->]|[? ->]];
    destruct (Z.min_spec (Z.of_nat n - 1) z) as [[? E]|[? E]];
    rewrite ?E in *; lia.
Qed.

Lemma nearest_rank_index_lt (p : Q) (n : nat) :
  0 < n -> nearest_rank_index p n < n.
Proof.
  unfold nearest_rank_index.
  generalize (Qfloor (p * inject_Z (Z.of_nat n))). intros z Hn.
  pose proof (clamp_spec n z Hn). cbv zeta in *. lia.
Qed.

Lemma nearest_rank_index_mono (p q : Q) (n : nat) :
  (p <= q)%Q -> nearest_rank_index p n <= nearest_rank_index q n.
Proof.
  intros H. unfold nearest_rank_index.
  assert (Qfloor (p * inject_Z (Z.of_nat n))
          <= Qfloor (q * inject_Z (Z.of_nat n)))%Z.
  { apply Qfloor_resp_le. apply Qmult_le_compat_r; [exact H|].
    unfold Qle, inject_Z. simpl. lia. }
  revert H0. generalize (Qfloor (p * inject_Z (Z.of_nat n))).
  generalize (Qfloor (q * inject_Z (Z.of_nat n))). intros zq zp Hle.
  destruct n as [|n]; [simpl; lia|].
  pose proof (clamp_spec (S n) zp ltac:(lia)).
  pose proof (clamp_spec (S n) zq ltac:(lia)). cbv zeta in *. lia.
Qed.

Lemma nearest_rank_index_top (p : Q) (n : nat) :
  (1 <= p)%Q -> nearest_rank_index p n = n - 1.
Proof.
  intros H. unfold nearest_rank_index.
  assert (Z.of_nat n <= Qfloor (p * inject_Z (Z.of_nat n)))%Z.
  { rewrite <- (Qfloor_Z (Z.of_nat n)) at 1. apply Qfloor_resp_le.
    setoid_replace (inject_Z (Z.of_nat n))
      with (1 * inject_Z (Z.of_nat n))%Q at 1 by ring.
    apply Qmult_le_compat_r; [exact H|].
    unfold Qle, inject_Z. simpl. lia. }
  revert H0. generalize (Qfloor (p * inject_Z (Z.of_nat n))). intros z Hle.
  destruct n as [|n]; [simpl; lia|].
  pose proof (clamp_spec (S n) z ltac:(lia)). cbv zeta in *. lia.
Qed.

Lemma nearest_rank_index_bottom (n : nat) : nearest_rank_index 0 n = 0.
Proof.
  unfold nearest_rank_index.
  change 0%Q with (0 # 1)%Q. rewrite Qfloor_scale.
  rewrite Z.mul_0_l, Zdiv_0_l.
  destruct (Z.max_spec 0 (Z.min (Z.of_nat n - 1) 0)) as [[? ->]|[? ->]];
    destruct (Z.min_spec (Z.of_nat n - 1) 0) as [[? E]|[? E]];
    rewrite ?E in *; lia.
Qed.

(** For a fraction of at most 99 hundredths the clamp never acts, and
    the index is the truncated product of the scripts. *)
Lemma nearest_rank_index_hundredths (h n : nat) :
  h <= 99 -> 0 < n ->
  nearest_rank_index (Z.of_nat h # 100)%Q n = int_times n h.
Proof.
  intros Hh Hn. unfold nearest_rank_index, int_times.
  rewrite Qfloor_scale.
  assert (Z.of_nat (n * h / 100) = Z.of_nat h * Z.of_nat n / 100)%Z as E.
  { rewrite Nat2Z.inj_div, Nat2Z.inj_mul.
    change (Z.of_nat 100) with 100%Z. rewrite Z.mul_comm. reflexivity. }
  rewrite <- E.
  assert (n * h / 100 < n).
  { apply Nat.Div0.div_lt_upper_bound. nia. }
  pose proof (clamp_spec n (Z.of_nat (n * h / 100)) Hn). cbv zeta in *. lia.
Qed.

(** Below the bounds the scripts test, the truncated product is the
    last position. *)
Lemma int_times_last (h n : nat) :
  0 < n -> h <= 99 -> n * (100 - h) <= 100 -> int_times n h = n - 1.
Proof.
  intros Hn Hh Hb. unfold int_times.
  symmetry. apply Nat.div_unique with (r := n * h - 100 * (n - 1)); nia.
Qed.

Lemma nearest_rank_total (p : Q) (l : list Z) :
  l <> [] -> exists x, nearest_rank p l = Ok x.
Proof.
  intros Hne. unfold nearest_rank.
  destruct (index_lt (sorted l) (nearest_rank_index p (length l)))
    as (x & Hx & _); [|eauto].
  rewrite sorted_length. apply nearest_rank_index_lt.
  destruct l; [congruence|simpl; lia].
Qed.

Lemma nearest_rank_mono (p q : Q) (l : list Z) (x y : Z) :
  (p <= q)%Q ->
  nearest_rank p l = Ok x -> nearest_rank q l = Ok y -> (x <= y)%Z.
Proof.
  unfold nearest_rank. intros H Hx Hy.
  apply index_Ok in Hx. apply index_Ok in Hy.
  eapply sorted_ascending; [|exact Hx|exact Hy].
  apply nearest_rank_index_mono. exact H.
Qed.

Lemma nearest_rank_max (p : Q) (l : list Z) :
  (1 <= p)%Q -> l <> [] -> nearest_rank p l = py_max l.
Proof.
  intros H Hne. unfold nearest_rank.
  rewrite nearest_rank_index_top by exact H.
  apply sorted_last_is_max. exact Hne.
Qed.

Lemma nearest_rank_min (l : list Z) :
  l <> [] -> nearest_rank 0 l = py_min l.
Proof.
  intros Hne. unfold nearest_rank. rewrite nearest_rank_index_bottom.
  apply sorted_first_is_min. exact Hne.
Qed.

End RankFacts.

(* ================================================================== *)
(** * StatsAggregator: percentiles *)
(* ================================================================== *)

Module PercentileClaims.
Import Py Percentile RankFacts.

Lemma nonempty_length {A : Type} (l : list A) : l <> [] -> 0 < length l.
Proof. destruct l; [congruence|simpl; lia]. Qed.

Lemma last_item_sorted (l : list Z) :
  l <> [] -> last_item (sorted l) = index (sorted l) (length l - 1).
Proof.
  intros Hne. pose proof (nonempty_length l Hne) as Hlen.
  unfold last_item. rewrite sorted_length.
  destruct (sorted l) eqn:E; [|reflexivity].
  apply (f_equal (@length Z)) in E. rewrite sorted_length in E.
  simpl in E. lia.
Qed.

Lemma py_max_sorted (l : list Z) : py_max (sorted l) = py_max l.
Proof.
  destruct (py_max l) as [m|e] eqn:E.
  - apply py_max_spec. apply py_max_spec in E as [H1 H2]. split.
    + apply sorted_In. exact H1.
    + intros y Hy. apply H2. apply sorted_In. exact Hy.
  - destruct l; [exact E|discriminate].
Qed.

Lemma py_min_sorted (l : list Z) : py_min (sorted l) = py_min l.
Proof.
  destruct (py_min l) as [m|e] eqn:E.
  - apply py_min_spec. apply py_min_spec in E as [H1 H2]. split.
    + apply sorted_In. exact H1.
    + intros y Hy. apply H2. apply sorted_In. exact Hy.
  - destruct l; [exact E|discriminate].
Qed.

(** The guarded form of the scripts is the nearest-rank value: above
    the bound the index is the truncated product, up to the bound the
    truncated product is the last position. *)
Lemma guarded_is_nearest_rank (h bound : nat) (l : list Z) :
  h <= 99 -> bound * (100 - h) <= 100 -> l <> [] ->
  guarded_percentile h bound l = nearest_rank (Z.of_nat h # 100)%Q l.
Proof.
  intros Hh Hb Hne. pose proof (nonempty_length l Hne) as Hlen.
  unfold guarded_percentile, nearest_rank. rewrite sorted_length.
  rewrite nearest_rank_index_hundredths by assumption.
  destruct (bound <? length l) eqn:E; [reflexivity|].
  apply Nat.ltb_ge in E. rewrite last_item_sorted by exact Hne.
  rewrite int_times_last; [reflexivity|exact Hlen|exact Hh|nia].
Qed.

Lemma half_index (n : nat) : 0 < n -> nearest_rank_index (1 # 2)%Q n = n / 2.
Proof.
  intros Hn. unfold nearest_rank_index. rewrite Qfloor_scale.
  rewrite Z.mul_1_l.
  assert (Z.of_nat (n / 2) = Z.of_nat n / 2)%Z as E
    by (rewrite Nat2Z.inj_div; reflexivity).
  rewrite <- E.
  assert (n / 2 < n) by (apply Nat.div_lt; lia).
  pose proof (clamp_spec n (Z.of_nat (n / 2)) Hn). cbv zeta in *. lia.
Qed.

(** C5 (amended).  Every p90, p95 and p99 the scripts report, and the
    p50 of final_benchmark.py, is the nearest-rank value: the sorted
    sample at index floor(p * n), which the guards on [n] keep inside
    [[0, n-1]] just as a clamp would.  The nearest-rank value is the
    maximum for p >= 1, the minimum for p = 0, and non-decreasing in p.
    The p50 of the interval reports is [statistics.median]: the
    nearest-rank value for an odd number of samples, the mean of the
    two middle samples for an even number. *)
Theorem C5_percentiles_are_nearest_rank (l : list Z) :
  l <> [] ->
  final_benchmark_p99 l = nearest_rank (99 # 100)%Q l
  /\ final_benchmark_p50 l = nearest_rank (1 # 2)%Q l
  /\ interval_p99 l = nearest_rank (99 # 100)%Q l
  /\ final_percentile 95 l = nearest_rank (95 # 100)%Q l
  /\ final_percentile 99 l = nearest_rank (99 # 100)%Q l
  /\ gradual_p90 l = nearest_rank (90 # 100)%Q l
  /\ gradual_p95 l = nearest_rank (95 # 100)%Q l
  /\ gradual_p99 l = nearest_rank (99 # 100)%Q l
  /\ (forall p, (1 <= p)%Q -> nearest_rank p l = py_max l)
  /\ nearest_rank 0 l = py_min l
  /\ (forall p q, (p <= q)%Q ->
        exists x y, nearest_rank p l = Ok x /\ nearest_rank q l = Ok y
                    /\ (x <= y)%Z)
  /\ (Nat.odd (length l) = true ->
        interval_p50 l
        = rbind (nearest_rank (1 # 2)%Q l) (fun x => Ok (inject_Z x)))
  /\ (Nat.odd (length l) = false ->
        exists a b,
          index (sorted l) (length l / 2 - 1) = Ok a
          /\ nearest_rank (1 # 2)%Q l = Ok b
          /\ (a <= b)%Z
          /\ interval_p50 l = Ok ((inject_Z a + inject_Z b) / 2)%Q).
Proof.
  intros Hne. pose proof (nonempty_length l Hne) as Hlen.
  assert (Hfinal : forall h, h <= 99 ->
            final_percentile h l = nearest_rank (Z.of_nat h # 100)%Q l).
  { intros h Hh. unfold final_percentile, nearest_rank.
    rewrite sorted_length, nearest_rank_index_hundredths by assumption.
    reflexivity. }
  assert (Hhalf : nearest_rank (1 # 2)%Q l = index (sorted l) (length l / 2)).
  { unfold nearest_rank. rewrite half_index by exact Hlen. reflexivity. }
  split; [|split; [|split; [|split; [|split; [|split; [|split; [|split;
    [|split; [|split; [|split; [|split]]]]]]]]]]].
  - unfold final_benchmark_p99. destruct l as [|x l']; [congruence|].
    rewrite sorted_length.
    change (nearest_rank (99 # 100)%Q (x :: l'))
      with (nearest_rank (Z.of_nat 99 # 100)%Q (x :: l')).
    destruct (100 <=? length (x :: l')) eqn:E.
    + unfold nearest_rank.
      rewrite nearest_rank_index_hundredths by (auto; lia). reflexivity.
    + apply Nat.leb_gt in E.
      rewrite <- (guarded_is_nearest_rank 99 100) by (auto; lia).
      unfold guarded_percentile. rewrite sorted_length.
      replace (100 <? length (x :: l')) with false
        by (symmetry; apply Nat.ltb_ge; lia).
      rewrite last_item_sorted by exact Hne.
      rewrite py_max_sorted. symmetry. apply sorted_last_is_max. exact Hne.
  - unfold final_benchmark_p50. destruct l as [|x l']; [congruence|].
    rewrite sorted_length. symmetry. exact Hhalf.
  - unfold interval_p99. apply (guarded_is_nearest_rank 99 100); auto; lia.
  - apply (Hfinal 95). lia.
  - apply (Hfinal 99). lia.
  - apply (guarded_is_nearest_rank 90 10); auto; lia.
  - apply (guarded_is_nearest_rank 95 20); auto; lia.
  - apply (guarded_is_nearest_rank 99 100); auto; lia.
  - intros p Hp. apply nearest_rank_max; assumption.
  - apply nearest_rank_min. exact Hne.
  - intros p q Hpq.
    destruct (nearest_rank_total p l Hne) as [x Hx].
    destruct (nearest_rank_total q l Hne) as [y Hy].
    exists x, y. split; [exact Hx|]. split; [exact Hy|].
    exact (nearest_rank_mono p q l x y Hpq Hx Hy).
  - intros Hodd. unfold interval_p50, median.
    rewrite !sorted_idempotent, sorted_length, Hodd, Hhalf.
    replace (length l =? 0) with false by (symmetry; apply Nat.eqb_neq; lia).
    reflexivity.
  - intros Hodd.
    assert (length l / 2 < length l) as Hmid by (apply Nat.div_lt; lia).
    destruct (index_lt (sorted l) (length l / 2 - 1)) as (a & Ha & Na);
      [rewrite sorted_length; lia|].
    destruct (index_lt (sorted l) (length l / 2)) as (b & Hb & Nb);
      [rewrite sorted_length; exact Hmid|].
    exists a, b. split; [exact Ha|]. split; [congruence|]. split.
    + apply (sorted_ascending l (length l / 2 - 1) (length l / 2) a b);
        auto; lia.
    + unfold interval_p50, median.
      rewrite !sorted_idempotent, sorted_length, Hodd, Ha, Hb.
      replace (length l =? 0) with false
        by (symmetry; apply Nat.eqb_neq; lia).
      reflexivity.
Qed.

Lemma C5_percentiles_are_nearest_rank_witness :
  final_benchmark_p99 [30; 10; 20]%Z = nearest_rank (99 # 100)%Q [30; 10; 20]%Z
  /\ nearest_rank 0 [30; 10; 20]%Z = py_min [30; 10; 20]%Z.
Proof.
  assert ([30; 10; 20]%Z <> []) as Hne by discriminate.
  destruct (C5_percentiles_are_nearest_rank [30; 10; 20]%Z Hne)
    as (H1 & _ & _ & _ & _ & _ & _ & _ & _ & H10 & _).
  split; [exact H1|exact H10].
Defined.

(** C5, as stated, fails for the p50 of the interval reports of
    sustained_load.py: of the samples 1 and 3 it is their mean, 2, where
    the sample at index floor(0.5 * 2) is 3. *)
Lemma C5_median_counterexample :
  interval_p50 [1; 3]%Z = Ok ((inject_Z 1 + inject_Z 3) / 2)%Q
  /\ nearest_rank (1 # 2)%Q [1; 3]%Z = Ok 3%Z
  /\ ~ ((inject_Z 1 + inject_Z 3) / 2 == inject_Z 3)%Q.
Proof.
  split; [reflexivity|]. split; [reflexivity|].
  intros H. vm_compute in H. discriminate.
Qed.

End PercentileClaims.

(* ================================================================== *)
(** * StatsAggregator: the latency stores *)
(* ================================================================== *)

Module StoreClaims.
Import Py.

(** A store that appends while it holds fewer than [cap] samples keeps
    the first samples offered to it, [cap] at most. *)
Lemma capped_fold {St A : Type} (lat : St -> list Z) (step : A -> St -> St)
    (sample : A -> option Z) (cap : nat) :
  (forall a s,
      lat (step a s)
      = match sample a with
        | Some x => if length (lat s) <? cap then lat s ++ [x] else lat s
        | None => lat s
        end) ->
  forall ops s,
    lat (fold_left (fun s a => step a s) ops s)
    = lat s ++ firstn (cap - length (lat s))
                 (flat_map (fun a => match sample a with
                                     | Some x => [x]
                                     | None => []
                                     end) ops).
Proof.
  intros Hstep. induction ops as [|a ops IH]; intros s; simpl.
  - rewrite firstn_nil, app_nil_r. reflexivity.
  - rewrite IH, Hstep. destruct (sample a) as [x|]; simpl; [|reflexivity].
    destruct (length (lat s) <? cap) eqn:E.
    + apply Nat.ltb_lt in E. rewrite length_app. simpl.
      replace (cap - length (lat s)) with (S (cap - (length (lat s) + 1)))
        by lia.
      simpl. rewrite <- app_assoc. reflexivity.
    + apply Nat.ltb_ge in E.
      replace (cap - length (lat s)) with 0 by lia. reflexivity.
Qed.

(** A store that always appends keeps every sample. *)
Lemma unbounded_fold {St A : Type} (lat : St -> list Z) (step : A -> St -> St)
    (sample : A -> option Z) :
  (forall a s,
      lat (step a s)
      = match sample a with
        | Some x => lat s ++ [x]
        | None => lat s
        end) ->
  forall ops s,
    lat (fold_left (fun s a => step a s) ops s)
    = lat s ++ flat_map (fun a => match sample a with
                                  | Some x => [x]
                                  | None => []
                                  end) ops.
Proof.
  intros Hstep. induction ops as [|a ops IH]; intros s; simpl.
  - rewrite app_nil_r. reflexivity.
  - rewrite IH, Hstep. destruct (sample a) as [x|]; simpl; [|reflexivity].
    rewrite <- app_assoc. reflexivity.
Qed.

Lemma measured_flat_map (f : attempt -> bool) (ops : list attempt) :
  flat_map (fun a => match (if f a then Some (snd a) else None) with
                     | Some x => [x]
                     | None => []
                     end) ops
  = measured f ops.
Proof.
  unfold measured. induction ops as [|a ops IH]; simpl; [reflexivity|].
  destruct (f a); simpl; rewrite IH; reflexivity.
Qed.

Lemma completed_flat_map (us : list Stats.update) :
  flat_map (fun u => match (match u with
                            | Stats.Completed _ elapsed _ => Some elapsed
                            | _ => None
                            end) with
                     | Some x => [x]
                     | None => []
                     end) us
  = Stats.completed_latencies us.
Proof.
  unfold Stats.completed_latencies.
  induction us as [|u us IH]; simpl; [reflexivity|].
  rewrite IH. destruct u; reflexivity.
Qed.

Lemma final_benchmark_latencies (ops : list attempt) :
  FinalBenchmark.latencies
    (fold_left (fun s a => FinalBenchmark.record a s) ops
       FinalBenchmark.initial)
  = firstn FinalBenchmark.CAPACITY (measured returned ops).
Proof.
  rewrite (capped_fold FinalBenchmark.latencies FinalBenchmark.record
             (fun a => if returned a then Some (snd a) else None)
             FinalBenchmark.CAPACITY).
  - simpl FinalBenchmark.latencies at 1 2. cbn [length app].
    rewrite Nat.sub_0_r, measured_flat_map. reflexivity.
  - intros [[|response] elapsed] s; reflexivity.
Qed.

Lemma stats_latencies_capped (cap : nat) (el cb : bool)
    (us : list Stats.update) :
  Stats.latencies
    (Stats.after {| Stats.latency_capacity := Some cap;
                    Stats.endpoint_latencies := el;
                    Stats.counts_bytes_sent := cb |} us)
  = firstn cap (Stats.completed_latencies us).
Proof.
  unfold Stats.after.
  rewrite (capped_fold Stats.latencies
             (fun u s => Stats.apply _ u s)
             (fun u => match u with
                       | Stats.Completed _ elapsed _ => Some elapsed
                       | _ => None
                       end) cap).
  - cbn [Stats.latencies Stats.initial length app].
    rewrite Nat.sub_0_r, completed_flat_map. reflexivity.
  - intros [| | |] s; reflexivity.
Qed.

Lemma stats_latencies_unbounded (el cb : bool) (us : list Stats.update) :
  Stats.latencies
    (Stats.after {| Stats.latency_capacity := None;
                    Stats.endpoint_latencies := el;
                    Stats.counts_bytes_sent := cb |} us)
  = Stats.completed_latencies us.
Proof.
  unfold Stats.after.
  rewrite (unbounded_fold Stats.latencies
             (fun u s => Stats.apply _ u s)
             (fun u => match u with
                       | Stats.Completed _ elapsed _ => Some elapsed
                       | _ => None
                       end)).
  - cbn [Stats.latencies Stats.initial app].
    rewrite completed_flat_map. reflexivity.
  - intros [| | |] s; reflexivity.
Qed.

Lemma interval_stats_latencies (ops : list attempt) (s : SustainedLoad.IntervalStats) :
  SustainedLoad.latencies
    (fold_left (fun s a => SustainedLoad.worker_turn a s) ops s)
  = SustainedLoad.latencies s ++ measured answered ops.
Proof.
  rewrite (unbounded_fold SustainedLoad.latencies SustainedLoad.worker_turn
             (fun a => if answered a then Some (snd a) else None)).
  - rewrite measured_flat_map. reflexivity.
  - intros [[|[|b0 response]] elapsed] s0; reflexivity.
Qed.

Lemma gradual_latencies (ops : list attempt) (r : GradualStress.StressResult) :
  GradualStress.latencies
    (fold_left (fun r a => GradualStress.worker_turn a r) ops r)
  = GradualStress.latencies r ++ measured returned ops.
Proof.
  rewrite (unbounded_fold GradualStress.latencies GradualStress.worker_turn
             (fun a => if returned a then Some (snd a) else None)).
  - rewrite measured_flat_map. reflexivity.
  - intros [[|response] elapsed] s0; reflexivity.
Qed.

(** C6 (amended).  The latency stores of final_benchmark.py (capacity
    10000) and of extreme_stress.py and ultra_stress.py (capacity
    100000) are bounded: a sample is appended only while the store
    holds fewer than its capacity, so the store holds the first samples
    of the run, never more than the capacity, and nothing is evicted.
    [IntervalStats] of sustained_load.py and the [stats] of
    stress_test.py have no capacity and keep every sample. *)
Theorem C6_latency_stores :
  (forall ops : list attempt,
      let s := fold_left (fun s a => FinalBenchmark.record a s) ops
                 FinalBenchmark.initial in
      FinalBenchmark.latencies s
      = firstn FinalBenchmark.CAPACITY (measured returned ops)
      /\ length (FinalBenchmark.latencies s) <= FinalBenchmark.CAPACITY)
  /\ (forall us : list Stats.update,
      let s := Stats.after Scripts.capped us in
      Stats.latencies s = firstn 100000 (Stats.completed_latencies us)
      /\ length (Stats.latencies s) <= 100000)
  /\ (forall ops : list attempt,
      SustainedLoad.latencies
        (fold_left (fun s a => SustainedLoad.worker_turn a s) ops
           SustainedLoad.init)
      = measured answered ops)
  /\ (forall us : list Stats.update,
      Stats.latencies
        (Stats.after (Worker.recording Scripts.stress_test) us)
      = Stats.completed_latencies us).
Proof.
  split; [|split; [|split]].
  - intros ops s. subst s. rewrite final_benchmark_latencies.
    split; [reflexivity|]. rewrite length_firstn. lia.
  - intros us s. subst s. unfold Scripts.capped.
    rewrite stats_latencies_capped.
    split; [reflexivity|]. rewrite length_firstn. lia.
  - intros ops. rewrite interval_stats_latencies. reflexivity.
  - intros us. apply stats_latencies_unbounded.
Qed.

(** C6, as stated, fails for [IntervalStats.record]: no capacity bounds
    its store. *)
Lemma C6_interval_stats_counterexample :
  ~ exists C : nat,
      forall ops : list attempt,
        length (SustainedLoad.latencies
                  (fold_left (fun s a => SustainedLoad.worker_turn a s) ops
                     SustainedLoad.init)) <= C.
Proof.
  intros [C H].
  specialize (H (repeat (Received ["x"%byte], 1%Z) (S C))).
  rewrite interval_stats_latencies in H.
  cbn [SustainedLoad.latencies SustainedLoad.init app] in H.
  unfold measured in H. rewrite length_map in H.
  assert (forall n, length (filter answered
                              (repeat (Received ["x"%byte], 1%Z) n)) = n)
    as E by (induction n; simpl; congruence).
  rewrite E in H. lia.
Qed.

End StoreClaims.

(* ================================================================== *)
(** * Failed attempts and the latency samples *)
(* ================================================================== *)

Module FailureClaims.
Import Py Framer FramerFacts StoreClaims.

Lemma endpoint_mix_latencies (turns : list (str * attempt)) (ep : str) :
  EndpointMix.latencies (EndpointMix.after turns ep)
  = measured answered
      (map snd (filter (fun x => str_eqb (fst x) ep) turns)).
Proof.
  unfold EndpointMix.after.
  rewrite (unbounded_fold (fun m : EndpointMix.EndpointStats =>
                             EndpointMix.latencies (m ep))
             (fun x m => EndpointMix.worker_turn (fst x) (snd x) m)
             (fun x => if str_eqb (fst x) ep && answered (snd x)
                       then Some (snd (snd x)) else None)).
  - cbn [EndpointMix.init EndpointMix.zero EndpointMix.latencies app].
    unfold measured.
    induction turns as [|[k a] turns IH]; [reflexivity|].
    cbn [flat_map filter fst snd]. rewrite IH.
    destruct (str_eqb k ep); cbn [andb map filter snd]; [|reflexivity].
    destruct (answered a); reflexivity.
  - intros [k [[|[|b0 response]] elapsed]] m;
      unfold EndpointMix.worker_turn, EndpointMix.record;
      cbn [fst snd answered]; cbv beta;
      destruct (str_eqb k ep) eqn:E; cbn [andb];
      try reflexivity;
      apply str_eqb_eq in E; subst k; reflexivity.
Qed.

(** What one turn of spike_test.py appends to [self.data]. *)
Lemma spike_after (turns : list (Z * attempt)) :
  SpikeTest.after turns
  = map (fun x => (fst x,
                   if returned (snd x) then snd (snd x) else 0%Z,
                   answered (snd x))) turns.
Proof.
  unfold SpikeTest.after.
  assert (forall d,
             fold_left (fun data x =>
                          SpikeTest.make_request (fst x) (snd x) data) turns d
             = d ++ map (fun x => (fst x,
                                   if returned (snd x) then snd (snd x)
                                   else 0%Z,
                                   answered (snd x))) turns) as H.
  { induction turns as [|[now a] turns IH]; intros d; cbn [fold_left map];
      [rewrite app_nil_r; reflexivity|].
    rewrite IH. cbv beta. cbn [fst snd].
    destruct a as [[|response] latency];
      unfold SpikeTest.make_request, SpikeTest.record;
      rewrite <- app_assoc; cbn [app returned answered snd];
      [reflexivity|]. destruct response; reflexivity. }
  rewrite H. reflexivity.
Qed.

Lemma spike_phase_latencies (turns : list (Z * attempt)) (start stop : Z) :
  SpikeTest.phase_latencies
    (SpikeTest.get_window start stop (SpikeTest.after turns))
  = measured answered
      (map snd (filter (fun x => (start <=? fst x)%Z && (fst x <=? stop)%Z)
                       turns)).
Proof.
  rewrite spike_after.
  unfold SpikeTest.phase_latencies, SpikeTest.get_window, measured.
  induction turns as [|[now [r latency]] turns IH]; [reflexivity|].
  cbn [map filter fst snd].
  destruct ((start <=? now)%Z && (now <=? stop)%Z); [|exact IH].
  cbn [map filter snd].
  destruct r as [|[|b0 response]]; cbn [answered returned filter map];
    rewrite IH; reflexivity.
Qed.

(** C9 (amended).  The latency samples from which the statistics are
    computed hold exactly the measured latencies of the successful
    attempts, in every recorder: a failed attempt adds none.  In
    sustained_load.py, endpoint_mix.py and gradual_stress.py a failed
    attempt is passed on with latency 0, as is an attempt of
    spike_test.py that ends in an exception. *)
Theorem C9_failures_add_no_latency :
  (forall ops : list attempt,
      SustainedLoad.latencies
        (fold_left (fun s a => SustainedLoad.worker_turn a s) ops
           SustainedLoad.init)
      = measured answered ops)
  /\ (forall a : attempt,
      answered a = false -> SustainedLoad.worker_record a = (false, 0%Z, 0))
  /\ (forall (turns : list (str * attempt)) (ep : str),
      EndpointMix.latencies (EndpointMix.after turns ep)
      = measured answered
          (map snd (filter (fun x => str_eqb (fst x) ep) turns)))
  /\ (forall (ep : str) (latency : Stats.latency) (n : nat)
             (m : EndpointMix.EndpointStats) (k : str),
      EndpointMix.latencies (EndpointMix.record ep latency n false m k)
      = EndpointMix.latencies (m k))
  /\ (forall ops : list attempt,
      GradualStress.latencies
        (fold_left (fun r a => GradualStress.worker_turn a r) ops
           GradualStress.init)
      = measured returned ops)
  /\ (forall a : attempt,
      returned a = false -> GradualStress.make_request a = (false, 0%Z, 0))
  /\ (forall (turns : list (Z * attempt)) (start stop : Z),
      SpikeTest.phase_latencies
        (SpikeTest.get_window start stop (SpikeTest.after turns))
      = measured answered
          (map snd
             (filter (fun x => (start <=? fst x)%Z && (fst x <=? stop)%Z)
                     turns)))
  /\ (forall (now : Z) (elapsed : Stats.latency) (data : SpikeTest.Stats),
      SpikeTest.make_request now (Raised, elapsed) data
      = data ++ [(now, 0%Z, false)]).
Proof.
  split; [|split; [|split; [|split; [|split; [|split; [|split]]]]]].
  - intros ops. rewrite interval_stats_latencies. reflexivity.
  - intros [[|[|b0 response]] elapsed]; [reflexivity|reflexivity|discriminate].
  - exact endpoint_mix_latencies.
  - intros ep latency n m k. unfold EndpointMix.record.
    destruct (str_eqb ep k) eqn:E; [|reflexivity].
    apply str_eqb_eq in E. subst k. reflexivity.
  - intros ops. rewrite gradual_latencies. reflexivity.
  - intros [[|response] elapsed]; [reflexivity|discriminate].
  - exact spike_phase_latencies.
  - reflexivity.
Qed.

Lemma C9_failures_add_no_latency_witness :
  SustainedLoad.worker_record (Received [], 7%Z) = (false, 0%Z, 0)
  /\ GradualStress.make_request (Raised, 7%Z) = (false, 0%Z, 0).
Proof.
  destruct C9_failures_add_no_latency as (_ & H2 & _ & _ & _ & H6 & _).
  split; [apply H2; reflexivity|apply H6; reflexivity].
Defined.

(** C9, as stated, fails in spike_test.py: an attempt whose response is
    empty is recorded as failed with the latency measured for it, 7
    here, and adds an entry to the store. *)
Lemma C9_spike_counterexample :
  SpikeTest.make_request 100%Z (Received [], 7%Z) [] = [(100%Z, 7%Z, false)].
Proof. reflexivity. Qed.

End FailureClaims.

(* ================================================================== *)
(** * Reports and exit codes *)
(* ================================================================== *)

Module ReportFacts.
Import Py Percentile RankFacts PercentileClaims Report.

(** A report whose statements all print is printed whole. *)
Lemma emit_prints (stmts : list statement) :
  forallb prints stmts = true ->
  snd (emit stmts) = Ok tt /\ length (fst (emit stmts)) = length stmts.
Proof.
  induction stmts as [|st stmts IH]; simpl; [auto|].
  intros H. apply andb_true_iff in H as [H1 H2].
  specialize (IH H2). destruct (emit stmts) as [out r]. simpl in IH.
  destruct st as [s|label [v|e]]; simpl in *; try discriminate;
    destruct IH as [-> ->]; auto.
Qed.

(** A report stops at the first statement that raises: what comes
    before it is printed, the statement itself and the rest are not. *)
Lemma emit_raises (pre post : list statement) (label : string) (e : exn) :
  forallb prints pre = true ->
  emit (pre ++ Value label (Raise e) :: post)
  = (fst (emit pre), Raise e).
Proof.
  induction pre as [|st pre IH]; simpl; [reflexivity|].
  intros H. apply andb_true_iff in H as [H1 H2].
  rewrite (IH H2). destruct (emit pre) as [out r].
  destruct st as [s|l [v|e']]; simpl in *; try discriminate; reflexivity.
Qed.

Lemma nat_q_zero (n : nat) : Qeq_bool (nat_q n) 0 = (n =? 0).
Proof.
  unfold nat_q, Qeq_bool, inject_Z. simpl.
  rewrite Z.mul_1_r. destruct n; reflexivity.
Qed.


Lemma div_total (a b : Q) : ~ (b == 0)%Q -> div a b = Ok (a / b)%Q.
Proof.
  intros H. unfold div. destruct (Qeq_bool b 0) eqn:E; [|reflexivity].
  apply Qeq_bool_iff in E. contradiction.
Qed.

Lemma nat_q_nonzero (n : nat) : 0 < n -> ~ (nat_q n == 0)%Q.
Proof.
  intros Hn H. apply Qeq_bool_iff in H. rewrite nat_q_zero in H.
  apply Nat.eqb_eq in H. lia.
Qed.

Lemma py_max_total (l : list Z) : l <> [] -> exists m, py_max l = Ok m.
Proof. destruct l; [congruence|simpl; eauto]. Qed.

Lemma py_min_total (l : list Z) : l <> [] -> exists m, py_min l = Ok m.
Proof. destruct l; [congruence|simpl; eauto]. Qed.

Lemma mean_total (l : list Z) : l <> [] -> exists m, mean l = Ok m.
Proof. destruct l; [congruence|simpl; eauto]. Qed.

Lemma median_total (l : list Z) : l <> [] -> exists m, median l = Ok m.
Proof.
  intros Hne. pose proof (nonempty_length l Hne) as Hlen.
  assert (length l / 2 < length l) as Hmid by (apply Nat.div_lt; lia).
  unfold median. rewrite sorted_length.
  replace (length l =? 0) with false by (symmetry; apply Nat.eqb_neq; lia).
  destruct (index_lt (sorted l) (length l / 2)) as (b & Hb & _);
    [rewrite sorted_length; exact Hmid|].
  destruct (index_lt (sorted l) (length l / 2 - 1)) as (a & Ha & _);
    [rewrite sorted_length; lia|].
  rewrite Ha, Hb. destruct (Nat.odd (length l)); simpl; eauto.
Qed.

Lemma final_percentile_total (h : nat) (l : list Z) :
  h <= 99 -> l <> [] -> exists x, final_percentile h l = Ok x.
Proof.
  intros Hh Hne. pose proof (nonempty_length l Hne) as Hlen.
  unfold final_percentile.
  destruct (index_lt (sorted l) (int_times (length (sorted l)) h))
    as (x & Hx & _); [|eauto].
  rewrite sorted_length. unfold int_times.
  apply Nat.Div0.div_lt_upper_bound. nia.
Qed.

Lemma sorted_nonempty (l : list Z) : l <> [] -> sorted l <> [].
Proof.
  intros Hne E. apply (f_equal (@length Z)) in E.
  rewrite sorted_length in E. pose proof (nonempty_length l Hne). simpl in E.
  lia.
Qed.

(** The final report of sustained_load.py is printed whole whenever an
    attempt was counted and time has passed. *)
Lemma sustained_report_total (c f bytes : nat) (elapsed : Q) (lats : list Z) :
  0 < c + f -> ~ (elapsed == 0)%Q ->
  snd (sustained_final_report c f bytes elapsed lats) = Ok tt.
Proof.
  intros Hn He. unfold sustained_final_report. apply emit_prints.
  rewrite !forallb_app. cbn [forallb prints].
  rewrite (div_total _ _ (nat_q_nonzero _ Hn)), (div_total _ _ He).
  cbn [andb]. destruct lats as [|x lats]; [reflexivity|].
  assert (x :: lats <> []) as Hne by discriminate.
  pose proof (sorted_nonempty _ Hne) as Hs.
  destruct (py_min_total _ Hs) as [? ->].
  destruct (py_max_total _ Hs) as [? ->].
  destruct (mean_total _ Hs) as [? ->].
  destruct (median_total _ Hs) as [? ->].
  destruct (final_percentile_total 95 _ ltac:(lia) Hne) as [? ->].
  destruct (final_percentile_total 99 _ ltac:(lia) Hne) as [? ->].
  reflexivity.
Qed.

Lemma spike_overall_total (all_data : SpikeTest.Stats) :
  all_data <> [] -> snd (spike_overall all_data) = Ok tt.
Proof.
  intros Hne. unfold spike_overall. apply emit_prints.
  cbn [forallb prints].
  rewrite (div_total _ _ (nat_q_nonzero _ (nonempty_length _ Hne))).
  reflexivity.
Qed.

Lemma bomb_results_total (c f bytes : nat) (elapsed : Q) :
  0 < c + f -> ~ (elapsed == 0)%Q ->
  snd (bomb_results c f bytes elapsed) = Ok tt.
Proof.
  intros Hn He. unfold bomb_results. apply emit_prints.
  cbn [forallb prints].
  rewrite (div_total _ _ (nat_q_nonzero _ Hn)), (div_total _ _ He).
  reflexivity.
Qed.



End ReportFacts.

Module ReportClaims.
Import Py Percentile Report ReportFacts.





(** C10.  The final reports of sustained_load.py, spike_test.py and
    bomb_test.py divide by the number of attempts without a guard.
    With no attempt recorded the division raises [ZeroDivisionError]:
    the lines before the success rate are printed, the rate and the
    rest of the report are not.  With at least one attempt recorded
    (and time elapsed) the report is printed whole. *)
Theorem C10_unguarded_success_rate :
  (forall (bytes : nat) (elapsed : Q) (lats : list Z),
      sustained_final_report 0 0 bytes elapsed lats
      = ([Printed "FINAL REPORT"; PrintedValue "Duration" elapsed;
          PrintedValue "Total Requests" (nat_q 0);
          PrintedValue "Failed" (nat_q 0)],
         Raise ZeroDivisionError))
  /\ (forall (c f bytes : nat) (elapsed : Q) (lats : list Z),
      0 < c + f -> ~ (elapsed == 0)%Q ->
      snd (sustained_final_report c f bytes elapsed lats) = Ok tt)
  /\ spike_overall []
     = ([PrintedValue "Total Requests" (nat_q 0);
         PrintedValue "Success" (nat_q 0); PrintedValue "Failed" (nat_q 0)],
        Raise ZeroDivisionError)
  /\ (forall all_data : SpikeTest.Stats,
      all_data <> [] -> snd (spike_overall all_data) = Ok tt)
  /\ (forall (bytes : nat) (elapsed : Q),
      bomb_results 0 0 bytes elapsed
      = ([Printed "BOMB TEST RESULTS"; PrintedValue "Duration" elapsed;
          PrintedValue "Completed" (nat_q 0); PrintedValue "Failed" (nat_q 0)],
         Raise ZeroDivisionError))
  /\ (forall (c f bytes : nat) (elapsed : Q),
      0 < c + f -> ~ (elapsed == 0)%Q ->
      snd (bomb_results c f bytes elapsed) = Ok tt).
Proof.
  split; [|split; [|split; [|split; [|split]]]].
  - intros bytes elapsed lats. reflexivity.
  - exact sustained_report_total.
  - reflexivity.
  - exact spike_overall_total.
  - intros bytes elapsed. reflexivity.
  - exact bomb_results_total.
Qed.

Lemma C10_unguarded_success_rate_witness :
  snd (sustained_final_report 3 1 4096 (5 # 1)%Q [12; 7; 9]%Z) = Ok tt
  /\ snd (bomb_results 3 1 4096 (5 # 1)%Q) = Ok tt.
Proof.
  assert (~ (5 # 1 == 0)%Q) as He by discriminate.
  destruct C10_unguarded_success_rate as (_ & H2 & _ & _ & _ & H6).
  split; [apply H2|apply H6]; try exact He; simpl; lia.
Defined.

End ReportClaims.

(* ================================================================== *)
(** * The workload plan *)
(* ================================================================== *)

Module WorkloadFacts.
Import Py Framer FramerFacts Workload.

Lemma weighted_flat_map (table : list (str * nat)) :
  forall acc,
    fold_left (fun acc entry => acc ++ repeat (fst entry) (snd entry))
              table acc
    = acc ++ flat_map (fun entry => repeat (fst entry) (snd entry)) table.
Proof.
  induction table as [|entry table IH]; intros acc; simpl.
  - rewrite app_nil_r. reflexivity.
  - rewrite IH, app_assoc. reflexivity.
Qed.

Lemma occurrences_app (e : str) (a b : list str) :
  occurrences e (a ++ b) = occurrences e a + occurrences e b.
Proof. unfold occurrences. rewrite filter_app, length_app. reflexivity. Qed.

Lemma occurrences_repeat (e x : str) (n : nat) :
  occurrences e (repeat x n) = if str_eqb e x then n else 0.
Proof.
  unfold occurrences. induction n as [|n IH]; simpl.
  - destruct (str_eqb e x); reflexivity.
  - destruct (str_eqb e x); simpl; rewrite IH; reflexivity.
Qed.

Lemma weighted_occurrences (table : list (str * nat)) (e : str) :
  occurrences e (weighted table) = weight_of e table.
Proof.
  unfold weighted. rewrite weighted_flat_map. cbn [app].
  induction table as [|[x w] table IH]; [reflexivity|].
  cbn [flat_map weight_of fold_right fst snd].
  rewrite occurrences_app, occurrences_repeat.
  fold (weight_of e table). rewrite IH.
  destruct (str_eqb e x); reflexivity.
Qed.

Lemma weighted_length (table : list (str * nat)) :
  length (weighted table) = total_weight table.
Proof.
  unfold weighted. rewrite weighted_flat_map. cbn [app].
  induction table as [|[x w] table IH]; [reflexivity|].
  cbn [flat_map total_weight fold_right fst snd].
  rewrite length_app, repeat_length. fold (total_weight table).
  rewrite IH. reflexivity.
Qed.

(** X1.  In [WEIGHTED_ENDPOINTS] every endpoint occurs as often as the
    table weighs it, and the list is as long as the weights add up to:
    a uniform choice from it picks an endpoint with probability
    weight / total.  An endpoint is in the list exactly when the table
    gives it a positive weight.  The four tables of the scripts add up
    to 100. *)
Theorem X1_weighted_endpoints (table : list (str * nat)) (e : str) :
  occurrences e (weighted table) = weight_of e table
  /\ length (weighted table) = total_weight table
  /\ (In e (weighted table) <-> 0 < weight_of e table)
  /\ length (weighted stress_test_ENDPOINTS) = 100
  /\ length (weighted extreme_stress_ENDPOINTS) = 100
  /\ length (weighted ultra_stress_ENDPOINTS) = 100
  /\ length (weighted endpoint_mix_ENDPOINTS) = 100.
Proof.
  split; [apply weighted_occurrences|]. split; [apply weighted_length|].
  split; [|repeat split; reflexivity].
  rewrite <- weighted_occurrences. unfold occurrences. split.
  - intros Hin.
    assert (In e (filter (str_eqb e) (weighted table))) as H.
    { apply filter_In. split; [exact Hin|]. apply str_eqb_eq. reflexivity. }
    destruct (filter (str_eqb e) (weighted table)); [destruct H|simpl; lia].
  - intros Hlen.
    destruct (filter (str_eqb e) (weighted table)) as [|y l] eqn:F;
      [simpl in Hlen; lia|].
    assert (In y (filter (str_eqb e) (weighted table))) as H
      by (rewrite F; left; reflexivity).
    apply filter_In in H as [H1 H2]. apply str_eqb_eq in H2. subst y.
    exact H1.
Qed.

End WorkloadFacts.

(* ================================================================== *)
(** * StatsAggregator: counters and breakdown *)
(* ================================================================== *)

Module StatsFacts.
Import Py Framer FramerFacts Stats.

Lemma total_count_set_outside (m : str -> endpoint_stats) (k : str)
    (v : endpoint_stats) (eps : list str) :
  ~ In k eps -> total_count (set_endpoint k v m) eps = total_count m eps.
Proof.
  induction eps as [|ep eps IH]; intros H; [reflexivity|].
  cbn [total_count fold_right]. fold (total_count (set_endpoint k v m) eps).
  fold (total_count m eps). rewrite IH by (intros H'; apply H; right; exact H').
  unfold set_endpoint at 1. destruct (str_eqb k ep) eqn:E; [|reflexivity].
  apply str_eqb_eq in E. subst ep. exfalso. apply H. left. reflexivity.
Qed.

Lemma total_bytes_set_outside (m : str -> endpoint_stats) (k : str)
    (v : endpoint_stats) (eps : list str) :
  ~ In k eps -> total_bytes (set_endpoint k v m) eps = total_bytes m eps.
Proof.
  induction eps as [|ep eps IH]; intros H; [reflexivity|].
  cbn [total_bytes fold_right]. fold (total_bytes (set_endpoint k v m) eps).
  fold (total_bytes m eps). rewrite IH by (intros H'; apply H; right; exact H').
  unfold set_endpoint at 1. destruct (str_eqb k ep) eqn:E; [|reflexivity].
  apply str_eqb_eq in E. subst ep. exfalso. apply H. left. reflexivity.
Qed.

Lemma total_count_set_inside (m : str -> endpoint_stats) (k : str)
    (v : endpoint_stats) (eps : list str) :
  NoDup eps -> In k eps ->
  total_count (set_endpoint k v m) eps + ep_count (m k)
  = total_count m eps + ep_count v.
Proof.
  induction eps as [|ep eps IH]; intros Hnd Hin; [destruct Hin|].
  inversion Hnd as [|? ? Hnot Hnd']; subst.
  cbn [total_count fold_right]. fold (total_count (set_endpoint k v m) eps).
  fold (total_count m eps).
  destruct (str_eqb k ep) eqn:E.
  - apply str_eqb_eq in E. subst ep.
    rewrite total_count_set_outside by exact Hnot.
    unfold set_endpoint. rewrite (proj2 (str_eqb_eq k k) eq_refl). lia.
  - destruct Hin as [->|Hin];
      [rewrite (proj2 (str_eqb_eq k k) eq_refl) in E; discriminate|].
    specialize (IH Hnd' Hin). unfold set_endpoint at 1. rewrite E. lia.
Qed.

Lemma total_bytes_set_inside (m : str -> endpoint_stats) (k : str)
    (v : endpoint_stats) (eps : list str) :
  NoDup eps -> In k eps ->
  (total_bytes (set_endpoint k v m) eps + ep_bytes (m k)
   = total_bytes m eps + ep_bytes v)%Z.
Proof.
  induction eps as [|ep eps IH]; intros Hnd Hin; [destruct Hin|].
  inversion Hnd as [|? ? Hnot Hnd']; subst.
  cbn [total_bytes fold_right]. fold (total_bytes (set_endpoint k v m) eps).
  fold (total_bytes m eps).
  destruct (str_eqb k ep) eqn:E.
  - apply str_eqb_eq in E. subst ep.
    rewrite total_bytes_set_outside by exact Hnot.
    unfold set_endpoint. rewrite (proj2 (str_eqb_eq k k) eq_refl). lia.
  - destruct Hin as [->|Hin];
      [rewrite (proj2 (str_eqb_eq k k) eq_refl) in E; discriminate|].
    specialize (IH Hnd' Hin). unfold set_endpoint at 1. rewrite E. lia.
Qed.

Lemma total_count_initial (eps : list str) :
  total_count (per_endpoint initial) eps = 0.
Proof.
  induction eps as [|ep eps IH]; [reflexivity|].
  cbn [total_count fold_right]. fold (total_count (per_endpoint initial) eps).
  rewrite IH. reflexivity.
Qed.

Lemma total_bytes_initial (eps : list str) :
  total_bytes (per_endpoint initial) eps = 0%Z.
Proof.
  induction eps as [|ep eps IH]; [reflexivity|].
  cbn [total_bytes fold_right]. fold (total_bytes (per_endpoint initial) eps).
  rewrite IH. reflexivity.
Qed.

(** The counters and the per-endpoint sums move together. *)
Lemma breakdown_invariant (sh : shape) (eps : list str) (us : list update) :
  NoDup eps ->
  (forall u ep, In u us -> completed_endpoint u = Some ep -> In ep eps) ->
  forall s,
    total_count (per_endpoint s) eps = requests_completed s ->
    total_bytes (per_endpoint s) eps = bytes_received s ->
    let s' := fold_left (fun s u => apply sh u s) us s in
    total_count (per_endpoint s') eps = requests_completed s'
    /\ total_bytes (per_endpoint s') eps = bytes_received s'
    /\ requests_completed s'
       = requests_completed s + length (filter is_completed us)
    /\ requests_failed s'
       = requests_failed s + length (filter is_failed us).
Proof.
  intros Hnd. induction us as [|u us IH]; intros Hcov s Hc Hb.
  - cbn. repeat split; lia.
  - cbn [fold_left].
    assert (Hcov' : forall u' ep, In u' us ->
                      completed_endpoint u' = Some ep -> In ep eps)
      by (intros u' ep Hin; apply Hcov; right; exact Hin).
    destruct u as [| n | ep elapsed body_len | ].
    + destruct (IH Hcov' (apply sh ConnectionError s) Hc Hb)
        as (A & B & C & D).
      cbv zeta. split; [exact A|]. split; [exact B|].
      cbn [filter is_completed is_failed]. split; [exact C|exact D].
    + destruct (IH Hcov' (apply sh (Sent n) s) Hc Hb) as (A & B & C & D).
      cbv zeta. split; [exact A|]. split; [exact B|].
      cbn [filter is_completed is_failed]. split; [exact C|exact D].
    + assert (In ep eps) as Hin
        by (apply (Hcov (Completed ep elapsed body_len));
            [left; reflexivity|reflexivity]).
      destruct (IH Hcov' (apply sh (Completed ep elapsed body_len) s))
        as (A & B & C & D).
      * cbn [apply per_endpoint requests_completed].
        pose proof (total_count_set_inside (per_endpoint s) ep
                      {| ep_count := ep_count (per_endpoint s ep) + 1;
                         ep_bytes := (ep_bytes (per_endpoint s ep)
                                      + body_len)%Z;
                         ep_latencies :=
                           if endpoint_latencies sh
                           then ep_latencies (per_endpoint s ep) ++ [elapsed]
                           else ep_latencies (per_endpoint s ep) |}
                      eps Hnd Hin) as H.
        cbn [ep_count] in H.
        apply (proj1 (Nat.add_cancel_r _ _ (ep_count (per_endpoint s ep)))).
        rewrite H, Hc. clear. lia.
      * cbn [apply per_endpoint bytes_received].
        pose proof (total_bytes_set_inside (per_endpoint s) ep
                      {| ep_count := ep_count (per_endpoint s ep) + 1;
                         ep_bytes := (ep_bytes (per_endpoint s ep)
                                      + body_len)%Z;
                         ep_latencies :=
                           if endpoint_latencies sh
                           then ep_latencies (per_endpoint s ep) ++ [elapsed]
                           else ep_latencies (per_endpoint s ep) |}
                      eps Hnd Hin) as H.
        cbn [ep_bytes] in H.
        apply (proj1 (Z.add_cancel_r _ _ (ep_bytes (per_endpoint s ep)))).
        rewrite H, Hb. clear. lia.
      * cbv zeta. split; [exact A|]. split; [exact B|].
        cbn [filter is_completed is_failed length].
        change (requests_completed (apply sh (Completed ep elapsed body_len) s))
          with (requests_completed s + 1) in C.
        change (requests_failed (apply sh (Completed ep elapsed body_len) s))
          with (requests_failed s) in D.
        split; [rewrite C; clear; lia|exact D].
    + destruct (IH Hcov' (apply sh Failed s) Hc Hb) as (A & B & C & D).
      cbv zeta. split; [exact A|]. split; [exact B|].
      cbn [filter is_completed is_failed length].
      change (requests_completed (apply sh Failed s))
        with (requests_completed s) in C.
      change (requests_failed (apply sh Failed s))
        with (requests_failed s + 1) in D.
      split; [exact C|rewrite D; clear; lia].
Qed.

(** X2.  Whatever the workers record, the per-endpoint breakdown of the
    final report adds up to the totals: over keys that hold every
    endpoint recorded, each once, the counts add up to
    [requests_completed] and the bytes to [bytes_received]; and
    [requests_completed] and [requests_failed] are the numbers of
    completed and of failed requests recorded. *)
Theorem X2_breakdown_adds_up (sh : shape) (eps : list str)
    (us : list update) :
  NoDup eps ->
  (forall u ep, In u us -> completed_endpoint u = Some ep -> In ep eps) ->
  total_count (per_endpoint (after sh us)) eps
  = requests_completed (after sh us)
  /\ total_bytes (per_endpoint (after sh us)) eps
     = bytes_received (after sh us)
  /\ requests_completed (after sh us) = length (filter is_completed us)
  /\ requests_failed (after sh us) = length (filter is_failed us).
Proof.
  intros Hnd Hcov. unfold after.
  destruct (breakdown_invariant sh eps us Hnd Hcov initial
              (total_count_initial eps) (total_bytes_initial eps))
    as (A & B & C & D).
  cbv zeta in *. split; [exact A|]. split; [exact B|].
  cbn [initial requests_completed requests_failed] in C, D.
  split; [exact C|exact D].
Qed.

Lemma X2_breakdown_adds_up_witness :
  total_count
    (per_endpoint
       (after Scripts.capped
          [Completed (of_string "/") 3%Z 10%Z; Failed;
           Completed (of_string "/huge") 9%Z 2000%Z;
           Completed (of_string "/") 4%Z 10%Z]))
    [of_string "/"; of_string "/huge"]
  = 3.
Proof.
  assert (NoDup [of_string "/"; of_string "/huge"]) as Hnd.
  { constructor; [intros [H|[]]; discriminate|].
    constructor; [intros []|constructor]. }
  destruct (X2_breakdown_adds_up Scripts.capped
              [of_string "/"; of_string "/huge"]
              [Completed (of_string "/") 3%Z 10%Z; Failed;
               Completed (of_string "/huge") 9%Z 2000%Z;
               Completed (of_string "/") 4%Z 10%Z] Hnd) as (A & _ & C & _).
  - intros u ep Hin Hep.
    repeat (destruct Hin as [<-|Hin]; [simpl in Hep; try discriminate;
      injection Hep as <-; simpl; auto|]). destruct Hin.
  - rewrite A, C. reflexivity.
Defined.

End StatsFacts.

(* ================================================================== *)
(** * The worker loop: what becomes of the tasks *)
(* ================================================================== *)

Module WorkerAccounting.
Import Py Net Framer Worker WorkerRun.

(** The outcomes recorded for a list of events: requests completed,
    requests failed, tasks put back. *)
Lemma outcomes_app (a b : list event) :
  count is_completed (a ++ b) + count is_failed (a ++ b)
  + count is_put (a ++ b)
  = (count is_completed a + count is_failed a + count is_put a)
    + (count is_completed b + count is_failed b + count is_put b).
Proof. rewrite !count_app. lia. Qed.

Lemma count_cons (f : event -> bool) (ev : event) (l : list event) :
  count f (ev :: l) = (if f ev then 1 else 0) + count f l.
Proof. unfold count. cbn [filter]. destruct (f ev); reflexivity. Qed.

Ltac tally :=
  rewrite ?count_app, ?count_cons;
  cbn [is_completed is_failed is_put is_sent is_connection_error].

Lemma on_failure_outcomes (p : profile) (w : local) (c : conn) :
  forall evs w' k,
    on_failure p w c = (evs, w', k) ->
    count is_completed evs = 0 /\ count is_failed evs = 1
    /\ count is_put evs = 0 /\ count is_sent evs = 0
    /\ count is_connection_error evs = 0 /\ k = Continue.
Proof.
  unfold on_failure. intros evs w' k [= <- <- <-].
  destruct (failure_pause p); cbn; repeat split; reflexivity.
Qed.

(** The send block records one outcome: completed or failed. *)
Lemma exchange_outcomes (p : profile) (e : env) (w : local) (t : task)
    (c : conn) :
  forall evs w' k,
    exchange p e w t c = (evs, w', k) ->
    count is_completed evs + count is_failed evs = 1
    /\ count is_put evs = 0
    /\ count is_connection_error evs = 0
    /\ count is_completed evs <= count is_sent evs
    /\ count is_sent evs <= 1
    /\ k = Continue.
Proof.
  unfold exchange. intros evs w' k.
  destruct (is_open c && sent e).
  - destruct (receive p (rx c)) as [[[st bl]|ex] rx'].
    + intros [= <- <- <-]. cbn. repeat split; lia.
    + destruct (on_failure p w c) as [[evs0 w0] k0] eqn:F.
      destruct (on_failure_outcomes p w c _ _ _ F)
        as (A & B & C & D & E & K).
      intros [= <- <- <-]. tally. rewrite A, B, C, D, E.
      repeat split; try lia. exact K.
  - destruct (is_open c).
    + destruct (on_failure p w c) as [[evs0 w0] k0] eqn:F.
      destruct (on_failure_outcomes p w c _ _ _ F)
        as (A & B & C & D & E & K).
      intros [= <- <- <-]. tally. rewrite A, B, C, D, E.
      repeat split; try lia. exact K.
    + intros F.
      destruct (on_failure_outcomes p w c _ _ _ F)
        as (A & B & C & D & E & K).
      rewrite A, B, C, D, E. repeat split; try lia. exact K.
Qed.

(** The connection block records an outcome only when it ends the turn:
    a failure, or a connection error with the task put back. *)
Lemma ensure_connection_outcomes (p : profile) (e : env) (w : local)
    (t : task) :
  forall evs w' r,
    ensure_connection p e w t = (evs, w', r) ->
    count is_completed evs = 0
    /\ count is_sent evs = 0
    /\ count is_put evs = count is_connection_error evs
    /\ count is_failed evs + count is_put evs
       = match r with Some _ => 0 | None => 1 end.
Proof.
  unfold ensure_connection. intros evs w' r.
  assert (forall old : list event,
             count is_completed old = 0 -> count is_sent old = 0 ->
             count is_put old = 0 -> count is_connection_error old = 0 ->
             count is_failed old = 0 ->
             (if negb (socket_created e)
              then (old ++ [EvStats Stats.Failed],
                    set_sock w (option_map closed (sock w))
                      (requests_on_conn w), None)
              else
                match connected e with
                | None =>
                    (old ++ [EvConnectFailed; EvStats Stats.ConnectionError;
                             EvPut t; EvSleep (connect_backoff p)],
                     {| sock := None; requests_on_conn := requests_on_conn w;
                        next_cid := S (next_cid w) |}, None)
                | Some rx0 =>
                    (old ++ [EvConnect (next_cid w)],
                     {| sock := Some {| cid := next_cid w; rx := rx0;
                                        is_open := true |};
                        requests_on_conn := 0;
                        next_cid := S (next_cid w) |},
                     Some {| cid := next_cid w; rx := rx0;
                             is_open := true |})
                end) = (evs, w', r) ->
             count is_completed evs = 0
             /\ count is_sent evs = 0
             /\ count is_put evs = count is_connection_error evs
             /\ count is_failed evs + count is_put evs
                = match r with Some _ => 0 | None => 1 end) as Hre.
  { intros old A B C D E.
    destruct (socket_created e); cbn [negb].
    - destruct (connected e) as [rx0|]; intros [= <- <- <-];
        rewrite !count_app, A, B, C, D, E; cbn; repeat split; lia.
    - intros [= <- <- <-].
      rewrite !count_app, A, B, C, D, E; cbn; repeat split; lia. }
  destruct (sock w) as [c|].
  - destruct (requests_on_conn w <? REQUESTS_PER_CONNECTION p).
    + intros [= <- <- <-]. cbn. repeat split; reflexivity.
    + apply Hre; reflexivity.
  - apply Hre; reflexivity.
Qed.

(** One turn: a task taken off the queue gets exactly one outcome, a
    turn without a task none; the loop is left exactly by the turns
    that find the flag cleared or take the stop marker. *)
Lemma step_outcomes (p : profile) (e : env) (w : local) :
  forall evs w' k,
    step p e w = (evs, w', k) ->
    count is_completed evs + count is_failed evs + count is_put evs
    = (if takes_task e then 1 else 0)
    /\ count is_put evs = count is_connection_error evs
    /\ count is_completed evs <= count is_sent evs
    /\ count is_sent evs <= (if takes_task e then 1 else 0)
    /\ (k = Break <-> leaves e = true).
Proof.
  unfold step, takes_task, leaves. intros evs w' k.
  destruct (running e); cbn [negb andb orb].
  - destruct (dequeued e) as [|[t|]].
    + intros [= <- <- <-]. cbn. repeat split; try lia; discriminate.
    + destruct (ensure_connection p e w t) as [[evs0 w0] r] eqn:F.
      destruct (ensure_connection_outcomes p e w t _ _ _ F)
        as (A & B & C & D).
      destruct r as [c|].
      * destruct (exchange p e w0 t c) as [[evs1 w1] k1] eqn:G.
        destruct (exchange_outcomes p e w0 t c _ _ _ G)
          as (A' & B' & C' & D' & E' & K).
        intros [= <- <- <-]. rewrite !count_app. subst k1.
        repeat split; try lia; discriminate.
      * intros [= <- <- <-]. repeat split; try lia; discriminate.
    + intros [= <- <- <-]. cbn. repeat split; try lia; reflexivity.
  - intros [= <- <- <-]. cbn. repeat split; try lia; reflexivity.
Qed.

Lemma cleanup_outcomes (w : local) :
  count is_completed (cleanup w) = 0 /\ count is_failed (cleanup w) = 0
  /\ count is_put (cleanup w) = 0 /\ count is_sent (cleanup w) = 0
  /\ count is_connection_error (cleanup w) = 0.
Proof. unfold cleanup. destruct (sock w); cbn; repeat split; reflexivity. Qed.

(** X3.  Over a whole run of the worker, whatever the network does:
    every task taken off the queue ends in exactly one of three ways,
    counted as completed, counted as failed, or put back on the queue;
    a task is put back exactly when a connection error is counted; and
    no request is counted as completed without having been counted as
    sent. *)
Theorem X3_every_task_has_one_outcome (p : profile) (envs : list env) :
  forall w : local,
    let tr := fst (run p envs w) in
    let taken := length (filter takes_task (turns_taken envs)) in
    count is_completed tr + count is_failed tr + count is_put tr = taken
    /\ count is_put tr = count is_connection_error tr
    /\ count is_completed tr <= count is_sent tr
    /\ count is_sent tr <= taken.
Proof.
  induction envs as [|e envs IH]; intros w; cbv zeta.
  - cbn. repeat split; lia.
  - cbn [run turns_taken].
    destruct (step p e w) as [[evs w'] k] eqn:S.
    destruct (step_outcomes p e w _ _ _ S) as (A & B & C & D & K).
    destruct k.
    + assert (leaves e = false) as L.
      { destruct (leaves e); [|reflexivity].
        destruct K as [_ K]. discriminate (K eq_refl). }
      rewrite L. specialize (IH w'). cbv zeta in IH.
      destruct (run p envs w') as [evs' w''].
      cbn [fst filter] in *. destruct IH as (A' & B' & C' & D').
      rewrite !count_app.
      destruct (takes_task e); cbn [length]; repeat split; lia.
    + rewrite (proj1 K eq_refl). cbn [fst filter].
      destruct (cleanup_outcomes w') as (A' & B' & C' & D' & E').
      rewrite !count_app, A', B', C', D', E'.
      destruct (takes_task e); cbn [length]; repeat split; lia.
Qed.

End WorkerAccounting.

(* ================================================================== *)
(** * The worker threads and their queue *)
(* ================================================================== *)

Module PoolFacts.
Import Py Net Framer Worker WorkerRun WorkerAccounting Pool.

(** What the events of a turn do to the counters and to the queue. *)
Lemma effects_counts (p : profile) (evs : list event) :
  forall sh : shared,
    Stats.requests_completed (the_stats (effects p evs sh))
    = Stats.requests_completed (the_stats sh) + count is_completed evs
    /\ Stats.requests_failed (the_stats (effects p evs sh))
       = Stats.requests_failed (the_stats sh) + count is_failed evs
    /\ Stats.connection_errors (the_stats (effects p evs sh))
       = Stats.connection_errors (the_stats sh)
         + count is_connection_error evs
    /\ exists added,
         request_queue (effects p evs sh)
         = request_queue sh ++ map Some added
         /\ length added = count is_put evs.
Proof.
  induction evs as [|ev evs IH]; intros sh.
  - cbn. repeat split; try lia. exists []. rewrite app_nil_r. split; reflexivity.
  - unfold effects. cbn [fold_left]. fold (effects p evs (effect p ev sh)).
    destruct (IH (effect p ev sh)) as (A & B & C & added & D & E).
    rewrite A, B, C, D. rewrite !count_cons.
    destruct ev as [c|c| |c served t|u|t|ms];
      cbn [effect the_stats request_queue is_completed is_failed is_put
           is_connection_error];
      try (repeat split; try lia; exists added; split; [reflexivity|lia]).
    + destruct u as [|n|ep el bl|];
        cbn [Stats.apply Stats.requests_completed Stats.requests_failed
             Stats.connection_errors];
        repeat split; try lia; exists added; split; try reflexivity; lia.
    + repeat split; try lia. exists (t :: added).
      rewrite <- app_assoc. split; [reflexivity|cbn [length]; lia].
Qed.

Lemma replace_count (f : thread -> bool) (th' : thread) :
  forall (ths : list thread) (i : nat) (th : thread),
    nth_error ths i = Some th ->
    length (filter f (replace i th' ths)) + (if f th then 1 else 0)
    = length (filter f ths) + (if f th' then 1 else 0).
Proof.
  induction ths as [|th0 ths IH]; intros [|i] th H; try discriminate.
  - injection H as ->. cbn [replace filter].
    destruct (f th), (f th'); cbn [length]; lia.
  - cbn [nth_error] in H. cbn [replace filter]. specialize (IH i th H).
    destruct (f th0); cbn [length]; lia.
Qed.

(** What holds of the pool at every moment: the queue is what is left
    of the tasks [main] queued, then stop markers, at least one for
    each thread still in its loop, then the tasks put back; and every
    task taken so far is held by a thread or has had its outcome
    counted. *)
Lemma pool_invariant (p : profile) (n : nat) (tasks : list task)
    (acts : list action) :
  forall st : pool,
    (exists k pills requeued,
        request_queue (common st)
        = map Some (skipn k tasks) ++ repeat None pills ++ map Some requeued
        /\ k <= length tasks
        /\ length (filter in_loop (threads st)) <= pills
        /\ length requeued
           = Stats.connection_errors (the_stats (common st))
        /\ done st + Stats.connection_errors (the_stats (common st))
           + length (filter has_task (threads st)) = k) ->
    exists k pills requeued,
      request_queue (common (play p acts st))
      = map Some (skipn k tasks) ++ repeat None pills ++ map Some requeued
      /\ k <= length tasks
      /\ length (filter in_loop (threads (play p acts st))) <= pills
      /\ length requeued
         = Stats.connection_errors (the_stats (common (play p acts st)))
      /\ done (play p acts st)
         + Stats.connection_errors (the_stats (common (play p acts st)))
         + length (filter has_task (threads (play p acts st))) = k.
Proof.
  induction acts as [|a acts IH]; intros st H; [exact H|].
  unfold play. cbn [fold_left]. fold (play p acts (act p a st)).
  apply IH. clear IH.
  destruct H as (k & pills & requeued & Q & K & L & R & D).
  destruct a as [i running_now|i e]; cbn [act].
  - destruct (nth_error (threads st) i) as [[w|w t|]|] eqn:N;
      try (exists k, pills, requeued; repeat split; assumption).
    pose proof (replace_count in_loop Returned _ _ _ N) as CL.
    pose proof (replace_count has_task Returned _ _ _ N) as CH.
    cbn [in_loop has_task] in CL, CH.
    destruct running_now; cbn [negb].
    + destruct (skipn k tasks) as [|t rest] eqn:Sk.
      * destruct pills as [|pills]; [lia|].
        rewrite Q. cbn [map app repeat].
        exists k, pills, requeued. unfold done in *.
        cbn [threads common take the_stats request_queue].
        rewrite Sk. cbn [map app].
        repeat split; try assumption; lia.
      * rewrite Q. cbn [map app].
        pose proof (replace_count in_loop (Holding w t) _ _ _ N) as CL'.
        pose proof (replace_count has_task (Holding w t) _ _ _ N) as CH'.
        cbn [in_loop has_task] in CL', CH'.
        assert (skipn (S k) tasks = rest /\ S k <= length tasks) as [S' K'].
        { clear - Sk. revert k Sk.
          induction tasks as [|t0 tasks IH]; intros [|k] Sk;
            cbn [skipn] in *; try discriminate.
          - injection Sk as -> ->. split; [reflexivity|cbn [length]; lia].
          - destruct (IH k Sk) as [A B]. split; [exact A|cbn [length]; lia]. }
        exists (S k), pills, requeued. unfold done in *.
        cbn [threads common take the_stats request_queue].
        rewrite S'. repeat split; try assumption; lia.
    + exists k, pills, requeued. unfold done in *. cbn [threads common].
      repeat split; try assumption; lia.
  - destruct (nth_error (threads st) i) as [[w|w t|]|] eqn:N;
      try (exists k, pills, requeued; repeat split; assumption).
    destruct (step p (holding e t) w) as [[evs w'] k0] eqn:St.
    destruct (step_outcomes p (holding e t) w _ _ _ St) as (A & B & _).
    cbn [takes_task holding running dequeued andb] in A.
    destruct (effects_counts p evs (common st))
      as (E1 & E2 & E3 & added & E4 & E5).
    pose proof (replace_count in_loop (Waiting w') _ _ _ N) as CL.
    pose proof (replace_count has_task (Waiting w') _ _ _ N) as CH.
    cbn [in_loop has_task] in CL, CH.
    exists k, pills, (requeued ++ added). unfold done in *.
    cbn [threads common]. rewrite E1, E2, E3, E4, Q.
    rewrite map_app, <- !app_assoc, length_app.
    repeat split; try assumption; lia.
Qed.

(** X4.  In the three queue-driven scripts a task put back on the queue
    after a failed connect is never taken again.  Whatever the threads
    and the network do, the queue holds what is left of the tasks
    [main] queued, then stop markers, at least one for every thread
    still in its loop, then the tasks put back: a thread takes a stop
    marker and leaves before it reaches them.  So
    [completed + failed], the number [main] waits on, stays below the
    number of tasks by at least the number of connection errors.  With
    one thread and one task, a connect that fails leaves the task on
    the queue, the thread gone and nothing counted. *)
Theorem X4_task_put_back_is_never_served (p : profile) (n : nat)
    (tasks : list task) (acts : list action) :
  let st := play p acts (launch n tasks) in
  (exists k pills requeued,
      request_queue (common st)
      = map Some (skipn k tasks) ++ repeat None pills ++ map Some requeued
      /\ length (filter in_loop (threads st)) <= pills
      /\ length requeued = Stats.connection_errors (the_stats (common st)))
  /\ done st + Stats.connection_errors (the_stats (common st))
     <= length tasks
  /\ (forall t : task,
        let st1 := play p [Get 0 true; Finish 0 (Samples.turn None true);
                           Get 0 true] (launch 1 [t]) in
        threads st1 = [Returned]
        /\ request_queue (common st1) = [Some t]
        /\ done st1 = 0).
Proof.
  cbv zeta. split; [|split; [|intros t; repeat split; reflexivity]].
  all: destruct (pool_invariant p n tasks acts (launch n tasks))
         as (k & pills & requeued & Q & K & L & R & D);
    try (exists 0, n, []; unfold done; cbn -[filter];
         rewrite app_nil_r; repeat split; try lia;
         clear; induction n as [|n IH];
         cbn [repeat filter in_loop has_task length] in *; lia).
  - exists k, pills, requeued. repeat split; assumption.
  - lia.
Qed.

End PoolFacts.

(* ================================================================== *)
(** * The worker loop: sockets at exit *)
(* ================================================================== *)

Module WorkerExit.
Import Py Net Framer Worker WorkerRun WorkerAccounting.

Ltac close_counts :=
  rewrite ?count_app, ?count_cons;
  cbn [is_close_of is_connect_of count filter length cid] in *;
  repeat match goal with
         | |- context [Nat.eqb ?a ?b] => destruct (Nat.eqb_spec a b)
         | H : context [Nat.eqb ?a ?b] |- _ => destruct (Nat.eqb_spec a b)
         end;
  try lia.

(** A socket held when the send block starts is held or closed when it
    ends, and the block opens none. *)
Lemma exchange_closes (p : profile) (e : env) (w : local) (t : task)
    (c0 : conn) :
  forall evs w' k,
    exchange p e w t c0 = (evs, w', k) ->
    count (is_connect_of (cid c0)) evs = 0
    /\ (forall c, c <> cid c0 -> count (is_connect_of c) evs = 0)
    /\ (0 < count (is_close_of (cid c0)) evs
        \/ option_map cid (sock w') = Some (cid c0)).
Proof.
  unfold exchange, on_failure, set_sock. intros evs w' k.
  destruct (is_open c0 && sent e).
  - destruct (receive p (rx c0)) as [[[st bl]|ex] rx'];
      intros [= <- <- <-].
    + split; [reflexivity|]. split; [reflexivity|]. right. reflexivity.
    + split; [destruct (failure_pause p); reflexivity|].
      split; [intros; destruct (failure_pause p); reflexivity|].
      left. destruct (failure_pause p); close_counts.
  - destruct (is_open c0); intros [= <- <- <-].
    + split; [destruct (failure_pause p); reflexivity|].
      split; [intros; destruct (failure_pause p); reflexivity|].
      left. destruct (failure_pause p); close_counts.
    + split; [destruct (failure_pause p); reflexivity|].
      split; [intros; destruct (failure_pause p); reflexivity|].
      left. destruct (failure_pause p); close_counts.
Qed.

(** One turn: a socket held at its start, or opened in it, is closed in
    it or held at its end. *)
Lemma step_closes (p : profile) (e : env) (w : local) :
  forall evs w' k,
    step p e w = (evs, w', k) ->
    forall c,
      option_map cid (sock w) = Some c \/ 0 < count (is_connect_of c) evs ->
      0 < count (is_close_of c) evs \/ option_map cid (sock w') = Some c.
Proof.
  unfold step. intros evs w' k.
  destruct (negb (running e)); [intros [= <- <- <-] c [H|H];
                                [right; exact H|cbn in H; lia]|].
  destruct (dequeued e) as [|[t|]];
    try (intros [= <- <- <-] c [H|H]; [right; exact H|cbn in H; lia]).
  unfold ensure_connection.
  assert (forall old : list event,
    (forall c, count (is_connect_of c) old = 0) ->
    (forall c, option_map cid (sock w) = Some c ->
               0 < count (is_close_of c) old) ->
    (let '(evs0, w1, r) :=
       if negb (socket_created e)
       then (old ++ [EvStats Stats.Failed],
             set_sock w (option_map closed (sock w)) (requests_on_conn w),
             None)
       else
         match connected e with
         | None =>
             (old ++ [EvConnectFailed; EvStats Stats.ConnectionError;
                      EvPut t; EvSleep (connect_backoff p)],
              {| sock := None; requests_on_conn := requests_on_conn w;
                 next_cid := S (next_cid w) |}, None)
         | Some rx0 =>
             (old ++ [EvConnect (next_cid w)],
              {| sock := Some {| cid := next_cid w; rx := rx0;
                                 is_open := true |};
                 requests_on_conn := 0;
                 next_cid := S (next_cid w) |},
              Some {| cid := next_cid w; rx := rx0; is_open := true |})
         end in
     match r with
     | Some c0 =>
         let '(evs', w2, k0) := exchange p e w1 t c0 in (evs0 ++ evs', w2, k0)
     | None => (evs0, w1, Continue)
     end) = (evs, w', k) ->
    forall c,
      option_map cid (sock w) = Some c \/ 0 < count (is_connect_of c) evs ->
      0 < count (is_close_of c) evs \/ option_map cid (sock w') = Some c)
    as Hre.
  { intros old Hnone Hold.
    destruct (socket_created e); cbn [negb].
    - destruct (connected e) as [rx0|].
      + set (c1 := {| cid := next_cid w; rx := rx0; is_open := true |}).
        set (w1 := {| sock := Some c1; requests_on_conn := 0;
                      next_cid := S (next_cid w) |}).
        destruct (exchange p e w1 t c1) as [[evs' w2] k0] eqn:X.
        destruct (exchange_closes p e w1 t c1 _ _ _ X) as (A & B & C).
        intros [= <- <- <-] c [H|H].
        * left. specialize (Hold c H). rewrite !count_app. lia.
        * rewrite !count_app, Hnone in H. cbn [cid c1] in *.
          destruct (Nat.eq_dec c (next_cid w)) as [->|Hne].
          -- destruct C as [C|C]; [left; rewrite !count_app; lia|].
             right. exact C.
          -- exfalso. rewrite (B c Hne) in H.
             rewrite count_cons in H. cbn [is_connect_of] in H.
             destruct (Nat.eqb_spec c (next_cid w)); [contradiction|].
             cbn in H. lia.
      + intros [= <- <- <-] c [H|H].
        * left. specialize (Hold c H). rewrite !count_app. lia.
        * rewrite !count_app, Hnone in H. cbn in H. lia.
    - intros [= <- <- <-] c [H|H].
      + left. specialize (Hold c H). rewrite !count_app. lia.
      + rewrite !count_app, Hnone in H. cbn in H. lia. }
  destruct (sock w) as [c0|] eqn:Sw.
  - destruct (requests_on_conn w <? REQUESTS_PER_CONNECTION p).
    + destruct (exchange p e w t c0) as [[evs' w2] k0] eqn:X.
      destruct (exchange_closes p e w t c0 _ _ _ X) as (A & B & C).
      intros [= <- <- <-] c [H|H].
      * cbn [option_map] in H. injection H as <-. cbn [app]. exact C.
      * cbn [app] in H. destruct (Nat.eq_dec c (cid c0)) as [->|Hne];
          [lia|rewrite (B c Hne) in H; lia].
    + apply Hre.
      * intros c. reflexivity.
      * intros c H. cbn [option_map] in H. injection H as <-.
        rewrite count_cons. cbn [is_close_of]. rewrite Nat.eqb_refl. lia.
  - apply Hre.
    + intros c. reflexivity.
    + intros c H. discriminate H.
Qed.

Lemma run_closes (p : profile) (envs : list env) :
  forall w : local,
    existsb leaves envs = true ->
    forall c,
      option_map cid (sock w) = Some c
      \/ 0 < count (is_connect_of c) (fst (run p envs w)) ->
      0 < count (is_close_of c) (fst (run p envs w)).
Proof.
  induction envs as [|e envs IH]; intros w L c H; [discriminate L|].
  cbn [run] in *. destruct (step p e w) as [[evs w'] k] eqn:S.
  pose proof (step_closes p e w _ _ _ S c) as SC.
  destruct (step_outcomes p e w _ _ _ S) as (_ & _ & _ & _ & K).
  destruct k.
  - assert (leaves e = false) as Le.
    { destruct (leaves e); [|reflexivity].
      destruct K as [_ K]. discriminate (K eq_refl). }
    cbn [existsb] in L. rewrite Le in L. cbn [orb] in L.
    specialize (IH w' L c).
    destruct (run p envs w') as [evs' w''].
    cbn [fst] in *. rewrite count_app in *.
    assert (option_map cid (sock w) = Some c
            \/ 0 < count (is_connect_of c) evs
            \/ 0 < count (is_connect_of c) evs') as H'
      by (destruct H as [H|H]; [left; exact H|right; lia]).
    destruct H' as [H'|[H'|H']].
    + destruct (SC (or_introl H')) as [G|G]; [lia|].
      specialize (IH (or_introl G)). lia.
    + destruct (SC (or_intror H')) as [G|G]; [lia|].
      specialize (IH (or_introl G)). lia.
    + specialize (IH (or_intror H')). lia.
  - cbn [fst] in *. rewrite count_app in *.
    assert (count (is_connect_of c) (cleanup w') = 0) as Z
      by (unfold cleanup; destruct (sock w'); reflexivity).
    assert (option_map cid (sock w) = Some c
            \/ 0 < count (is_connect_of c) evs) as H'
      by (destruct H as [H|H]; [left; exact H|right; lia]).
    destruct (SC H') as [G|G]; [lia|].
    unfold cleanup. destruct (sock w') as [c0|]; [|discriminate G].
    cbn [option_map] in G. injection G as <-.
    rewrite count_cons. cbn [is_close_of]. rewrite Nat.eqb_refl. lia.
Qed.

(** X5.  A worker that leaves its loop, on the stop marker or on the
    cleared flag, leaves no connection behind: every connection it
    opened has been closed by then, after a failure, at the limit of
    requests or by the cleanup after the loop. *)
Theorem X5_no_connection_left_open (p : profile) (envs : list env)
    (c : nat) :
  existsb leaves envs = true ->
  0 < count (is_connect_of c) (fst (run p envs start)) ->
  0 < count (is_close_of c) (fst (run p envs start)).
Proof.
  intros L H. apply run_closes; [exact L|right; exact H].
Qed.

Lemma X5_no_connection_left_open_witness :
  0 < count (is_close_of 0)
        (fst (run Scripts.stress_test
                [Samples.turn (Some (Samples.stream [Samples.response_5]))
                   true;
                 {| running := true; dequeued := Item None;
                    socket_created := true; connected := None;
                    sent := true; elapsed := 0%Z |}]
                start)).
Proof.
  apply X5_no_connection_left_open; [reflexivity|vm_compute; lia].
Defined.

End WorkerExit.

(* ================================================================== *)
(** * sustained_load.py: intervals and totals *)
(* ================================================================== *)

Module SustainedLoopFacts.
Import Py SustainedLoad SustainedLoop.

(** What a worker's turn adds to the [IntervalStats] object. *)
Lemma worker_turn_adds (a : attempt) (s : IntervalStats) :
  completed (worker_turn a s)
  = completed s + length (filter answered [a])
  /\ failed (worker_turn a s)
     = failed s + length (filter (fun a => negb (answered a)) [a])
  /\ bytes_received (worker_turn a s) = bytes_received s + bytes_of [a]
  /\ latencies (worker_turn a s) = latencies s ++ measured answered [a].
Proof.
  destruct a as [[|[|b0 response]] elapsed]; cbn;
    rewrite ?app_nil_r; repeat split; lia.
Qed.

Lemma bytes_of_app (a b : list attempt) :
  bytes_of (a ++ b) = bytes_of a + bytes_of b.
Proof.
  induction a as [|x a IH]; [reflexivity|].
  destruct x as [[|response] elapsed]; cbn [app bytes_of fold_right];
    fold (bytes_of (a ++ b)); fold (bytes_of a); lia.
Qed.

(** Accumulators and object together hold every record made. *)
Lemma observe_conserves (ops : list op) :
  forall st : IntervalStats * totals,
    let st' := fold_left (fun st o => observe o st) ops st in
    total_completed (snd st') + completed (fst st')
    = total_completed (snd st) + completed (fst st)
      + length (filter answered (attempts_of ops))
    /\ total_failed (snd st') + failed (fst st')
       = total_failed (snd st) + failed (fst st)
         + length (filter (fun a => negb (answered a)) (attempts_of ops))
    /\ total_bytes (snd st') + bytes_received (fst st')
       = total_bytes (snd st) + bytes_received (fst st)
         + bytes_of (attempts_of ops)
    /\ all_latencies (snd st') ++ latencies (fst st')
       = (all_latencies (snd st) ++ latencies (fst st))
         ++ measured answered (attempts_of ops).
Proof.
  induction ops as [|o ops IH]; intros st; cbv zeta.
  - cbn. rewrite app_nil_r.
    split; [lia|]. split; [lia|]. split; [lia|]. reflexivity.
  - cbn [fold_left]. specialize (IH (observe o st)). cbv zeta in IH.
    destruct IH as (A & B & C & D). rewrite A, B, C, D. clear A B C D.
    destruct o as [a|]; cbn [observe attempts_of flat_map fst snd].
    + fold (attempts_of ops).
      destruct (worker_turn_adds a (fst st)) as (A & B & C & D).
      rewrite A, B, C, D.
      change (a :: nil ++ attempts_of ops) with ([a] ++ attempts_of ops).
      unfold measured. rewrite !filter_app, !length_app, map_app, bytes_of_app.
      rewrite <- !app_assoc.
      split; [lia|]. split; [lia|]. split; [lia|]. reflexivity.
    + fold (attempts_of ops). unfold reset.
      cbn [fst snd total_completed total_failed total_bytes all_latencies
           init completed failed bytes_received latencies].
      change ([] ++ attempts_of ops) with (attempts_of ops).
      rewrite app_nil_r.
      split; [lia|]. split; [lia|]. split; [lia|]. reflexivity.
Qed.

(** X6.  The reporting loop of sustained_load.py loses no record and
    counts none twice: at every moment the accumulators and the
    [IntervalStats] object together hold every attempt recorded, the
    latencies in the order recorded.  The final report is made from
    the accumulators alone: it counts the attempts recorded before the
    last [reset] and leaves out those recorded after it. *)
Theorem X6_intervals_add_up (ops : list op) (late : list attempt) :
  let st := after ops in
  let final := snd (after (ops ++ Interval :: map Recorded late)) in
  (total_completed (snd st) + completed (fst st)
   = length (filter answered (attempts_of ops))
   /\ total_failed (snd st) + failed (fst st)
      = length (filter (fun a => negb (answered a)) (attempts_of ops))
   /\ total_bytes (snd st) + bytes_received (fst st)
      = bytes_of (attempts_of ops)
   /\ all_latencies (snd st) ++ latencies (fst st)
      = measured answered (attempts_of ops))
  /\ (total_completed final = length (filter answered (attempts_of ops))
      /\ total_failed final
         = length (filter (fun a => negb (answered a)) (attempts_of ops))
      /\ total_bytes final = bytes_of (attempts_of ops)
      /\ all_latencies final = measured answered (attempts_of ops)).
Proof.
  cbv zeta. unfold after.
  pose proof (observe_conserves ops (init, zero)) as H. cbv zeta in H.
  cbn [fst snd init zero total_completed total_failed total_bytes
       all_latencies completed failed bytes_received latencies app] in H.
  split; [exact H|].
  rewrite fold_left_app. cbn [fold_left].
  set (st := fold_left (fun st o => observe o st) ops (init, zero)) in *.
  assert (forall st0 : IntervalStats * totals,
             snd (fold_left (fun st o => observe o st) (map Recorded late) st0)
             = snd st0) as L.
  { induction late as [|a late IH]; intros st0; [reflexivity|].
    cbn [map fold_left]. rewrite IH. reflexivity. }
  rewrite L. cbn [observe reset snd total_completed total_failed total_bytes
                  all_latencies].
  destruct H as (A & B & C & D). repeat split; assumption.
Qed.

End SustainedLoopFacts.

(* ================================================================== *)
(** * The read loops of the scripts without [parse_response] *)
(* ================================================================== *)

Module ReadsFacts.
Import Py Net Framer PyFacts NetFacts FramerFacts Reads.

(** ** Reading until the peer closes *)

Lemma read_to_close_enough (bufsize : Z) (fuel : nat) :
  forall (response : bytes) (s : socket),
    sock_size s < fuel ->
    exists r, read_to_close bufsize fuel response s = Some r.
Proof.
  induction fuel as [|fuel IH]; intros response s Hf; [lia|].
  cbn [read_to_close].
  destruct (recv bufsize s) as [[chunk|e] s1] eqn:R; [|eexists; reflexivity].
  pose proof (recv_size _ _ R) as Hs.
  destruct chunk as [|b chunk]; [eexists; reflexivity|].
  cbn [length] in Hs. apply IH. lia.
Qed.

Lemma read_to_close_all (bufsize : Z) (fuel : nat) :
  forall (response : bytes) (s : socket),
    (0 < bufsize)%Z -> well_formed s -> sock_size s < fuel ->
    read_to_close bufsize fuel response s
    = Some (match at_end s with
            | PeerClosed => Ok (response ++ concat (pending s))
            | RecvRaises e => Raise e
            end,
            {| pending := []; at_end := at_end s |}).
Proof.
  induction fuel as [|fuel IH]; intros response s Hb W Hf; [lia|].
  cbn [read_to_close].
  destruct (pending s) as [|seg segs] eqn:P.
  - rewrite (recv_at_end bufsize s P).
    rewrite <- (socket_eta s P eq_refl).
    destruct (at_end s); [|reflexivity].
    cbn [concat]. rewrite app_nil_r. reflexivity.
  - assert (pending s <> []) as Hp by (rewrite P; discriminate).
    destruct (recv bufsize s) as [[chunk|e] s1] eqn:R;
      [|apply recv_raise in R as (_ & P' & _); congruence].
    pose proof (recv_some W Hb Hp R) as Hc.
    pose proof (recv_ok _ _ R) as [Hcat He].
    pose proof (recv_size _ _ R) as Hs.
    pose proof (recv_well_formed _ W R) as W1.
    destruct chunk as [|b chunk]; [congruence|]. cbn [length] in Hs.
    rewrite (IH _ s1 Hb W1) by lia.
    rewrite He, <- P, Hcat, <- app_assoc. reflexivity.
Qed.

(** X7.  The read loop of gradual_stress.py and spike_test.py returns
    when the server closes the connection, with every byte the server
    sent, however the bytes were cut into reads; a connection the
    server leaves open ends in the timeout of the socket, and the
    attempt is recorded as a failure with latency 0 although the
    response has arrived.  gradual_stress.py counts an attempt that
    ends with the close as completed, with all its bytes; spike_test.py
    records it as a success when at least one byte came. *)
Theorem X7_read_until_close (bufsize : Z) (s : socket)
    (elapsed now : Stats.latency) (data : SpikeTest.Stats) :
  (0 < bufsize)%Z -> well_formed s ->
  read_until_close bufsize s
  = (match at_end s with
     | PeerClosed => Ok (concat (pending s))
     | RecvRaises e => Raise e
     end,
     {| pending := []; at_end := at_end s |})
  /\ GradualStress.make_request (gradual_stress_io (Some s) true, elapsed)
     = match at_end s with
       | PeerClosed => (true, elapsed, sock_size s)
       | RecvRaises _ => (false, 0%Z, 0)
       end
  /\ SpikeTest.make_request now (spike_test_io (Some s) true, elapsed) data
     = data ++ [match at_end s with
                | PeerClosed => (now, elapsed, 0 <? sock_size s)
                | RecvRaises _ => (now, 0%Z, false)
                end].
Proof.
  intros Hb W.
  assert (forall n, (0 < n)%Z ->
            read_until_close n s
            = (match at_end s with
               | PeerClosed => Ok (concat (pending s))
               | RecvRaises e => Raise e
               end,
               {| pending := []; at_end := at_end s |})) as H.
  { intros n Hn. unfold read_until_close.
    rewrite (read_to_close_all n (S (sock_size s)) [] s Hn W) by lia.
    reflexivity. }
  split; [apply H; exact Hb|].
  unfold gradual_stress_io, spike_test_io, request_io.
  rewrite !H by lia. cbn [fst].
  destruct (at_end s); split; reflexivity.
Qed.

Lemma X7_read_until_close_witness :
  read_until_close 4096
    (Samples.closing [Samples.head_5; CRLF2; Samples.b "hello"])
  = (Ok Samples.response_5, Samples.closing []).
Proof.
  refine (proj1 (X7_read_until_close 4096
             (Samples.closing [Samples.head_5; CRLF2; Samples.b "hello"])
             0%Z 0%Z [] _ _)).
  - reflexivity.
  - repeat constructor; discriminate.
Defined.

(** ** The inline loop of final_benchmark.py and memory_stress.py *)

Lemma read_framed_enough (fuel : nat) :
  forall (response : bytes) (cl : option Z) (s : socket),
    sock_size s < fuel ->
    exists r, read_framed fuel response cl s = Some r.
Proof.
  induction fuel as [|fuel IH]; intros response cl s Hf; [lia|].
  cbn [read_framed].
  destruct (recv (1024 * 1024) s) as [[chunk|e] s1] eqn:R;
    [|eexists; reflexivity].
  pose proof (recv_size _ _ R) as Hs.
  destruct chunk as [|b chunk]; [eexists; reflexivity|].
  cbn [length] in Hs. cbv zeta.
  match goal with
  | |- exists r, match ?sc with _ => _ end = Some r =>
      destruct sc as [[n|]|e]
  end.
  - match goal with
    | |- context [Z.leb ?a ?b] => destruct (Z.leb a b)
    end; [eexists; reflexivity|apply IH; lia].
  - apply IH. lia.
  - eexists; reflexivity.
Qed.



(** Without a declared length the loop only ends with the stream. *)
Lemma read_framed_unframed (hdr body : bytes) (fuel : nat) :
  forall (response : bytes) (s : socket),
    well_formed s -> sock_size s < fuel ->
    response ++ concat (pending s) = hdr ++ CRLF2 ++ body ->
    find Byte.eqb CRLF2 (hdr ++ CRLF2) = Some (length hdr) ->
    find_content_length (split CRLF (decode hdr)) = Ok None ->
    read_framed fuel response None s
    = Some (match at_end s with
            | PeerClosed => Ok (hdr ++ CRLF2 ++ body)
            | RecvRaises e => Raise e
            end,
            {| pending := []; at_end := at_end s |}).
Proof.
  induction fuel as [|fuel IH];
    intros response s W Hf Hcat Hfirst Hscan; [lia|].
  cbn [read_framed].
  destruct (pending s) as [|seg segs] eqn:P.
  - rewrite (recv_at_end (1024 * 1024) s P).
    rewrite <- (socket_eta s P eq_refl).
    destruct (at_end s); [|reflexivity].
    cbn [concat] in Hcat. rewrite app_nil_r in Hcat. rewrite Hcat.
    reflexivity.
  - assert (pending s <> []) as Hp by (rewrite P; discriminate).
    rewrite <- P in Hcat.
    assert (0 < 1024 * 1024)%Z as Hb by lia.
    destruct (recv (1024 * 1024) s) as [[chunk|e] s1] eqn:R;
      [|apply recv_raise in R as (_ & P' & _); congruence].
    pose proof (recv_some W Hb Hp R) as Hc.
    pose proof (recv_ok _ _ R) as [Hcat1 He].
    pose proof (recv_size _ _ R) as Hs.
    pose proof (recv_well_formed _ W R) as W1.
    destruct chunk as [|b chunk]; [congruence|]. cbn [length] in Hs.
    rewrite Hcat1, app_assoc in Hcat. cbv zeta.
    destruct (contains Byte.eqb CRLF2 (response ++ b :: chunk)) eqn:C.
    + destruct (header_located _ _ _ _ Hcat Hfirst C) as (L1 & L2 & L3 & L4).
      rewrite L1, L2, Hscan, <- He. apply IH; try assumption. lia.
    + rewrite <- He. apply IH; try assumption. lia.
Qed.



(** X9.  A response without a [Content-Length] line gives the inline
    loop of final_benchmark.py and memory_stress.py nothing to stop
    at: it reads on to the end of the stream.  If the server closes,
    the attempt is completed with every byte sent; on a connection
    kept alive the read times out, and the attempt is counted as
    failed although the response has arrived in full. *)
Theorem X9_inline_loop_without_length (hdr body : bytes)
    (segs : list bytes) (fin : sock_end) (elapsed : Stats.latency)
    (st : FinalBenchmark.stats) :
  Forall (fun seg => seg <> []) segs ->
  concat segs = hdr ++ CRLF2 ++ body ->
  find Byte.eqb CRLF2 (hdr ++ CRLF2) = Some (length hdr) ->
  find_content_length (split CRLF (decode hdr)) = Ok None ->
  let s := {| pending := segs; at_end := fin |} in
  read_inline s
  = (match fin with
     | PeerClosed => Ok (hdr ++ CRLF2 ++ body)
     | RecvRaises e => Raise e
     end, {| pending := []; at_end := fin |})
  /\ FinalBenchmark.record (io_of (fst (read_inline s)), elapsed) st
     = match fin with
       | PeerClosed =>
           FinalBenchmark.record_completed elapsed (hdr ++ CRLF2 ++ body) st
       | RecvRaises _ => FinalBenchmark.record_failed st
       end.
Proof.
  intros W Hcat Hfirst Hscan s. subst s.
  assert (read_inline {| pending := segs; at_end := fin |}
          = (match fin with
             | PeerClosed => Ok (hdr ++ CRLF2 ++ body)
             | RecvRaises e => Raise e
             end, {| pending := []; at_end := fin |})) as H.
  { unfold read_inline.
    rewrite (read_framed_unframed hdr body (S (sock_size _)) []
               {| pending := segs; at_end := fin |});
      try assumption; [reflexivity|lia]. }
  rewrite H. split; [reflexivity|]. destruct fin; reflexivity.
Qed.

Lemma X9_inline_loop_without_length_witness :
  FinalBenchmark.record
    (io_of (fst (read_inline
                   (Samples.stream [Samples.head_none ++ CRLF2]))), 7%Z)
    FinalBenchmark.initial
  = FinalBenchmark.record_failed FinalBenchmark.initial.
Proof.
  refine (proj2 (X9_inline_loop_without_length Samples.head_none []
             [Samples.head_none ++ CRLF2] (RecvRaises SocketTimeout)
             7%Z FinalBenchmark.initial _ _ _ _)).
  - repeat constructor; discriminate.
  - cbn [concat]. rewrite !app_nil_r. reflexivity.
  - reflexivity.
  - reflexivity.
Defined.

(** ** The loop of bomb_test.py *)

Lemma read_rest_enough (fuel : nat) :
  forall (response : bytes) (body_start cl : Z) (s : socket),
    sock_size s < fuel ->
    exists r, read_rest fuel response body_start cl s = Some r.
Proof.
  induction fuel as [|fuel IH]; intros response body_start cl s Hf; [lia|].
  cbn [read_rest].
  destruct (len response - body_start <? cl)%Z; [|eexists; reflexivity].
  destruct (recv 65536 s) as [[chunk|e] s1] eqn:R; [|eexists; reflexivity].
  pose proof (recv_size _ _ R) as Hs.
  destruct chunk as [|b chunk]; [eexists; reflexivity|].
  cbn [length] in Hs. apply IH. lia.
Qed.

(** The loop comes to an end, and it is left by an exception only when
    a read raises before the blank line has been seen. *)
Lemma read_bomb_outcome (fuel : nat) :
  forall (response : bytes) (s : socket),
    sock_size s < fuel ->
    find Byte.eqb CRLF2 response = None ->
    exists r s',
      read_bomb fuel response s = Some (r, s')
      /\ (forall e, r = Raise e ->
            at_end s = RecvRaises e
            /\ find Byte.eqb CRLF2 (response ++ concat (pending s)) = None).
Proof.
  induction fuel as [|fuel IH]; intros response s Hf Hout; [lia|].
  cbn [read_bomb].
  destruct (recv 65536 s) as [[chunk|e] s1] eqn:R.
  - pose proof (recv_size _ _ R) as Hs.
    pose proof (recv_ok _ _ R) as [Hcat He].
    destruct chunk as [|b chunk];
      [eexists; eexists; split; [reflexivity|discriminate]|].
    cbn [length] in Hs. cbv zeta.
    destruct (find Byte.eqb CRLF2 (response ++ b :: chunk)) as [i|] eqn:F.
    + destruct (decode_strict (firstn i (response ++ b :: chunk)))
        as [header|e];
        [|eexists; eexists; split; [reflexivity|discriminate]].
      destruct (find_content_length (split CRLF header)) as [[cl|]|e];
        try (eexists; eexists; split; [reflexivity|discriminate]).
      destruct (read_rest_enough (S fuel) (response ++ b :: chunk)
                  (Z.of_nat i + 4) cl s1 ltac:(lia)) as [[response' s2] E].
      rewrite E. eexists; eexists; split; [reflexivity|discriminate].
    + destruct (IH (response ++ b :: chunk) s1 ltac:(lia) F)
        as (r & s' & E & H).
      exists r, s'. split; [exact E|].
      intros e Hr. destruct (H e Hr) as [A B].
      split; [congruence|]. rewrite Hcat, app_assoc. exact B.
  - apply recv_raise in R as (-> & P & E).
    eexists; eexists; split; [reflexivity|].
    intros e' [= <-]. split; [exact E|].
    rewrite P. cbn [concat]. rewrite app_nil_r. exact Hout.
Qed.

(** X10.  bomb_test.py counts an attempt as failed, once it is
    connected and the request sent, only when a read raises before the
    blank line that ends the head has been seen.  From the blank line
    on everything ends in the count of a completed request: a body cut
    short by the close of the connection or by a timeout, a
    [Content-Length] that is no number, a head that does not decode. *)
Theorem X10_bomb_test_fails_only_before_blank_line (s : socket) :
  (exists r, read_bomb (S (sock_size s)) [] s = Some r)
  /\ (forall e, fst (read_bomb_response s) = Raise e ->
        at_end s = RecvRaises e
        /\ contains Byte.eqb CRLF2 (concat (pending s)) = false)
  /\ (contains Byte.eqb CRLF2 (concat (pending s)) = true ->
      is_ok (fst (read_bomb_response s)) = true).
Proof.
  destruct (read_bomb_outcome (S (sock_size s)) [] s ltac:(lia) eq_refl)
    as (r & s' & E & H).
  split; [eexists; exact E|].
  unfold read_bomb_response. rewrite E. cbn [fst app] in *.
  split.
  - intros e Hr. destruct (H e Hr) as [A B].
    split; [exact A|]. unfold contains. rewrite B. reflexivity.
  - intros C. destruct r as [response|e]; [reflexivity|].
    destruct (H e eq_refl) as [_ B]. unfold contains in C.
    rewrite B in C. discriminate.
Qed.

(** A body cut short by a timeout: completed, with the bytes that came. *)
Lemma X10_bomb_test_fails_only_before_blank_line_witness :
  is_ok (fst (read_bomb_response (Samples.stream Samples.truncated_5)))
  = true.
Proof.
  apply (proj2 (proj2 (X10_bomb_test_fails_only_before_blank_line
                         (Samples.stream Samples.truncated_5)))).
  reflexivity.
Defined.

End ReadsFacts.

(* ================================================================== *)
(** * A head with more than one [Content-Length] line *)
(* ================================================================== *)

Module RepeatedLength.
Import Py Net Framer PyFacts FramerFacts.

(** stress_test.py files the header lines in a dictionary: of the lines
    filed under one key, the last decides. *)
Lemma header_lines_last_wins (k : str) (pre post : list str) (line : str) :
  StressTest.header_key line = Some k ->
  Forall (fun l => StressTest.header_key l <> Some k) post ->
  dict_get k (StressTest.parse_header_lines (pre ++ line :: post))
  = Some (strip (snd (split1 ":"%char line))).
Proof.
  intros Hk Hpost.
  change (pre ++ line :: post) with (pre ++ [line] ++ post).
  rewrite app_assoc. unfold StressTest.parse_header_lines.
  rewrite fold_left_app.
  rewrite (@fold_header_lines_absent k post _ Hpost).
  exact (@fold_header_lines_last k pre line Hk).
Qed.

(** extreme_stress.py and ultra_stress.py leave their loop at the first
    line that starts with [content-length:]. *)
Lemma scan_first_wins (pre post : list str) (line : str) :
  Forall (fun l => starts_with Ascii.eqb (of_string "content-length:")
                     (lower l) = false) pre ->
  starts_with Ascii.eqb (of_string "content-length:") (lower line) = true ->
  Extreme.scan_content_length (pre ++ line :: post)
  = rbind (index (split [":"%char] line) 1) (fun v => int (strip v)).
Proof.
  intros Hpre Hline. induction Hpre as [|l pre Hl _ IH].
  - cbn [app Extreme.scan_content_length]. rewrite Hline. reflexivity.
  - cbn [app Extreme.scan_content_length]. rewrite Hl. exact IH.
Qed.

(** X12.  The framers disagree on a head with two [Content-Length]
    lines.  [parse_response] of stress_test.py takes the value of the
    last one, as the later assignment to [headers["content-length"]]
    replaces the earlier; [parse_response] of extreme_stress.py and
    ultra_stress.py takes the value of the first, where its loop
    breaks.  [first] and [second] are the two lines, in this order,
    among lines that are no [Content-Length] lines to either framer. *)
Theorem X12_repeated_content_length (status_line first second : str)
    (pre mid post : list str) :
  let is_length_line (l : str) :=
    StressTest.header_key l = Some (of_string "content-length")
    /\ starts_with Ascii.eqb (of_string "content-length:") (lower l) = true in
  let no_length_line (l : str) :=
    StressTest.header_key l <> Some (of_string "content-length")
    /\ starts_with Ascii.eqb (of_string "content-length:") (lower l)
       = false in
  is_length_line first -> is_length_line second ->
  no_length_line status_line ->
  Forall no_length_line pre -> Forall no_length_line mid ->
  Forall no_length_line post ->
  let lines := status_line :: pre ++ first :: mid ++ second :: post in
  StressTest.get_content_length (StressTest.parse_header_lines (tl lines))
  = int (strip (snd (split1 ":"%char second)))
  /\ Extreme.scan_content_length lines
     = rbind (index (split [":"%char] first) 1) (fun v => int (strip v)).
Proof.
  intros is_length_line no_length_line [F1 F2] [S1 S2] [_ St] Hpre Hmid Hpost
         lines.
  subst lines. cbn [tl]. split.
  - unfold StressTest.get_content_length.
    change (pre ++ first :: mid ++ second :: post)
      with (pre ++ [first] ++ mid ++ second :: post).
    rewrite !app_assoc.
    rewrite (header_lines_last_wins (of_string "content-length")
               (((pre ++ [first]) ++ mid)) post second S1).
    + reflexivity.
    + eapply Forall_impl; [|exact Hpost]. intros l [A _]. exact A.
  - change (status_line :: pre ++ first :: mid ++ second :: post)
      with ((status_line :: pre) ++ first :: mid ++ second :: post).
    apply scan_first_wins; [|exact F2].
    constructor; [exact St|].
    eapply Forall_impl; [|exact Hpre]. intros l [_ B]. exact B.
Qed.

(** [Content-Length: 5] before [Content-Length: 7]: stress_test.py
    frames a body of 7 bytes, extreme_stress.py one of 5. *)
Lemma X12_repeated_content_length_witness :
  let lines := [of_string "HTTP/1.1 200 OK"; of_string "Content-Length: 5";
                of_string "X-Server: aurora"; of_string "Content-Length: 7"]
  in
  StressTest.get_content_length (StressTest.parse_header_lines (tl lines))
  = Ok 7%Z
  /\ Extreme.scan_content_length lines = Ok 5%Z.
Proof.
  refine (X12_repeated_content_length (of_string "HTTP/1.1 200 OK")
            (of_string "Content-Length: 5") (of_string "Content-Length: 7")
            [] [of_string "X-Server: aurora"] [] _ _ _ _ _ _).
  - split; reflexivity.
  - split; reflexivity.
  - split; [discriminate|reflexivity].
  - constructor.
  - constructor; [split; [discriminate|reflexivity]|constructor].
  - constructor.
Defined.

End RepeatedLength.

(* ================================================================== *)
(** * A run of endpoint_mix.py *)
(* ================================================================== *)

Module EndpointMixFacts.
Import Py Framer FramerFacts EndpointMix Report ReportFacts EndpointMixRun.











End EndpointMixFacts.

(* ================================================================== *)
(** * The summary of final_benchmark.py *)
(* ================================================================== *)

Module FinalBenchmarkFacts.
Import Py Report FinalBenchmarkReport.

(** A benchmark in which no attempt gets a response returns zeros. *)
Lemma benchmark_all_failed (attempts : list attempt) (elapsed : Q) :
  forallb (fun a => negb (returned a)) attempts = true ->
  exists rate,
    benchmark_endpoint attempts elapsed
    = Ok {| completed := 0; failed := length attempts; rps := rate;
            bytes := 0; avg_lat := 0; p50 := 0; p99 := 0 |}.
Proof.
  intros H. unfold benchmark_endpoint.
  assert (forall s,
             fold_left (fun s a => FinalBenchmark.record a s) attempts s
             = {| FinalBenchmark.completed := FinalBenchmark.completed s;
                  FinalBenchmark.failed
                  := FinalBenchmark.failed s + length attempts;
                  FinalBenchmark.latencies := FinalBenchmark.latencies s;
                  FinalBenchmark.bytes := FinalBenchmark.bytes s |}) as E.
  { induction attempts as [|[[|response] el] attempts IH]; intros s.
    - cbn. rewrite Nat.add_0_r. destruct s; reflexivity.
    - cbn [forallb returned negb andb] in H. cbn [fold_left].
      rewrite (IH H). cbn. f_equal. lia.
    - discriminate H. }
  rewrite E. cbn. eexists. reflexivity.
Qed.

(** X14.  The summary of final_benchmark.py takes the best average
    latency as the [min] over the benchmarks with a positive average.
    When no benchmark has one, as when every attempt of every benchmark
    fails after the server check has passed, that [min] is over an
    empty sequence: [main] prints the heading and raises [ValueError]
    before any line of the summary.  In every other case the summary
    prints. *)
Theorem X14_final_benchmark_summary (results : list outcome) :
  (forallb (fun r => Qle_bool (avg_lat r) 0) results = true ->
   summary results = ([Printed "SUMMARY"], Raise ValueError))
  /\ snd (summary results)
     = (if forallb (fun r => Qle_bool (avg_lat r) 0) results
        then Raise ValueError else Ok tt)
  /\ (forall (runs : list (list attempt * Q)),
        Forall (fun run => forallb (fun a => negb (returned a)) (fst run)
                           = true) runs ->
        forall results',
          Forall2 (fun run r => benchmark_endpoint (fst run) (snd run) = Ok r)
                  runs results' ->
          summary results' = ([Printed "SUMMARY"], Raise ValueError)).
Proof.
  assert (forall rs : list outcome,
             forallb (fun r => Qle_bool (avg_lat r) 0) rs = true ->
             summary rs = ([Printed "SUMMARY"], Raise ValueError)) as Hall.
  { intros rs H. unfold summary.
    destruct (max_of (map rps rs)) as [m|e] eqn:M.
    - assert (filter (fun x => negb (Qle_bool x 0)) (map avg_lat rs) = [])
        as F.
      { clear M. induction rs as [|r rs IH]; [reflexivity|].
        cbn [forallb] in H. apply andb_true_iff in H as [Hr H].
        cbn [map filter]. rewrite Hr. cbn [negb]. exact (IH H). }
      rewrite F. reflexivity.
    - destruct rs; [|discriminate M]. cbn in M. injection M as <-.
      reflexivity. }
  assert (forall rs : list outcome,
             forallb (fun r => Qle_bool (avg_lat r) 0) rs = false ->
             snd (summary rs) = Ok tt) as Hsome.
  { intros rs H. unfold summary.
    destruct rs as [|r0 rs]; [discriminate H|].
    destruct (filter (fun x => negb (Qle_bool x 0)) (map avg_lat (r0 :: rs)))
      as [|x l] eqn:F.
    - exfalso. clear - H F. revert H F. generalize (r0 :: rs). intros l.
      induction l as [|r l IH]; intros H F; [discriminate H|].
      cbn [forallb map filter] in *.
      destruct (Qle_bool (avg_lat r) 0); cbn [negb andb] in *;
        [exact (IH H F)|discriminate F].
    - cbn [map max_of min_of emit snd]. reflexivity. }
  split; [|split].
  - apply Hall.
  - destruct (forallb (fun r => Qle_bool (avg_lat r) 0) results) eqn:E;
      [rewrite (Hall _ E); reflexivity|apply Hsome; exact E].
  - intros runs Hruns results' Hres. apply Hall.
    induction Hres as [|run r runs results' Hr _ IH]; [reflexivity|].
    inversion Hruns as [|? ? Hfail Hruns']; subst.
    destruct (benchmark_all_failed (fst run) (snd run) Hfail) as [rate E].
    rewrite E in Hr. injection Hr as <-.
    cbn [forallb avg_lat]. rewrite (IH Hruns'). reflexivity.
Qed.

End FinalBenchmarkFacts.

(* ================================================================== *)
(** * The requests of extreme_stress.py and ultra_stress.py *)
(* ================================================================== *)

From Stdlib Require Import DecimalNat DecimalFacts.

Module RequestFacts.
Import Py Net Framer Worker Scripts Request.

(** ** [str.split] on text without the separator *)

Lemma split_go_skip (sep : str) :
  forall (x rest cur : str),
    split_go sep (x ++ rest) (length x) cur = split_go sep rest 0 cur.
Proof.
  induction x as [|c x IH]; intros rest cur; [reflexivity|].
  cbn [app length split_go]. apply IH.
Qed.

Lemma starts_with_self (p rest : str) :
  starts_with Ascii.eqb p (p ++ rest) = true.
Proof.
  induction p as [|c p IH]; [reflexivity|].
  cbn [app starts_with]. rewrite Ascii.eqb_refl, IH. reflexivity.
Qed.

Lemma split_go_piece (s0 : ascii) (sep' : str) :
  forall (a rest cur : str),
    forallb (fun c => negb (Ascii.eqb s0 c)) a = true ->
    split_go (s0 :: sep') (a ++ (s0 :: sep') ++ rest) 0 cur
    = rev (rev a ++ cur) :: split_go (s0 :: sep') rest 0 [].
Proof.
  induction a as [|c a IH]; intros rest cur Ha.
  - cbn [app split_go rev].
    change (s0 :: sep' ++ rest) with ((s0 :: sep') ++ rest).
    rewrite starts_with_self. cbn [length Nat.sub].
    rewrite Nat.sub_0_r, split_go_skip. reflexivity.
  - cbn [forallb] in Ha. apply andb_true_iff in Ha as [Hc Ha].
    specialize (IH rest (c :: cur) Ha).
    remember ((s0 :: sep') ++ rest) as tl eqn:Etl.
    cbn [app split_go starts_with].
    apply negb_true_iff in Hc. rewrite Hc. cbn [andb].
    rewrite IH. cbn [rev]. rewrite <- List.app_assoc. reflexivity.
Qed.

Lemma split_go_last (s0 : ascii) (sep' : str) :
  forall (a cur : str),
    forallb (fun c => negb (Ascii.eqb s0 c)) a = true ->
    split_go (s0 :: sep') a 0 cur = [rev (rev a ++ cur)].
Proof.
  induction a as [|c a IH]; intros cur Ha; [reflexivity|].
  cbn [forallb] in Ha. apply andb_true_iff in Ha as [Hc Ha].
  cbn [split_go starts_with].
  apply negb_true_iff in Hc. rewrite Hc. cbn [andb].
  rewrite (IH (c :: cur) Ha). cbn [rev]. rewrite <- List.app_assoc. reflexivity.
Qed.

(** [(a + sep + rest).split(sep)] is [a] and the pieces of [rest], when
    the first character of [sep] is not in [a]. *)
Lemma split_piece (s0 : ascii) (sep' a rest : str) :
  forallb (fun c => negb (Ascii.eqb s0 c)) a = true ->
  split (s0 :: sep') (a ++ (s0 :: sep') ++ rest)
  = a :: split (s0 :: sep') rest.
Proof.
  intros Ha. unfold split. rewrite (split_go_piece s0 sep' a rest [] Ha).
  rewrite List.app_nil_r, List.rev_involutive. reflexivity.
Qed.

Lemma split_last (s0 : ascii) (sep' a : str) :
  forallb (fun c => negb (Ascii.eqb s0 c)) a = true ->
  split (s0 :: sep') a = [a].
Proof.
  intros Ha. unfold split. rewrite (split_go_last s0 sep' a [] Ha).
  rewrite List.app_nil_r, List.rev_involutive. reflexivity.
Qed.

(** ** [int(str(n))] *)

(** The characters of [str(n)] are digits. *)
Lemma uint_digits (d : Decimal.uint) :
  forallb isdigit (of_string (NilEmpty.string_of_uint d)) = true.
Proof. induction d; cbn [NilEmpty.string_of_uint]; try exact IHd; reflexivity. Qed.

Lemma int_digits_uint (d : Decimal.uint) :
  forall (acc : nat) (seen : bool),
    d <> Decimal.Nil \/ seen = true ->
    int_digits (of_string (NilEmpty.string_of_uint d)) (Z.of_nat acc) seen
    = Some (Z.of_nat (Nat.of_uint_acc d acc)).
Proof.
  induction d as [|d IH|d IH|d IH|d IH|d IH|d IH|d IH|d IH|d IH|d IH];
    intros acc seen H;
    [destruct H as [H| ->]; [congruence|reflexivity]|..];
    cbn [NilEmpty.string_of_uint Nat.of_uint_acc];
    rewrite <- (IH _ true (or_intror eq_refl));
    unfold of_string; cbn [list_ascii_of_string int_digits];
    match goal with
    | |- (if isdigit ?c then _ else _) = _ =>
        change (isdigit c) with true; cbv iota;
        change (digit_value c) with
          (Z.of_nat (nat_of_ascii c) - 48)%Z
    end;
    f_equal; rewrite Nat.tail_mul_spec;
    match goal with
    | |- context [nat_of_ascii ?c] =>
        let v := eval vm_compute in (nat_of_ascii c) in
        change (nat_of_ascii c) with v
    end; lia.
Qed.

Lemma lstrip_digit (s : str) :
  forallb isdigit s = true -> lstrip s = s.
Proof.
  destruct s as [|c s]; [reflexivity|]. cbn [forallb lstrip].
  intros H. apply andb_true_iff in H as [Hc _].
  assert (isspace c = false) as Hs.
  { unfold isdigit, isspace in *.
    apply andb_true_iff in Hc as [A B].
    apply Nat.leb_le in A, B.
    destruct (9 <=? nat_of_ascii c) eqn:E1;
      destruct (nat_of_ascii c <=? 13) eqn:E2;
      destruct (28 <=? nat_of_ascii c) eqn:E3;
      destruct (nat_of_ascii c <=? 31) eqn:E4;
      destruct (nat_of_ascii c =? 32) eqn:E5;
      try reflexivity;
      repeat match goal with
             | H : (_ <=? _) = true |- _ => apply Nat.leb_le in H
             | H : (_ =? _) = true |- _ => apply Nat.eqb_eq in H
             end; lia. }
  rewrite Hs. reflexivity.
Qed.

Lemma strip_digits (s : str) :
  forallb isdigit s = true -> strip s = s.
Proof.
  intros H. unfold strip. rewrite (lstrip_digit s H).
  rewrite lstrip_digit; [apply List.rev_involutive|].
  rewrite forallb_forall in *. intros c Hc. apply H.
  apply List.in_rev. exact Hc.
Qed.

Lemma to_uint_nonnil (n : nat) : Nat.to_uint n <> Decimal.Nil.
Proof.
  rewrite <- (Unsigned.of_to n) at 1. rewrite Unsigned.to_of.
  apply unorm_nonnil.
Qed.

(** [int(str(n)) == n] *)
Lemma int_decimal (n : nat) : int (decimal n) = Ok (Z.of_nat n).
Proof.
  unfold int, decimal. rewrite strip_digits by apply uint_digits.
  pose proof (int_digits_uint (Nat.to_uint n) 0 false
                (or_introl (to_uint_nonnil n))) as H.
  change (Nat.of_uint_acc (Nat.to_uint n) 0) with (Nat.of_uint (Nat.to_uint n))
    in H.
  rewrite Unsigned.of_to in H. change (Z.of_nat 0) with 0%Z in H.
  pose proof (to_uint_nonnil n) as Hn.
  destruct (Nat.to_uint n); [congruence|..];
    cbn [NilEmpty.string_of_uint] in *; unfold of_string in *;
    cbn [list_ascii_of_string] in *;
    match goal with
    | |- context [Ascii.eqb ?c "-"%char] =>
        change (Ascii.eqb c "-"%char) with false;
        change (Ascii.eqb c "+"%char) with false
    end; cbv iota; rewrite H; reflexivity.
Qed.

Lemma digits_without (c0 : ascii) (s : str) :
  isdigit c0 = false ->
  forallb isdigit s = true ->
  forallb (fun c => negb (Ascii.eqb c0 c)) s = true.
Proof.
  intros H0 H. rewrite forallb_forall in *. intros c Hc.
  apply negb_true_iff. destruct (Ascii.eqb_spec c0 c) as [<-|]; [|reflexivity].
  rewrite (H c0 Hc) in H0. discriminate.
Qed.

Lemma split_CRLF (a rest : str) :
  forallb (fun c => negb (Ascii.eqb CR c)) a = true ->
  split CRLF (a ++ CRLF ++ rest) = a :: split CRLF rest.
Proof. exact (split_piece CR [LF] a rest). Qed.

Lemma split_CRLF2 (a b rest : str) :
  forallb (fun c => negb (Ascii.eqb CR c)) (a ++ b) = true ->
  split CRLF (a ++ b ++ CRLF ++ rest) = (a ++ b) :: split CRLF rest.
Proof.
  intros H. rewrite (List.app_assoc a b).
  exact (split_CRLF (a ++ b) rest H).
Qed.

Lemma split_CRLF4 (a b c d rest : str) :
  forallb (fun x => negb (Ascii.eqb CR x)) (a ++ b ++ c ++ d) = true ->
  split CRLF (a ++ b ++ c ++ d ++ CRLF ++ rest)
  = (a ++ b ++ c ++ d) :: split CRLF rest.
Proof.
  intros H.
  replace (a ++ b ++ c ++ d ++ CRLF ++ rest)
    with ((a ++ b ++ c ++ d) ++ CRLF ++ rest)
    by (rewrite <- !List.app_assoc; reflexivity).
  exact (split_CRLF (a ++ b ++ c ++ d) rest H).
Qed.

(** The value of the [Content-Length] line, read as the scripts read
    such a line. *)
Lemma content_length_line (n : nat) :
  rbind (index (split [":"%char]
                  (of_string "Content-Length: " ++ decimal n)) 1)
        (fun v => int (strip v))
  = Ok (Z.of_nat n).
Proof.
  change (of_string "Content-Length: " ++ decimal n)
    with (of_string "Content-Length" ++ [":"%char]
            ++ (" "%char :: decimal n)).
  rewrite split_piece by reflexivity.
  rewrite split_last.
  - cbn [index nth_error rbind].
    assert (strip (" "%char :: decimal n) = strip (decimal n)) as E
      by reflexivity.
    rewrite E, strip_digits by apply uint_digits.
    apply int_decimal.
  - cbn [forallb]. apply andb_true_iff. split; [reflexivity|].
    apply digits_without; [reflexivity|apply uint_digits].
Qed.

(** X11.  The request that [create_request] of extreme_stress.py and
    ultra_stress.py builds declares exactly the bytes it carries: it is
    the encoded head, ended by a blank line, followed by the body, and
    the head, read line by line as the scripts read a head, gives the
    length of the body as its [Content-Length]; a request without body
    has no such line.  (The endpoint is taken to hold no carriage
    return.) *)
Theorem X11_request_declares_its_body (t : task) :
  forallb (fun c => negb (Ascii.eqb CR c)) (endpoint t) = true ->
  post_request t = encode (request_text t) ++ sent_body t
  /\ (exists head, request_text t = head ++ CRLF ++ CRLF)
  /\ Extreme.scan_content_length (split CRLF (request_text t))
     = Ok (len (sent_body t)).
Proof.
  intros Hep.
  assert (forall method : string,
             forallb (fun c => negb (Ascii.eqb CR c)) (of_string method) = true ->
             forallb (fun c => negb (Ascii.eqb CR c))
               (of_string method ++ of_string " " ++ endpoint t
                  ++ of_string " HTTP/1.1") = true) as Hl1.
  { intros method Hm. rewrite !forallb_app, Hm, Hep. reflexivity. }
  assert (forall method : string,
             forallb (fun c => negb (Ascii.eqb CR c)) (of_string method) = true ->
             starts_with Ascii.eqb (of_string "content-length:")
               (lower (of_string method ++ of_string " " ++ endpoint t
                         ++ of_string " HTTP/1.1")) = false ->
             Extreme.scan_content_length
               (split CRLF
                  ((of_string method ++ of_string " " ++ endpoint t
                      ++ of_string " HTTP/1.1" ++ CRLF
                      ++ of_string "Host: localhost:" ++ PORT ++ CRLF
                      ++ of_string "Connection: keep-alive" ++ CRLF) ++ CRLF))
             = Ok 0%Z) as Hget.
  { intros method Hm Hs. rewrite <- !List.app_assoc.
    rewrite (split_CRLF4 _ _ _ _ _ (Hl1 method Hm)).
    rewrite (split_CRLF2 (of_string "Host: localhost:") PORT _ eq_refl).
    rewrite (split_CRLF (of_string "Connection: keep-alive") CRLF eq_refl).
    cbn [Extreme.scan_content_length]. rewrite Hs. reflexivity. }
  unfold post_request, request_text, sent_body.
  destruct (body t) as [[|b0 b]|].
  - split; [rewrite List.app_nil_r; reflexivity|].
    split; [|apply Hget; reflexivity].
    exists (of_string "GET" ++ of_string " " ++ endpoint t
              ++ of_string " HTTP/1.1" ++ CRLF
              ++ of_string "Host: localhost:" ++ PORT ++ CRLF
              ++ of_string "Connection: keep-alive").
    rewrite <- !List.app_assoc. reflexivity.
  - split; [reflexivity|]. split.
    + exists (of_string "POST" ++ of_string " " ++ endpoint t
                ++ of_string " HTTP/1.1" ++ CRLF
                ++ of_string "Host: localhost:" ++ PORT ++ CRLF
                ++ of_string "Connection: keep-alive" ++ CRLF
                ++ of_string "Content-Length: " ++ decimal (length (b0 :: b))
                ++ CRLF
                ++ of_string "Content-Type: application/octet-stream").
      rewrite <- !List.app_assoc. reflexivity.
    + set (n := length (b0 :: b)).
      rewrite <- !List.app_assoc.
      rewrite (split_CRLF4 _ _ _ _ _ (Hl1 "POST"%string eq_refl)).
      rewrite (split_CRLF2 (of_string "Host: localhost:") PORT _ eq_refl).
      rewrite (split_CRLF (of_string "Connection: keep-alive") _ eq_refl).
      rewrite (split_CRLF2 (of_string "Content-Length: ") (decimal n)).
      * cbn [Extreme.scan_content_length].
        change (starts_with Ascii.eqb (of_string "content-length:")
                  (lower (of_string "POST" ++ of_string " " ++ endpoint t
                            ++ of_string " HTTP/1.1"))) with false.
        change (starts_with Ascii.eqb (of_string "content-length:")
                  (lower (of_string "Host: localhost:" ++ PORT))) with false.
        change (starts_with Ascii.eqb (of_string "content-length:")
                  (lower (of_string "Connection: keep-alive"))) with false.
        change (starts_with Ascii.eqb (of_string "content-length:")
                  (lower (of_string "Content-Length: " ++ decimal n)))
          with true.
        cbv iota. rewrite content_length_line. reflexivity.
      * rewrite forallb_app. apply andb_true_iff. split; [reflexivity|].
        apply digits_without; [reflexivity|apply uint_digits].
  - split; [rewrite List.app_nil_r; reflexivity|].
    split; [|apply Hget; reflexivity].
    exists (of_string "GET" ++ of_string " " ++ endpoint t
              ++ of_string " HTTP/1.1" ++ CRLF
              ++ of_string "Host: localhost:" ++ PORT ++ CRLF
              ++ of_string "Connection: keep-alive").
    rewrite <- !List.app_assoc. reflexivity.
Qed.

Lemma X11_request_declares_its_body_witness :
  Extreme.scan_content_length
    (split CRLF
       (request_text {| endpoint := of_string "/echo";
                        body := Some (repeat "X"%byte 1024) |}))
  = Ok 1024%Z.
Proof.
  refine (proj2 (proj2 (X11_request_declares_its_body
            {| endpoint := of_string "/echo";
               body := Some (repeat "X"%byte 1024) |} _))).
  reflexivity.
Defined.

End RequestFacts.
